(** * Real-time CPU monitor: a shallow embedding of [cpu_monitor.c]

    The development follows [src/Real_time_cpu_monitoring_tool.c].

    - [unsigned long long] values are integers in [Z] with the wrap-around
      modulo [2^64] written out ([wrap64]);
    - [int] values are integers in [Z] with the two's-complement wrap-around
      written out ([wrap_int]);
    - [double] values are the primitive binary64 numbers ([float]), so that
      every arithmetic step rounds exactly as the compiled program does,
      and every definition can be evaluated;
    - the files under [/proc] are inputs: a file that cannot be opened is
      [None], its content is the list of the characters that can be read
      from it, up to the end of the file or a read error;
    - the side effects of one loop iteration (log lines, datagrams, the bar
      on the screen) are returned as a list of events;
    - the log file and its rotated copies are entries of a finite map from
      file names to contents, the working directory; what [fopen],
      [rename] and the clock deliver to a call of [write_log] is an input
      of that call. *)

From Stdlib Require Import ZArith List Bool Ascii String Lia Floats.
From Stdlib Require Uint63 DecimalString DecimalN DecimalPos DecimalFacts.
From stdpp Require Import base list gmap strings.

Local Open Scope Z_scope.

(** ** Machine integers *)

Module U64.

Definition modulus : Z := 2 ^ 64.

Definition max : Z := modulus - 1.

(** Reduction of an integer to the range of [unsigned long long]. *)
Definition wrap64 (z : Z) : Z := z mod modulus.

Definition in_range (z : Z) : Prop := 0 <= z < modulus.

Definition add (a b : Z) : Z := wrap64 (a + b).

Definition sub (a b : Z) : Z := wrap64 (a - b).

End U64.

Module CInt.

Definition min : Z := - 2 ^ 31.

Definition max : Z := 2 ^ 31 - 1.

(** Two's-complement reduction to the range of [int]. *)
Definition wrap_int (z : Z) : Z := (z + 2 ^ 31) mod 2 ^ 32 - 2 ^ 31.

Definition in_range (z : Z) : Prop := min <= z <= max.

End CInt.

(** ** Conversions between integers and [double] *)

Module Double.

(** [(double) n] for an [unsigned long long] [n]: the nearest binary64
    number, ties to even.  Below [2^63] this is the primitive conversion;
    above, the value is halved with a sticky last bit, converted, and
    doubled, which rounds the same way. *)
Definition of_u64 (n : Z) : float :=
  if n <? 2 ^ 63 then of_uint63 (Uint63.of_Z n)
  else
    (of_uint63 (Uint63.of_Z (Z.lor (Z.shiftr n 1) (Z.land n 1))) * 2)%float.

(** [(double) n] for an [int] [n]; every [int] is a binary64 number. *)
Definition of_int (n : Z) : float :=
  if n <? 0 then (- of_uint63 (Uint63.of_Z (- n)))%float
  else of_uint63 (Uint63.of_Z n).

(** The integer part of a binary64 number, rounded toward zero; [None]
    for infinities and NaN. *)
Definition truncate (x : float) : option Z :=
  match Prim2SF x with
  | S754_zero _ => Some 0
  | S754_finite s m e => Some (cond_Zopp s (Z.shiftl (Zpos m) e))
  | S754_infinity _ => None
  | S754_nan => None
  end.

(** [(int) x].  The conversion is defined by C only when the integer part
    fits in an [int]; outside, the value is the one the x86-64 conversion
    instruction delivers, [INT_MIN]. *)
Definition to_int (x : float) : Z :=
  match truncate x with
  | Some z => if (CInt.min <=? z) && (z <=? CInt.max) then z else CInt.min
  | None => CInt.min
  end.

(** A binary64 number that is a number: a zero, a finite number or an
    infinity. *)
Definition not_nan (x : float) : Prop := Prim2SF x <> S754_nan.

End Double.

(** ** The usage calculator *)

(** A counter sample: the pair ([idle], [total]) that [get_cpu_times]
    writes through its two pointers. *)
Record CounterSample : Type := mkSample {
  idle_ticks : Z;
  total_ticks : Z
}.

Definition zero_sample : CounterSample := mkSample 0 0.

Definition sample_in_range (s : CounterSample) : Prop :=
  U64.in_range (idle_ticks s) /\ U64.in_range (total_ticks s).

(** The clamp of lines 170-171. *)
Definition clamp_percent (usage : float) : float :=
  let usage := if (usage <? 0)%float then 0%float else usage in
  let usage := if (100 <? usage)%float then 100%float else usage in
  usage.

(** The quotient formula of line 169, on the two differences. *)
Definition usage_formula (idle_diff total_diff : Z) : float :=
  (100 * (1 - Double.of_u64 idle_diff / Double.of_u64 total_diff))%float.

(** [calculate_cpu_usage], lines 160-173. *)
Definition calculate_cpu_usage
    (prev_idle prev_total idle total : Z) (ok : bool) : float :=
  if negb ok then 0%float
  else if (total <=? prev_total) || (prev_total =? 0) then 0%float
  else
    let idle_diff := U64.sub idle prev_idle in
    let total_diff := U64.sub total prev_total in
    if total_diff =? 0 then 0%float
    else
      let usage := usage_formula idle_diff total_diff in
      clamp_percent usage.

(** The same function on samples, in the argument order of the
    [computeUsage] of the specification. *)
Definition computeUsage (prev curr : CounterSample) (ok : bool) : float :=
  calculate_cpu_usage (idle_ticks prev) (total_ticks prev)
                      (idle_ticks curr) (total_ticks curr) ok.

(** ** A model of the C library calls on text *)

Module Stdio.

(** What a call does to the process: it returns, or it ends the process
    with a status ([exit]). *)
Inductive outcome (A : Type) : Type :=
| Returned (a : A)
| Exited (status : Z).

Arguments Returned {A} a.
Arguments Exited {A} status.

Definition newline : ascii := Ascii.ascii_of_nat 10.

Definition nul : ascii := Ascii.ascii_of_nat 0.

(** [isspace] in the C locale: space, and the controls 9 to 13. *)
Definition isspace (c : ascii) : bool :=
  let n := Ascii.nat_of_ascii c in
  (n =? 32)%nat || ((9 <=? n)%nat && (n <=? 13)%nat).

Definition isdigit (c : ascii) : bool :=
  let n := Ascii.nat_of_ascii c in
  (48 <=? n)%nat && (n <=? 57)%nat.

Definition digit_value (c : ascii) : Z :=
  Z.of_nat (Ascii.nat_of_ascii c) - 48.

(** [fgets_chars room fp]: the characters one [fgets] call stores when
    [room] more characters fit in the buffer, and the rest of the stream.
    Reading stops after a newline. *)
Fixpoint fgets_chars (room : nat) (fp : list ascii)
  : list ascii * list ascii :=
  match room, fp with
  | O, _ => ([], fp)
  | _, [] => ([], [])
  | S room', c :: fp' =>
      if Ascii.eqb c newline then ([c], fp')
      else
        let '(line, rest) := fgets_chars room' fp' in
        (c :: line, rest)
  end.

(** [fgets(line, size, fp)]: [None] is the null pointer returned at end
    of file; otherwise the stored characters (at most [size - 1], the last
    byte of the buffer holds the terminator) and the rest of the stream. *)
Definition fgets (size : nat) (fp : list ascii)
  : option (list ascii * list ascii) :=
  match fp with
  | [] => None
  | _ :: _ => Some (fgets_chars (size - 1) fp)
  end.

(** The buffer read as a C string: the characters before the first
    terminator. *)
Fixpoint c_string (buf : list ascii) : list ascii :=
  match buf with
  | [] => []
  | c :: buf' => if Ascii.eqb c nul then [] else c :: c_string buf'
  end.

(** [strncmp(s, lit, n) == 0] for a literal [lit] of exactly [n]
    characters, none of them the terminator: the first [n] characters of
    [s] are those of [lit]. *)
Fixpoint starts_with (lit s : list ascii) : bool :=
  match lit, s with
  | [], _ => true
  | _ :: _, [] => false
  | a :: lit', b :: s' => Ascii.eqb a b && starts_with lit' s'
  end.

(** The white-space directive of a [scanf] format. *)
Fixpoint skip_space (s : list ascii) : list ascii :=
  match s with
  | [] => []
  | c :: s' => if isspace c then skip_space s' else s
  end.

(** How matching an ordinary character of the format ends. *)
Inductive literal_result : Type :=
| LitOk (rest : list ascii)
| LitInputFailure
| LitMismatch.

Fixpoint match_literal (lit s : list ascii) : literal_result :=
  match lit, s with
  | [], _ => LitOk s
  | _ :: _, [] => LitInputFailure
  | a :: lit', b :: s' =>
      if Ascii.eqb a b then match_literal lit' s' else LitMismatch
  end.

(** The decimal digits at the head of the input, as a number. *)
Fixpoint scan_digits (s : list ascii) (acc : Z) : Z * list ascii :=
  match s with
  | [] => (acc, [])
  | c :: s' =>
      if isdigit c then scan_digits s' (10 * acc + digit_value c)
      else (acc, s)
  end.

Inductive conv_result : Type :=
| ConvOk (v : Z) (rest : list ascii)
| ConvInputFailure
| ConvMatchFailure.

(** One [%llu] conversion: white space is skipped, a sign is accepted,
    at least one digit is required.  The value is the one [strtoull]
    gives: [ULLONG_MAX] when the digits overflow, and the negation modulo
    [2^64] after a minus sign. *)
Definition scan_llu (s : list ascii) : conv_result :=
  match skip_space s with
  | [] => ConvInputFailure
  | c :: s' =>
      let negative := Ascii.eqb c "-"%char in
      let digits :=
        if Ascii.eqb c "-"%char || Ascii.eqb c "+"%char then s' else c :: s' in
      match digits with
      | [] => ConvMatchFailure
      | d :: _ =>
          if isdigit d then
            let '(v, rest) := scan_digits digits 0 in
            ConvOk (if v >? U64.max then U64.max
                    else if negative then U64.wrap64 (- v) else v) rest
          else ConvMatchFailure
      end
  end.

Inductive scan_stop : Type := StopDone | StopInput | StopMatch.

(** [n] conversions [%llu] separated by white-space directives: the
    values converted before the first failure, and why scanning stopped. *)
Fixpoint scan_fields (n : nat) (s : list ascii) : list Z * scan_stop :=
  match n with
  | O => ([], StopDone)
  | S n' =>
      match scan_llu (skip_space s) with
      | ConvOk v rest =>
          let '(vs, stop) := scan_fields n' rest in (v :: vs, stop)
      | ConvInputFailure => ([], StopInput)
      | ConvMatchFailure => ([], StopMatch)
      end
  end.

Definition EOF : Z := -1.

(** [sscanf(line, "cpu %llu %llu %llu %llu %llu %llu %llu %llu", ...)]:
    the return value and the converted values, in order.  The return value
    is the number of conversions, or [EOF] when the input ends before the
    first one. *)
Definition sscanf_cpu (line : list ascii) : Z * list Z :=
  match match_literal (list_ascii_of_string "cpu") (c_string line) with
  | LitOk rest =>
      let '(vs, stop) := scan_fields 8 rest in
      match vs, stop with
      | [], StopInput => (EOF, [])
      | _, _ => (Z.of_nat (length vs), vs)
      end
  | LitInputFailure => (EOF, [])
  | LitMismatch => (0, [])
  end.

End Stdio.

(** ** Configuration constants, lines 17-23 *)

Definition ALERT_THRESHOLD : float := 80%float.

Definition SEND_ALERTS : bool := true.

Definition usage_bar_width : Z := 40.

(** ** Events of a run *)

(** The alert text of line 316: time stamp, usage and the three load
    averages. *)
Record AlertEvent : Type := mkAlert {
  alert_time : string;
  alert_usage : float;
  alert_load1 : float;
  alert_load5 : float;
  alert_load15 : float
}.

(** The calls of [write_log], one constructor per call site. *)
Inductive log_line : Type :=
| LogStarting
| LogStatOpenFailed
| LogStatReadFailed
| LogStatFormat
| LogLoadavgOpenFailed
| LogLoadavgFormat
| LogUptimeOpenFailed
| LogUptimeFormat
| LogCycle (usage max_usage min_usage l1 l5 l15 uptime : float)
| LogAlert (a : AlertEvent)
| LogUdpFailed
| LogUdpSent (bytes : Z) (a : AlertEvent)
| LogShutdown.

Inductive status_line : Type :=
| StatusOK
| StatusAlert (threshold : float).

(** What [refresh] shows: the numbers of rows 1 to 7, the bar of row 9,
    the status of row 11 and the cycle count of row 13. *)
Record Screen : Type := mkScreen {
  scr_usage : float;
  scr_max : float;
  scr_min : float;
  scr_loads : float * float * float;
  scr_uptime : float;
  scr_cores : Z;
  scr_bar : list ascii;
  scr_status : status_line;
  scr_cycle : Z
}.

Inductive event : Type :=
| EvLog (l : log_line)
| EvSendto (a : AlertEvent)
| EvRefresh (s : Screen).

(** ** The sampler *)

(** The loop of lines 118-120: [cores] after the remaining lines of [fp]
    have been read.  Every [fgets] call on a non-empty stream consumes at
    least one character, so [length fp] iterations are enough. *)
Fixpoint count_processors (fuel : nat) (fp : list ascii) (cores : Z) : Z :=
  match fuel with
  | O => cores
  | S fuel' =>
      match Stdio.fgets 256 fp with
      | None => cores
      | Some (line, fp') =>
          count_processors fuel' fp'
            (if Stdio.starts_with (list_ascii_of_string "processor") line
             then CInt.wrap_int (cores + 1) else cores)
      end
  end.

(** [get_cpu_cores], lines 113-123.  [cpuinfo] is the content of
    [/proc/cpuinfo], [None] when it cannot be opened. *)
Definition get_cpu_cores (cpuinfo : option (list ascii)) : Stdio.outcome Z :=
  match cpuinfo with
  | None => Stdio.Returned 1
  | Some fp =>
      let cores := count_processors (length fp) fp 0 in
      Stdio.Returned (if cores >? 0 then cores else 1)
  end.

(** ** The first version of the core count

    The repository keeps the first version of the monitor with its
    README.  There [get_cpu_cores] ends the process when
    [/proc/cpuinfo] cannot be opened, and returns the count as it is. *)

Module Legacy.

Definition EXIT_FAILURE : Z := 1.

Definition get_cpu_cores (cpuinfo : option (list ascii)) : Stdio.outcome Z :=
  match cpuinfo with
  | None => Stdio.Exited EXIT_FAILURE
  | Some fp => Stdio.Returned (count_processors (length fp) fp 0)
  end.

(** [calculate_cpu_usage] of the first version: the formula on the two
    differences, without a guard and without a clamp. *)
Definition calculate_cpu_usage (prev_idle prev_total idle total : Z) : float :=
  usage_formula (U64.sub idle prev_idle) (U64.sub total prev_total).

End Legacy.

(** The eight variables of line 143 after [sscanf]: a variable that was
    not converted keeps its initial value 0. *)
Definition field (vs : list Z) (i : nat) : Z := nth i vs 0.

(** [get_cpu_times], lines 128-154.  [stat] is the content of
    [/proc/stat]; [idle] and [total] are the values behind the two
    pointers at the call.  The result is those two values and [ok] after
    the call, with the log lines written. *)
Definition get_cpu_times (stat : option (list ascii)) (idle total : Z)
  : Stdio.outcome (Z * Z * bool * list event) :=
  match stat with
  | None => Stdio.Returned (idle, total, false, [EvLog LogStatOpenFailed])
  | Some fp =>
      match Stdio.fgets 512 fp with
      | None => Stdio.Returned (idle, total, false, [EvLog LogStatReadFailed])
      | Some (line, _) =>
          let '(cnt, vs) := Stdio.sscanf_cpu line in
          if cnt <? 4 then
            Stdio.Returned (idle, total, false, [EvLog LogStatFormat])
          else
            let user := field vs 0 in
            let nice := field vs 1 in
            let system := field vs 2 in
            let idle_time := field vs 3 in
            let iowait := field vs 4 in
            let irq := field vs 5 in
            let softirq := field vs 6 in
            let steal := field vs 7 in
            Stdio.Returned
              (U64.add idle_time iowait,
               U64.add (U64.add (U64.add (U64.add (U64.add (U64.add
                 (U64.add user nice) system) idle_time) iowait) irq)
                 softirq) steal,
               true, [])
      end
  end.

(** The three load averages and the uptime of the monitor. *)
Record SystemInfo : Type := mkInfo {
  loadavg1 : float;
  loadavg5 : float;
  loadavg15 : float;
  uptime : float
}.

(** [get_system_info], lines 175-198.  The numbers that [fscanf] converts
    are inputs: [loadavg] holds the converted prefix of the three load
    averages ([None]: the file cannot be opened), [up] the converted
    uptime ([Some None]: the file opens and holds no number). *)
Definition get_system_info
    (loadavg : option (list float)) (up : option (option float))
    (info : SystemInfo) : SystemInfo * bool * list event :=
  let '(info1, evs1) :=
    match loadavg with
    | None => (info, [EvLog LogLoadavgOpenFailed])
    | Some vals =>
        (mkInfo (nth 0 vals (loadavg1 info)) (nth 1 vals (loadavg5 info))
                (nth 2 vals (loadavg15 info)) (uptime info),
         if (length vals <? 1)%nat then [EvLog LogLoadavgFormat] else [])
    end in
  match up with
  | None => (info1, false, evs1 ++ [EvLog LogUptimeOpenFailed])
  | Some None => (info1, false, evs1 ++ [EvLog LogUptimeFormat])
  | Some (Some u) =>
      (mkInfo (loadavg1 info1) (loadavg5 info1) (loadavg15 info1) u,
       true, evs1)
  end.

(** [send_udp_alert], lines 200-211.  [sent] is what [sendto] returns. *)
Definition send_udp_alert (udp_sock : Z) (sent : Z) (a : AlertEvent)
  : list event :=
  if SEND_ALERTS then
    if udp_sock <? 0 then []
    else
      EvSendto a ::
      (if sent <? 0 then [EvLog LogUdpFailed]
       else [EvLog (LogUdpSent sent a)])
  else [].

(** ** The stats tracker *)

Record RunningExtremes : Type := mkExtremes {
  ext_max : float;
  ext_min : float
}.

(** Line 262. *)
Definition initial_extremes : RunningExtremes := mkExtremes 0%float 100%float.

(** Lines 282-283, the [update] of the specification. *)
Definition update (e : RunningExtremes) (cpu_usage : float) : RunningExtremes :=
  let max_usage :=
    if (ext_max e <? cpu_usage)%float then cpu_usage else ext_max e in
  let min_usage :=
    if (cpu_usage <? ext_min e)%float then cpu_usage else ext_min e in
  mkExtremes max_usage min_usage.

(** ** The alert policy *)

(** The condition of line 310, [cpu_usage >= ALERT_THRESHOLD], on any
    usage and threshold; the [shouldAlert] of the specification. *)
Definition shouldAlert (usage threshold : float) : bool :=
  (threshold <=? usage)%float.

(** ** The usage bar, lines 299-307 *)

(** Lines 300-302. *)
Definition usage_fill (width : Z) (cpu_usage : float) : Z :=
  let fill := Double.to_int ((cpu_usage / 100) * Double.of_int width)%float in
  let fill := if fill <? 0 then 0 else fill in
  let fill := if fill >? width then width else fill in
  fill.

(** [mvprintw(9, x, "c")] on the characters of row 9: outside the row
    nothing is written. *)
Definition mvprintw_char (row : list ascii) (x : Z) (c : ascii) : list ascii :=
  if x <? 0 then row else <[Z.to_nat x := c]> row.

(** Lines 304-307 on the row that [clear] left blank; [cols] is the width
    of the terminal. *)
Definition draw_bar (cols : nat) (width fill : Z) : list ascii :=
  let row := replicate cols " "%char in
  let row := mvprintw_char row 0 "["%char in
  let row :=
    foldl (fun r i => mvprintw_char r (i + 1) "#"%char) row (seqZ 0 fill) in
  let row :=
    foldl (fun r i => mvprintw_char r (i + 1) "-"%char) row
          (seqZ fill (width - fill)) in
  mvprintw_char row (width + 1) "]"%char.

(** ** The main loop *)

#[global] Instance outcome_ret : MRet Stdio.outcome := @Stdio.Returned.

#[global] Instance outcome_bind : MBind Stdio.outcome :=
  fun A B k c =>
    match c with
    | Stdio.Returned a => k a
    | Stdio.Exited status => Stdio.Exited status
    end.

(** The variables of [main] that live across iterations (lines 259-265)
    and the two globals the loop reads. *)
Record Monitor : Type := mkMonitor {
  prev_idle : Z;
  prev_total : Z;
  idle : Z;
  total : Z;
  cpu_usage : float;
  extremes : RunningExtremes;
  sys : SystemInfo;
  ok_times : bool;
  ok_sys : bool;
  cycle : Z;
  keep_running : bool;
  udp_sock : Z
}.

Definition max_usage (m : Monitor) : float := ext_max (extremes m).

Definition min_usage (m : Monitor) : float := ext_min (extremes m).

(** What one iteration reads from outside the program. *)
Record TickInput : Type := mkInput {
  in_stat : option (list ascii);
  in_loadavg : option (list float);
  in_uptime : option (option float);
  in_time : string;
  in_sent : Z;
  in_key : Z;
  in_signal : bool
}.

(** What stays fixed during a run: the core count of line 250 and the
    width of the terminal. *)
Record Session : Type := mkSession {
  cpu_cores : Z;
  term_cols : nat
}.

(** Lines 259-265; [sock] is the descriptor left by lines 230-244. *)
Definition initial_monitor (sock : Z) : Monitor :=
  mkMonitor 0 0 0 0 0%float initial_extremes
            (mkInfo 0%float 0%float 0%float 0%float) false false 0 true sock.

Definition is_quit_key (ch : Z) : bool := (ch =? 113) || (ch =? 81).

(** The body of the [while] loop, lines 268-335: the variables after the
    iteration, the events in order, and whether the loop was left by the
    [break] of line 331. *)
Definition tick (env : Session) (st : Monitor) (inp : TickInput)
  : Stdio.outcome (Monitor * list event * bool) :=
  '(idle', total', ok_times', evs_times) ←
    get_cpu_times (in_stat inp) (idle st) (total st);
  let usage :=
    calculate_cpu_usage (prev_idle st) (prev_total st) idle' total' ok_times' in
  let prev_idle' := if ok_times' then idle' else prev_idle st in
  let prev_total' := if ok_times' then total' else prev_total st in
  let '(sys', ok_sys', evs_sys) :=
    get_system_info (in_loadavg inp) (in_uptime inp) (sys st) in
  let cpu_usage' := usage in
  let extremes' := update (extremes st) cpu_usage' in
  let log_cycle :=
    EvLog (LogCycle cpu_usage' (ext_max extremes') (ext_min extremes')
             (loadavg1 sys') (loadavg5 sys') (loadavg15 sys') (uptime sys')) in
  let bar :=
    draw_bar (term_cols env) usage_bar_width
             (usage_fill usage_bar_width cpu_usage') in
  let alert :=
    mkAlert (in_time inp) cpu_usage'
            (loadavg1 sys') (loadavg5 sys') (loadavg15 sys') in
  let '(status, evs_alert) :=
    if shouldAlert cpu_usage' ALERT_THRESHOLD then
      (StatusAlert ALERT_THRESHOLD,
       EvLog (LogAlert alert) ::
       send_udp_alert (udp_sock st) (in_sent inp) alert)
    else (StatusOK, []) in
  let screen :=
    mkScreen cpu_usage' (ext_max extremes') (ext_min extremes')
             (loadavg1 sys', loadavg5 sys', loadavg15 sys') (uptime sys')
             (cpu_cores env) bar status (cycle st) in
  let quit := is_quit_key (in_key inp) in
  let st' :=
    mkMonitor prev_idle' prev_total' idle' total' cpu_usage' extremes' sys'
              ok_times' ok_sys' (CInt.wrap_int (cycle st + 1))
              (keep_running st && negb quit && negb (in_signal inp))
              (udp_sock st) in
  Stdio.Returned
    (st',
     evs_times ++ evs_sys ++ [log_cycle] ++ evs_alert ++ [EvRefresh screen],
     quit).

(** The [while] loop of line 267 over the inputs of successive
    iterations: the variables when the loop is left, or when the inputs
    are used up, and the events. *)
Fixpoint run_loop (env : Session) (st : Monitor) (inputs : list TickInput)
  : Stdio.outcome (Monitor * list event) :=
  match inputs with
  | [] => Stdio.Returned (st, [])
  | inp :: inputs' =>
      if keep_running st then
        '(st', evs, quit) ← tick env st inp;
        if (quit : bool) then Stdio.Returned (st', evs)
        else
          '(st'', evs') ← run_loop env st' inputs';
          Stdio.Returned (st'', evs ++ evs')
      else Stdio.Returned (st, [])
  end.

(** The sample a successful read of [/proc/stat] delivers; [None] when
    [get_cpu_times] leaves [ok] at 0. *)
Definition valid_sample (stat : option (list ascii)) : option CounterSample :=
  match get_cpu_times stat 0 0 with
  | Stdio.Returned (idle, total, true, _) => Some (mkSample idle total)
  | _ => None
  end.

(** The last sample read successfully during the iterations with inputs
    [hist], oldest first; the zero sample when there is none. *)
Definition last_valid (hist : list TickInput) : CounterSample :=
  foldl (fun s inp => default s (valid_sample (in_stat inp))) zero_sample hist.

(** The states in which the loop condition of line 267 is evaluated, with
    the inputs of the iterations run so far, oldest first. *)
Inductive reachable (env : Session) (sock : Z)
  : list TickInput -> Monitor -> Prop :=
| reachable_start : reachable env sock [] (initial_monitor sock)
| reachable_tick hist st inp st' evs :
    reachable env sock hist st ->
    keep_running st = true ->
    tick env st inp = Stdio.Returned (st', evs, false) ->
    reachable env sock (hist ++ [inp]) st'.

(** The alert text built at line 316 from the variables after the
    iteration. *)
Definition alert_of (inp : TickInput) (st' : Monitor) : AlertEvent :=
  mkAlert (in_time inp) (cpu_usage st')
          (loadavg1 (sys st')) (loadavg5 (sys st')) (loadavg15 (sys st')).

(** The events of an alert: the log line of line 318, the datagram and
    the log line of [send_udp_alert]. *)
Definition is_alert_event (ev : event) : bool :=
  match ev with
  | EvLog (LogAlert _) => true
  | EvLog LogUdpFailed => true
  | EvLog (LogUdpSent _ _) => true
  | EvSendto _ => true
  | _ => false
  end.

(** ** Lines of a text *)

(** The lines of a text, each with its newline; the last one may lack
    it. *)
Fixpoint split_lines (fp : list ascii) : list (list ascii) :=
  match fp with
  | [] => []
  | c :: fp' =>
      if Ascii.eqb c Stdio.newline then [c] :: split_lines fp'
      else
        match split_lines fp' with
        | [] => [[c]]
        | l :: ls => (c :: l) :: ls
        end
  end.

(** The buffers that successive [fgets] calls with a buffer of [size]
    bytes deliver, until end of file. *)
Fixpoint records (fuel size : nat) (fp : list ascii) : list (list ascii) :=
  match fuel with
  | O => []
  | S fuel' =>
      match Stdio.fgets size fp with
      | None => []
      | Some (line, fp') => line :: records fuel' size fp'
      end
  end.

Definition is_processor (line : list ascii) : bool :=
  Stdio.starts_with (list_ascii_of_string "processor") line.

(** The number of lines that begin with the marker. *)
Definition processor_count (lines : list (list ascii)) : Z :=
  Z.of_nat (length (List.filter is_processor lines)).

(** The first line of [/proc/stat] as [get_cpu_times] reads it. *)
Definition counter_line (stat : option (list ascii)) : option (list ascii) :=
  match stat with
  | None => None
  | Some fp =>
      match Stdio.fgets 512 fp with
      | None => None
      | Some (line, _) => Some line
      end
  end.

(** ** Lines printed by the kernel *)

(** The decimal notation of a counter, as the kernel prints it. *)
Definition decimal (n : Z) : list ascii :=
  list_ascii_of_string
    (DecimalString.NilZero.string_of_uint (N.to_uint (Z.to_N n))).

(** The counters of a line, each after one space, and the newline. *)
Definition kernel_fields (fields : list Z) : list ascii :=
  concat (map (fun n => " "%char :: decimal n) fields) ++ [Stdio.newline].

(** The first line of [/proc/stat] as the kernel prints it: the marker,
    two spaces, the counters separated by single spaces, a newline. *)
Definition kernel_line (fields : list Z) : list ascii :=
  list_ascii_of_string "cpu " ++ kernel_fields fields.

(** The number that the digits [d] denote after the digits read so far. *)
Fixpoint uint_value (d : Decimal.uint) (acc : Z) : Z :=
  match d with
  | Decimal.Nil => acc
  | Decimal.D0 d => uint_value d (10 * acc + 0)
  | Decimal.D1 d => uint_value d (10 * acc + 1)
  | Decimal.D2 d => uint_value d (10 * acc + 2)
  | Decimal.D3 d => uint_value d (10 * acc + 3)
  | Decimal.D4 d => uint_value d (10 * acc + 4)
  | Decimal.D5 d => uint_value d (10 * acc + 5)
  | Decimal.D6 d => uint_value d (10 * acc + 6)
  | Decimal.D7 d => uint_value d (10 * acc + 7)
  | Decimal.D8 d => uint_value d (10 * acc + 8)
  | Decimal.D9 d => uint_value d (10 * acc + 9)
  end.

(** An input at which a run of digits ends. *)
Definition stops_digits (rest : list ascii) : Prop :=
  match rest with
  | [] => True
  | c :: _ => Stdio.isdigit c = false
  end.

(** ** Kinds of events *)

(** The warnings of the sampler: the log lines of [get_cpu_times] and
    [get_system_info]. *)
Definition is_warning (ev : event) : bool :=
  match ev with
  | EvLog LogStatOpenFailed | EvLog LogStatReadFailed | EvLog LogStatFormat
  | EvLog LogLoadavgOpenFailed | EvLog LogLoadavgFormat
  | EvLog LogUptimeOpenFailed | EvLog LogUptimeFormat => true
  | _ => false
  end.

Definition is_cycle_line (ev : event) : bool :=
  match ev with
  | EvLog (LogCycle _ _ _ _ _ _ _) => true
  | _ => false
  end.

(** The cycle line of line 286 and the screen of lines 290-325, from the
    variables after the iteration. *)
Definition cycle_line_of (st' : Monitor) : event :=
  EvLog (LogCycle (cpu_usage st') (max_usage st') (min_usage st')
           (loadavg1 (sys st')) (loadavg5 (sys st')) (loadavg15 (sys st'))
           (uptime (sys st'))).

Definition screen_of (env : Session) (st st' : Monitor) : Screen :=
  mkScreen (cpu_usage st') (max_usage st') (min_usage st')
           (loadavg1 (sys st'), loadavg5 (sys st'), loadavg15 (sys st'))
           (uptime (sys st')) (cpu_cores env)
           (draw_bar (term_cols env) usage_bar_width
                     (usage_fill usage_bar_width (cpu_usage st')))
           (if shouldAlert (cpu_usage st') ALERT_THRESHOLD
            then StatusAlert ALERT_THRESHOLD else StatusOK)
           (cycle st).

(** The events of the alert branch, lines 310-322. *)
Definition alert_events_of (st : Monitor) (inp : TickInput) (st' : Monitor)
  : list event :=
  if shouldAlert (cpu_usage st') ALERT_THRESHOLD then
    EvLog (LogAlert (alert_of inp st')) ::
    send_udp_alert (udp_sock st) (in_sent inp) (alert_of inp st')
  else [].

(** An input that ends the loop: the quit key of line 329, or a signal
    handled by [handle_signal] during the iteration. *)
Definition ends_loop (inp : TickInput) : bool :=
  is_quit_key (in_key inp) || in_signal inp.

(** The screens shown during a run, in order. *)
Definition screens (evs : list event) : list Screen :=
  omap (fun ev => match ev with EvRefresh s => Some s | _ => None end) evs.

(** The most recent value that [read] delivers along the inputs [hist],
    oldest first; [0.0], the value of line 263, when there is none. *)
Definition latest (read : TickInput -> option float) (hist : list TickInput)
  : float :=
  foldl (fun v inp => default v (read inp)) 0%float hist.

(** The [k]-th load average that [fscanf] converts at line 181. *)
Definition read_load (k : nat) (inp : TickInput) : option float :=
  vals ← in_loadavg inp; vals !! k.

(** The uptime that [fscanf] converts at line 191. *)
Definition read_uptime (inp : TickInput) : option float :=
  u ← in_uptime inp; u.

(** A percentage: a number between [0.0] and [100.0]. *)
Definition is_percent (x : float) : Prop :=
  (0 <=? x)%float = true /\ (x <=? 100)%float = true.

(** The datagrams passed to [sendto] during a run, and the alerts written
    to the log at line 318, in order. *)
Definition datagrams (evs : list event) : list AlertEvent :=
  omap (fun ev => match ev with EvSendto a => Some a | _ => None end) evs.

Definition alerts_logged (evs : list event) : list AlertEvent :=
  omap (fun ev => match ev with EvLog (LogAlert a) => Some a | _ => None end)
       evs.

(** The log lines of lines 206 and 208. *)
Definition is_udp_log (ev : event) : bool :=
  match ev with
  | EvLog LogUdpFailed | EvLog (LogUdpSent _ _) => true
  | _ => false
  end.

(** The characters of the bar and of the blanks after it, for a fill
    count [n] at width [w], on a row without end. *)
Definition bar_text (w n : nat) (blanks : nat) : list ascii :=
  "["%char :: replicate n "#"%char ++ replicate (w - n) "-"%char ++
  "]"%char :: replicate blanks " "%char.

(** ** The program, lines 224-346 *)

(** The warnings of lines 232 and 240 on the standard error stream. *)
Inductive startup_warning : Type :=
| WarnSocket
| WarnServerIp.

(** What [main] meets outside the program: what [socket] and [inet_pton]
    return, the content of [/proc/cpuinfo], the width of the terminal,
    whether a signal arrives before the loop is entered, and the inputs
    of the iterations.  The terminal is taken to be there. *)
Record MainInput : Type := mkMainInput {
  in_socket : Z;
  in_pton : Z;
  in_cpuinfo : option (list ascii);
  in_cols : nat;
  in_early_signal : bool;
  in_ticks : list TickInput
}.

(** Lines 230-244: the descriptor left in [udp_sock], the warnings, and
    the number of calls of [close]. *)
Definition setup_socket (sock pton : Z) : Z * list startup_warning * nat :=
  if SEND_ALERTS then
    if sock <? 0 then (-1, [WarnSocket], 0%nat)
    else if pton <=? 0 then (-1, [WarnServerIp], 1%nat)
    else (sock, [], 0%nat)
  else (-1, [], 0%nat).

(** [handle_signal], lines 43-45, on the variables of the loop. *)
Definition handle_signal (st : Monitor) : Monitor :=
  mkMonitor (prev_idle st) (prev_total st) (idle st) (total st) (cpu_usage st)
            (extremes st) (sys st) (ok_times st) (ok_sys st) (cycle st)
            false (udp_sock st).

(** What a run has done when [main] returns, or when the inputs are used
    up with the loop still running ([exit_status] is [None] then). *)
Record MainResult : Type := mkResult {
  exit_status : option Z;
  run_events : list event;
  warnings : list startup_warning;
  closes : nat
}.

(** [main], lines 224-346. *)
Definition main (i : MainInput) : Stdio.outcome MainResult :=
  let '(sock, warns, closed) := setup_socket (in_socket i) (in_pton i) in
  cores ← get_cpu_cores (in_cpuinfo i);
  let st0 :=
    if in_early_signal i then handle_signal (initial_monitor sock)
    else initial_monitor sock in
  '(st, evs) ← run_loop (mkSession cores (in_cols i)) st0 (in_ticks i);
  if keep_running st then
    Stdio.Returned (mkResult None (EvLog LogStarting :: evs) warns closed)
  else
    Stdio.Returned
      (mkResult (Some 0)
                (EvLog LogStarting :: evs ++ [EvLog LogShutdown]) warns
                (if SEND_ALERTS && (0 <=? udp_sock st)
                 then S closed else closed)).

(** ** Formatted output *)

Module Printf.

(** The conversion [%0<width>d] of an [int] or a [long]: the decimal
    digits, after the sign of a negative number, with zeros in front up
    to [width] characters in all. *)
Definition zero_padded (width : nat) (n : Z) : list ascii :=
  let digits := decimal (Z.abs n) in
  if n <? 0 then
    "-"%char :: replicate (width - 1 - length digits) "0"%char ++ digits
  else replicate (width - length digits) "0"%char ++ digits.

(** [snprintf(buf, size, ...)] keeps the first [size - 1] characters of
    the text. *)
Definition snprintf (size : nat) (text : list ascii) : list ascii :=
  take (size - 1) text.

End Printf.


(** The digit [k] in front of the digits [d]. *)
Definition digit_cons (k : Z) (d : Decimal.uint) : Decimal.uint :=
  match k with
  | 0 => Decimal.D0 d
  | 1 => Decimal.D1 d
  | 2 => Decimal.D2 d
  | 3 => Decimal.D3 d
  | 4 => Decimal.D4 d
  | 5 => Decimal.D5 d
  | 6 => Decimal.D6 d
  | 7 => Decimal.D7 d
  | 8 => Decimal.D8 d
  | _ => Decimal.D9 d
  end.

(** The [width] last digits of [n], with zeros in front. *)
Fixpoint fixed_digits (width : nat) (n : Z) : Decimal.uint :=
  match width with
  | O => Decimal.Nil
  | S width' =>
      digit_cons (n / 10 ^ Z.of_nat width')
                 (fixed_digits width' (n mod 10 ^ Z.of_nat width'))
  end.

(** ** Time stamps, lines 213-222 *)

(** The fields of [struct tm] that the program reads. *)
Record tm : Type := mkTm {
  tm_year : Z;
  tm_mon : Z;
  tm_mday : Z;
  tm_hour : Z;
  tm_min : Z;
  tm_sec : Z
}.

(** What [gettimeofday] and [localtime] deliver at line 216-217: the
    broken-down time and the microseconds. *)
Record Clock : Type := mkClock {
  clock_tm : tm;
  tv_usec : Z
}.

(** Calendar values: a year from 0 to 9999, and the ranges that
    [localtime] keeps for the other fields. *)
Definition calendar (t : tm) : Prop :=
  -1900 <= tm_year t <= 8099 /\ 0 <= tm_mon t <= 11 /\
  1 <= tm_mday t <= 31 /\ 0 <= tm_hour t <= 23 /\
  0 <= tm_min t <= 59 /\ 0 <= tm_sec t <= 60.

(** [timestamp_now], lines 213-222: the content of the static buffer. *)
Definition timestamp_now (now : Clock) : list ascii :=
  let t := clock_tm now in
  Printf.snprintf 64
    (Printf.zero_padded 4 (CInt.wrap_int (tm_year t + 1900)) ++
     "-"%char :: Printf.zero_padded 2 (CInt.wrap_int (tm_mon t + 1)) ++
     "-"%char :: Printf.zero_padded 2 (tm_mday t) ++
     " "%char :: Printf.zero_padded 2 (tm_hour t) ++
     ":"%char :: Printf.zero_padded 2 (tm_min t) ++
     ":"%char :: Printf.zero_padded 2 (tm_sec t) ++
     "."%char :: Printf.zero_padded 3 (Z.quot (tv_usec now) 1000)).

(** ** The log file, lines 47-111 *)

Definition LOG_FILE : string := "cpu_monitor.log".

Definition LOG_MAX_BYTES : Z := 1024 * 1024.

(** The warnings of lines 52 and 91 on the standard error stream. *)
Inductive stderr_line : Type :=
| WarnLogOpen
| WarnLogRotate.

(** The global [logf] (whether a stream is open), the files of the
    working directory by name, and what was written to the standard error
    stream.  The monitor is taken to be the only program at work in the
    directory, and a write to an open stream to succeed. *)
Record LogState : Type := mkLog {
  logf : bool;
  files : gmap string (list ascii);
  stderr_lines : list stderr_line
}.

(** What one call of [write_log] meets outside the program: whether the
    [fopen] of line 49 succeeds, from line 101 and from line 94, whether
    the [rename] of line 89 succeeds, the time of line 84, and the time
    stamps of lines 96 and 106. *)
Record LogCall : Type := mkCall {
  call_fopen : bool;
  call_rename : bool;
  call_reopen : bool;
  call_time : tm;
  call_note_stamp : Clock;
  call_stamp : Clock
}.

(** [fopen(LOG_FILE, "a")] that succeeds: the file is created empty when
    it is not there. *)
Definition fopen_append (fs : gmap string (list ascii))
  : gmap string (list ascii) :=
  match fs !! LOG_FILE with
  | Some _ => fs
  | None => <[LOG_FILE := []]> fs
  end.

(** [open_log], lines 47-57. *)
Definition open_log (fopen_ok : bool) (s : LogState) : LogState :=
  if logf s then s
  else if fopen_ok then mkLog true (fopen_append (files s)) (stderr_lines s)
  else mkLog false (files s) (stderr_lines s ++ [WarnLogOpen]).

(** [close_log], lines 59-64. *)
Definition close_log (s : LogState) : LogState :=
  if logf s then mkLog false (files s) (stderr_lines s) else s.

(** [fprintf(logf, ...)] on the open stream: the text goes to the end of
    the file.  A stream whose file has lost its name writes to no file of
    the directory. *)
Definition fprintf_logf (text : list ascii) (s : LogState) : LogState :=
  mkLog (logf s) (alter (fun content => content ++ text) LOG_FILE (files s))
        (stderr_lines s).

(** The name built at lines 86-88. *)
Definition rotated_name (t : tm) : string :=
  string_of_list_ascii
    (Printf.snprintf 512
       (list_ascii_of_string LOG_FILE ++
        "."%char :: Printf.zero_padded 4 (CInt.wrap_int (tm_year t + 1900)) ++
        Printf.zero_padded 2 (CInt.wrap_int (tm_mon t + 1)) ++
        Printf.zero_padded 2 (tm_mday t) ++
        "_"%char :: Printf.zero_padded 2 (tm_hour t) ++
        Printf.zero_padded 2 (tm_min t) ++
        Printf.zero_padded 2 (tm_sec t))).

(** The line of line 96. *)
Definition rotation_note (stamp : Clock) (rotated : string) : list ascii :=
  timestamp_now stamp ++
  list_ascii_of_string " Log rotated: previous file moved to " ++
  list_ascii_of_string rotated ++ [Stdio.newline].

(** [rotate_log_if_needed], lines 66-98. *)
Definition rotate_log_if_needed (c : LogCall) (s : LogState) : LogState :=
  if negb (logf s) then s
  else
    match files s !! LOG_FILE with
    | None => s
    | Some content =>
        let size := Z.of_nat (length content) in
        if size <? LOG_MAX_BYTES then s
        else
          let rotated := rotated_name (call_time c) in
          let s :=
            if call_rename c then
              mkLog false (<[rotated := content]> (delete LOG_FILE (files s)))
                    (stderr_lines s)
            else
              mkLog false (files s) (stderr_lines s ++ [WarnLogRotate]) in
          let s := open_log (call_reopen c) s in
          if logf s then
            fprintf_logf (rotation_note (call_note_stamp c) rotated) s
          else s
    end.

(** The line that lines 106-108 write for the text [msg] that [vfprintf]
    produces. *)
Definition log_entry (stamp : Clock) (msg : list ascii) : list ascii :=
  timestamp_now stamp ++ " "%char :: msg ++ [Stdio.newline].

(** [write_log], lines 100-111, for the text [msg] of the message. *)
Definition write_log (c : LogCall) (msg : list ascii) (s : LogState)
  : LogState :=
  let s := open_log (call_fopen c) s in
  let s := rotate_log_if_needed c s in
  if negb (logf s) then s
  else fprintf_logf (log_entry (call_stamp c) msg) s.

(** The content of the log file, empty when there is no such file. *)
Definition log_content (s : LogState) : list ascii :=
  default [] (files s !! LOG_FILE).

(** A state in which an open stream has its file in the directory. *)
Definition log_consistent (s : LogState) : Prop :=
  logf s = true -> is_Some (files s !! LOG_FILE).

(** A call during which every [fopen] and the [rename] succeed. *)
Definition call_succeeds (c : LogCall) : Prop :=
  call_fopen c = true /\ call_rename c = true /\ call_reopen c = true.

(** A run of calls of [write_log], each with the text of its message. *)
Definition write_logs (calls : list (LogCall * list ascii)) (s : LogState)
  : LogState :=
  foldl (fun s call => write_log call.1 call.2 s) s calls.

(** The lines that a run of calls adds to the log. *)
Definition log_entries (calls : list (LogCall * list ascii)) : list ascii :=
  concat (map (fun call => log_entry (call_stamp call.1) call.2) calls).

(** ** Example inputs *)

Definition example_session : Session := mkSession 4 80.

Definition example_input (fields : list Z) : TickInput :=
  mkInput (Some (kernel_line fields))
          (Some [0.5%float; 0.25%float; 0.125%float])
          (Some (Some 1234.5%float))
          "2024-01-01 00:00:00.000" 64 (-1) false.

Definition first_input : TickInput :=
  example_input [100; 20; 30; 400; 5; 6; 7; 8].

Definition second_input : TickInput :=
  example_input [265; 20; 40; 425; 5; 6; 7; 8].

(** The variables after the first iteration on [first_input]. *)
Definition after_first_tick : Monitor :=
  match tick example_session (initial_monitor 3) first_input with
  | Stdio.Returned (st', _, _) => st'
  | Stdio.Exited _ => initial_monitor 3
  end.

Definition first_tick_events : list event :=
  match tick example_session (initial_monitor 3) first_input with
  | Stdio.Returned (_, evs, _) => evs
  | Stdio.Exited _ => []
  end.

(** One line of 520 characters: 255 fillers, the marker, 246 fillers, the
    marker, a newline. *)
Definition long_line : list ascii :=
  repeat "x"%char 255 ++ list_ascii_of_string "processor" ++
  repeat "y"%char 246 ++ list_ascii_of_string "processor" ++ [Stdio.newline].

(** An iteration in which nothing can be read and [q] is pressed. *)
Definition quit_input : TickInput :=
  mkInput None None None "2024-01-01 00:00:01.000" 0 113 false.

(** A log file that has reached the limit. *)
Definition full_log : list ascii :=
  replicate (Z.to_nat LOG_MAX_BYTES) "x"%char.

Definition new_year : tm := mkTm 124 0 1 0 0 0.

Definition example_call : LogCall :=
  mkCall true true true new_year (mkClock new_year 0) (mkClock new_year 500000).

(** The state before the first call, in an empty directory, and a state
    with the log at the limit. *)
Definition empty_log : LogState := mkLog false ∅ [].

Definition full_state : LogState :=
  mkLog true (<[LOG_FILE := full_log]> ∅) [].

Definition starting_message : list ascii :=
  list_ascii_of_string "Starting CPU monitor".

(** * Theorems *)

(** ** Facts on binary64 rounding

    The primitive operations are specified by the functions of
    [SpecFloat]; the lemmas below follow one rounding step through the
    shifts it performs. *)

Lemma fexp_eq x : SpecFloat.fexp prec emax x = Z.max (x - 53) (-1074).
Proof. reflexivity. Qed.

Lemma digits2_pos_size p : digits2_pos p = Pos.size p.
Proof. induction p; simpl; congruence. Qed.

Lemma Zdigits2_log2 m : 0 < m -> Zdigits2 m = Z.log2 m + 1.
Proof.
  destruct m as [|p|p]; try lia. intros _. simpl.
  rewrite digits2_pos_size. destruct p; simpl; lia.
Qed.

Lemma shr_1_div2 r : 0 <= shr_m r -> shr_m (shr_1 r) = shr_m r / 2.
Proof.
  destruct r as [m r s]. simpl. intros Hm.
  destruct m as [|p|p]; try lia; try reflexivity.
  destruct p; simpl shr_m.
  - rewrite Pos2Z.inj_xI. rewrite Z.mul_comm, Z.div_add_l by lia. reflexivity.
  - rewrite Pos2Z.inj_xO. rewrite Z.mul_comm, Z.div_mul by lia. reflexivity.
  - reflexivity.
Qed.

Lemma iter_shr_1 p : forall r, 0 <= shr_m r ->
  shr_m (SpecFloat.iter_pos shr_1 p r) = shr_m r / 2 ^ Zpos p.
Proof.
  induction p as [p IH|p IH|]; intros r Hr; simpl SpecFloat.iter_pos.
  - assert (H1 : 0 <= shr_m (shr_1 r)).
    { rewrite shr_1_div2 by assumption. apply Z.div_pos; lia. }
    assert (H2 : 0 <= shr_m (SpecFloat.iter_pos shr_1 p (shr_1 r))).
    { rewrite IH by assumption. apply Z.div_pos; lia. }
    rewrite IH, IH, shr_1_div2 by assumption.
    rewrite !Z.div_div by lia.
    f_equal.
    replace (Z.pos p~1) with (Z.pos p + Z.pos p + 1) by lia.
    rewrite !Z.pow_add_r by lia. ring.
  - assert (H2 : 0 <= shr_m (SpecFloat.iter_pos shr_1 p r)).
    { rewrite IH by assumption. apply Z.div_pos; lia. }
    rewrite IH, IH by assumption.
    rewrite !Z.div_div by lia.
    f_equal.
    replace (Z.pos p~0) with (Z.pos p + Z.pos p) by lia.
    rewrite !Z.pow_add_r by lia. ring.
  - rewrite shr_1_div2 by assumption. reflexivity.
Qed.

Lemma shr_record_of_loc_m m l : shr_m (shr_record_of_loc m l) = m.
Proof. destruct l as [|[]]; reflexivity. Qed.

(** Shifting keeps a positive mantissa positive. *)
Lemma shr_fexp_pos m e l :
  0 < m -> -1074 <= e ->
  exists r e', shr_fexp prec emax m e l = (r, e') /\
    0 < shr_m r /\ e <= e' /\ e' <= Z.max e (Zdigits2 m + e - 53) /\
    Zdigits2 (shr_m r) + e' <= Zdigits2 m + e.
Proof.
  intros Hm He. unfold shr_fexp, shr. rewrite fexp_eq.
  destruct (Z.max (Zdigits2 m + e - 53) (-1074) - e) as [|p|p] eqn:Hn.
  - eexists _, _. split; [reflexivity|]. rewrite shr_record_of_loc_m. lia.
  - eexists _, _. split; [reflexivity|].
    rewrite iter_shr_1 by (rewrite shr_record_of_loc_m; lia).
    rewrite shr_record_of_loc_m.
    rewrite Zdigits2_log2 in * by assumption.
    assert (Hp : Zpos p = Z.log2 m + 1 - 53) by lia.
    assert (Hlog : 0 <= Z.log2 m - Zpos p) by lia.
    rewrite <- Z.shiftr_div_pow2 by lia.
    assert (Hs : 0 < Z.shiftr m (Zpos p)).
    { apply Z.log2_lt_cancel. rewrite Z.log2_shiftr by lia. simpl Z.log2. lia. }
    split; [assumption|].
    rewrite Zdigits2_log2 by assumption.
    rewrite Z.log2_shiftr by lia. lia.
  - eexists _, _. split; [reflexivity|]. rewrite shr_record_of_loc_m. lia.
Qed.

Lemma round_nearest_even_bounds m l :
  m <= round_nearest_even m l <= m + 1.
Proof.
  unfold round_nearest_even. destruct l as [|[]]; try lia.
  destruct (Z.even m); lia.
Qed.

Lemma Zdigits2_succ m k : 0 < m -> m <= k <= m + 1 -> Zdigits2 k <= Zdigits2 m + 1.
Proof.
  intros Hm Hk. rewrite !Zdigits2_log2 by lia.
  assert (Z.log2 k <= Z.log2 (Z.succ m)) by (apply Z.log2_le_mono; lia).
  pose proof (Z.log2_succ_le m). lia.
Qed.

Lemma bra_finite sx mx ex lx :
  0 < mx -> -1074 <= ex -> ex <= 971 -> Zdigits2 mx + ex <= 1023 ->
  exists m e, binary_round_aux prec emax sx mx ex lx = S754_finite sx m e /\
    ex <= e /\ Zdigits2 (Zpos m) + e <= Zdigits2 mx + ex + 1.
Proof.
  intros Hm He1 He2 Hd. unfold binary_round_aux.
  destruct (shr_fexp_pos mx ex lx Hm He1) as (r1 & e1 & -> & Hr1 & Hle1 & Hu1 & Hd1).
  pose proof (round_nearest_even_bounds (shr_m r1) (loc_of_shr_record r1)) as Hrnd.
  set (m2 := round_nearest_even (shr_m r1) (loc_of_shr_record r1)) in *.
  pose proof (Zdigits2_succ (shr_m r1) m2 Hr1 Hrnd) as Hd2.
  destruct (shr_fexp_pos m2 e1 loc_Exact) as (r2 & e2 & -> & Hr2 & Hle2 & Hu2 & Hd3);
    [lia|lia|].
  destruct (shr_m r2) as [|p|p] eqn:Hp; try lia.
  replace (e2 <=? emax - prec) with true.
  - exists p, e2. split; [reflexivity|]. lia.
  - symmetry. apply Z.leb_le. change (emax - prec) with 971. lia.
Qed.

Lemma shr_fexp_nonneg m e l :
  0 <= m -> 0 <= shr_m (fst (shr_fexp prec emax m e l)).
Proof.
  intros Hm. unfold shr_fexp, shr.
  destruct (SpecFloat.fexp prec emax (Zdigits2 m + e) - e) as [|p|p]; simpl;
    try (rewrite shr_record_of_loc_m; assumption).
  rewrite iter_shr_1 by (rewrite shr_record_of_loc_m; assumption).
  rewrite shr_record_of_loc_m. apply Z.div_pos; lia.
Qed.

Lemma bra_not_nan sx mx ex lx :
  0 <= mx -> binary_round_aux prec emax sx mx ex lx <> S754_nan.
Proof.
  intros Hm. unfold binary_round_aux.
  pose proof (shr_fexp_nonneg mx ex lx Hm) as H1.
  destruct (shr_fexp prec emax mx ex lx) as [r1 e1]. simpl in H1.
  pose proof (round_nearest_even_bounds (shr_m r1) (loc_of_shr_record r1)) as Hrnd.
  set (m2 := round_nearest_even (shr_m r1) (loc_of_shr_record r1)) in *.
  assert (H2 : 0 <= m2) by lia.
  pose proof (shr_fexp_nonneg m2 e1 loc_Exact H2) as H3.
  destruct (shr_fexp prec emax m2 e1 loc_Exact) as [r2 e2]. simpl in H3.
  destruct (shr_m r2) as [|p|p]; try lia; try discriminate.
  destruct (e2 <=? emax - prec); discriminate.
Qed.

Lemma binary_round_not_nan sx mx ex :
  binary_round prec emax sx mx ex <> S754_nan.
Proof.
  unfold binary_round.
  destruct (shl_align mx ex _) as [mz ez]. apply bra_not_nan. lia.
Qed.

Lemma binary_normalize_not_nan m e sz :
  binary_normalize prec emax m e sz <> S754_nan.
Proof.
  destruct m; simpl; try discriminate; apply binary_round_not_nan.
Qed.

Lemma digits2_pos_iter_xO d : forall m,
  Zpos (digits2_pos (Pos.iter xO m d)) = Zpos (digits2_pos m) + Zpos d.
Proof.
  induction d using Pos.peano_ind; intros m.
  - simpl. lia.
  - rewrite Pos.iter_succ. simpl digits2_pos. rewrite Pos2Z.inj_succ, IHd. lia.
Qed.

(** The conversion of a positive integer below [2^63] is a positive
    finite number. *)
Lemma of_uint63_finite k :
  0 < k < 2 ^ 63 ->
  exists m e, Prim2SF (of_uint63 (Uint63.of_Z k)) = S754_finite false m e /\
    -52 <= e /\ Zdigits2 (Zpos m) + e <= 64.
Proof.
  intros Hk. rewrite of_uint63_spec.
  replace (Uint63.to_Z (Uint63.of_Z k)) with k.
  2:{ rewrite Uint63.of_Z_spec. symmetry. apply Z.mod_small.
      change Uint63.wB with (2 ^ 63). lia. }
  destruct k as [|p|p]; try lia. simpl binary_normalize.
  unfold binary_round, shl_align. rewrite fexp_eq.
  assert (Hd : 1 <= Zpos (digits2_pos p) <= 63).
  { change (Zpos (digits2_pos p)) with (Zdigits2 (Zpos p)).
    rewrite Zdigits2_log2 by lia.
    pose proof (Z.log2_nonneg (Zpos p)).
    assert (Z.log2 (Zpos p) < 63) by (apply Z.log2_lt_pow2; lia). lia. }
  destruct (Z.max (Z.pos (digits2_pos p) + 0 - 53) (-1074) - 0) as [|d|d] eqn:Hn.
  - destruct (bra_finite false (Zpos p) 0 loc_Exact) as (m & e & -> & H1 & H2);
      try lia.
    { change (Zdigits2 (Zpos p)) with (Zpos (digits2_pos p)). lia. }
    exists m, e. split; [reflexivity|].
    change (Zdigits2 (Zpos p)) with (Zpos (digits2_pos p)) in H2. lia.
  - destruct (bra_finite false (Zpos p) 0 loc_Exact) as (m & e & -> & H1 & H2);
      try lia.
    { change (Zdigits2 (Zpos p)) with (Zpos (digits2_pos p)). lia. }
    exists m, e. split; [reflexivity|].
    change (Zdigits2 (Zpos p)) with (Zpos (digits2_pos p)) in H2. lia.
  - pose proof (digits2_pos_iter_xO d p) as Hdig.
    destruct (bra_finite false (Zpos (Pos.iter xO p d))
                (Z.max (Z.pos (digits2_pos p) + 0 - 53) (-1074)) loc_Exact)
      as (m & e & -> & H1 & H2); try lia.
    { change (Zdigits2 (Zpos (Pos.iter xO p d)))
        with (Zpos (digits2_pos (Pos.iter xO p d))). lia. }
    exists m, e. split; [reflexivity|].
    change (Zdigits2 (Zpos (Pos.iter xO p d)))
        with (Zpos (digits2_pos (Pos.iter xO p d))) in H2. lia.
Qed.

Lemma half_sticky_range n :
  2 ^ 63 <= n < 2 ^ 64 ->
  0 < Z.lor (Z.shiftr n 1) (Z.land n 1) < 2 ^ 63.
Proof.
  intros Hn.
  assert (H1 : 2 ^ 62 <= Z.shiftr n 1 < 2 ^ 63).
  { rewrite Z.shiftr_div_pow2 by lia. change (2 ^ 1) with 2.
    split.
    - apply Z.div_le_lower_bound; lia.
    - apply Z.div_lt_upper_bound; lia. }
  assert (H2 : 0 <= Z.land n 1 <= 1).
  { assert (Hl : Z.land n 1 = n mod 2) by (apply (Z.land_ones n 1); lia).
    rewrite Hl. pose proof (Z.mod_pos_bound n 2). lia. }
  assert (Hlog : Z.log2 (Z.lor (Z.shiftr n 1) (Z.land n 1)) = 62).
  { rewrite Z.log2_lor by lia.
    assert (Z.log2 (Z.shiftr n 1) = 62).
    { apply Z.log2_unique; lia. }
    assert (Z.log2 (Z.land n 1) = 0).
    { destruct (Z.eq_dec (Z.land n 1) 0) as [->| ]; [reflexivity|].
      replace (Z.land n 1) with 1 by lia. reflexivity. }
    lia. }
  split.
  - apply Z.log2_lt_cancel. rewrite Hlog. reflexivity.
  - apply Z.log2_lt_pow2.
    + apply Z.log2_lt_cancel. rewrite Hlog. reflexivity.
    + lia.
Qed.

Lemma of_u64_zero : Prim2SF (Double.of_u64 0) = S754_zero false.
Proof. reflexivity. Qed.

Lemma of_u64_finite n :
  0 < n < 2 ^ 64 ->
  exists m e, Prim2SF (Double.of_u64 n) = S754_finite false m e.
Proof.
  intros Hn. unfold Double.of_u64.
  destruct (n <? 2 ^ 63) eqn:Hlt.
  - apply Z.ltb_lt in Hlt.
    destruct (of_uint63_finite n) as (m & e & H & _); [lia|]. eauto.
  - apply Z.ltb_ge in Hlt.
    destruct (of_uint63_finite (Z.lor (Z.shiftr n 1) (Z.land n 1)))
      as (m & e & H & He & Hd).
    { apply half_sticky_range. lia. }
    rewrite mul_spec, H.
    change (Prim2SF 2) with (S754_finite false 4503599627370496 (-51)).
    unfold SF64mul, SFmul. simpl xorb.
    assert (Hm : 1 <= Zdigits2 (Zpos m)).
    { rewrite Zdigits2_log2 by lia. pose proof (Z.log2_nonneg (Zpos m)). lia. }
    destruct (bra_finite false (Zpos (m * 4503599627370496)) (e + -51) loc_Exact)
      as (m' & e' & -> & _); try lia.
    + rewrite Pos2Z.inj_mul. change (Zpos 4503599627370496) with (2 ^ 52).
      rewrite Zdigits2_log2 by lia.
      rewrite Z.log2_mul_pow2 by lia.
      rewrite Zdigits2_log2 in Hd by lia. lia.
    + eauto.
Qed.

Lemma SFsub_not_nan sx mx ex y :
  y <> S754_nan -> SFsub prec emax (S754_finite sx mx ex) y <> S754_nan.
Proof.
  intros Hy. destruct y as [s|s| |s m e]; simpl; try discriminate; try congruence.
  apply binary_normalize_not_nan.
Qed.

Lemma SFmul_not_nan sx mx ex y :
  y <> S754_nan -> SFmul prec emax (S754_finite sx mx ex) y <> S754_nan.
Proof.
  intros Hy. destruct y as [s|s| |s m e]; simpl; try discriminate; try congruence.
  apply bra_not_nan. lia.
Qed.

Lemma SFdiv_core_nonneg mx ex my ey :
  0 <= fst (fst (SFdiv_core_binary prec emax (Zpos mx) ex (Zpos my) ey)).
Proof.
  unfold SFdiv_core_binary.
  set (s := _ - _ - Z.min _ _).
  set (m' := match s with Z0 => Zpos mx | Zpos _ => Z.shiftl (Zpos mx) s | Zneg _ => 0 end).
  assert (Hm' : 0 <= m').
  { subst m'. destruct s; try lia. apply Z.shiftl_nonneg. lia. }
  pose proof (Z_div_mod m' (Zpos my) eq_refl) as H.
  destruct (Z.div_eucl m' (Zpos my)) as [q r]. simpl.
  destruct H as [H1 H2]. nia.
Qed.

Lemma SFdiv_not_nan x sy my ey :
  (exists s, x = S754_zero s) \/ (exists s m e, x = S754_finite s m e) ->
  SFdiv prec emax x (S754_finite sy my ey) <> S754_nan.
Proof.
  intros [[s ->] | (s & m & e & ->)]; simpl; try discriminate.
  pose proof (SFdiv_core_nonneg m e my ey) as H.
  destruct (SFdiv_core_binary prec emax (Zpos m) e (Zpos my) ey) as [[mz ez] lz].
  simpl in H. apply bra_not_nan. assumption.
Qed.

Lemma usage_formula_not_nan a b :
  0 <= a < 2 ^ 64 -> 0 < b < 2 ^ 64 ->
  Prim2SF (usage_formula a b) <> S754_nan.
Proof.
  intros Ha Hb. unfold usage_formula.
  rewrite mul_spec, sub_spec, div_spec.
  change (Prim2SF 100) with (S754_finite false 7036874417766400 (-46)).
  change (Prim2SF 1) with (S754_finite false 4503599627370496 (-52)).
  destruct (of_u64_finite b Hb) as (mb & eb & ->).
  apply SFmul_not_nan, SFsub_not_nan, SFdiv_not_nan.
  destruct (Z.eq_dec a 0) as [->|Hne].
  - left. exists false. apply of_u64_zero.
  - right. destruct (of_u64_finite a) as (ma & ea & ->); [lia|]. eauto.
Qed.

Lemma SFcompare_antisym x y :
  SFcompare y x = option_map CompOpp (SFcompare x y).
Proof.
  destruct x as [s1|s1| |s1 m1 e1], y as [s2|s2| |s2 m2 e2]; simpl;
    try reflexivity;
    try (destruct s1; reflexivity); try (destruct s2; reflexivity);
    try (destruct s1, s2; reflexivity).
  rewrite (Z.compare_antisym e1 e2).
  replace (Pos.compare_cont Eq m2 m1) with (CompOpp (Pos.compare_cont Eq m1 m2))
    by apply (Pos.compare_cont_antisym m1 m2 Eq).
  destruct s1, s2; simpl; try reflexivity;
    destruct (e1 ?= e2); simpl; try reflexivity;
    destruct (Pos.compare_cont Eq m1 m2); reflexivity.
Qed.

Lemma SFcompare_refl x : x <> S754_nan -> SFcompare x x = Some Eq.
Proof.
  destruct x as [s|s| |s m e]; simpl; intros H; try congruence.
  - destruct s; reflexivity.
  - rewrite Z.compare_refl, Pos.compare_cont_refl. destruct s; reflexivity.
Qed.

Lemma SFcompare_total x y :
  x <> S754_nan -> y <> S754_nan -> exists c, SFcompare x y = Some c.
Proof.
  destruct x as [s1|s1| |s1 m1 e1], y as [s2|s2| |s2 m2 e2]; simpl;
    intros Hx Hy; try congruence; eauto.
Qed.

Lemma leb_refl x : Double.not_nan x -> (x <=? x)%float = true.
Proof.
  intros H. rewrite leb_spec. unfold SFleb. rewrite SFcompare_refl; auto.
Qed.

Lemma ltb_leb x y : (x <? y)%float = true -> (x <=? y)%float = true.
Proof.
  rewrite ltb_spec, leb_spec. unfold SFltb, SFleb.
  destruct (SFcompare _ _) as [[]|]; congruence.
Qed.

Lemma ltb_false_leb x y :
  Double.not_nan x -> Double.not_nan y ->
  (x <? y)%float = false -> (y <=? x)%float = true.
Proof.
  intros Hx Hy. rewrite ltb_spec, leb_spec. unfold SFltb, SFleb.
  rewrite (SFcompare_antisym (Prim2SF x) (Prim2SF y)).
  destruct (SFcompare_total _ _ Hx Hy) as [c ->]. destruct c; simpl; congruence.
Qed.

Create HintDb float_order.

#[export] Hint Resolve leb_refl ltb_leb ltb_false_leb : float_order.

Lemma leb_not_nan_r x y : (x <=? y)%float = true -> Double.not_nan y.
Proof.
  rewrite leb_spec. unfold SFleb, Double.not_nan. intros H Hn. rewrite Hn in H.
  destruct (Prim2SF x); discriminate.
Qed.

Lemma clamp_percent_range x :
  Double.not_nan x ->
  (0 <=? clamp_percent x)%float = true /\ (clamp_percent x <=? 100)%float = true.
Proof.
  intros Hx. unfold clamp_percent.
  destruct (x <? 0)%float eqn:H0.
  - split; reflexivity.
  - destruct (100 <? x)%float eqn:H100.
    + split; reflexivity.
    + split; apply ltb_false_leb; auto; discriminate.
Qed.

(** A mantissa of 53 bits with an exponent in range is left as it is. *)
Lemma bra_exact s m e :
  Zpos (digits2_pos m) = 53 -> -1074 <= e <= 971 ->
  binary_round_aux prec emax s (Zpos m) e loc_Exact = S754_finite s m e.
Proof.
  intros Hd He. unfold binary_round_aux.
  assert (Hshr : shr_fexp prec emax (Zpos m) e loc_Exact =
                 ({| shr_m := Zpos m; shr_r := false; shr_s := false |}, e)).
  { unfold shr_fexp, shr. rewrite fexp_eq. simpl Zdigits2. rewrite Hd.
    replace (Z.max (53 + e - 53) (-1074) - e) with 0 by lia. reflexivity. }
  rewrite Hshr. simpl shr_m. simpl loc_of_shr_record. simpl round_nearest_even.
  rewrite Hshr. simpl shr_m.
  replace (e <=? emax - prec) with true; [reflexivity|].
  symmetry. apply Z.leb_le. change (emax - prec) with 971. lia.
Qed.

Lemma Zpos_iter_xO d : forall m,
  Zpos (Pos.iter xO m d) = Zpos m * 2 ^ Zpos d.
Proof.
  induction d using Pos.peano_ind; intros m.
  - simpl. lia.
  - rewrite Pos.iter_succ, Pos2Z.inj_xO, IHd, Pos2Z.inj_succ, Z.pow_succ_r by lia.
    ring.
Qed.

(** An integer below [2^53] converts without rounding. *)
Lemma of_uint63_exact k :
  0 < k < 2 ^ 53 ->
  exists m e, Prim2SF (of_uint63 (Uint63.of_Z k)) = S754_finite false m e /\
    Zpos (digits2_pos m) = 53 /\ -52 <= e <= 0 /\ Z.shiftl (Zpos m) e = k.
Proof.
  intros Hk. rewrite of_uint63_spec.
  replace (Uint63.to_Z (Uint63.of_Z k)) with k.
  2:{ rewrite Uint63.of_Z_spec. symmetry. apply Z.mod_small.
      change Uint63.wB with (2 ^ 63). lia. }
  destruct k as [|p|p]; try lia. simpl binary_normalize.
  unfold binary_round, shl_align. rewrite fexp_eq.
  assert (Hd : 1 <= Zpos (digits2_pos p) <= 53).
  { change (Zpos (digits2_pos p)) with (Zdigits2 (Zpos p)).
    rewrite Zdigits2_log2 by lia.
    pose proof (Z.log2_nonneg (Zpos p)).
    assert (Z.log2 (Zpos p) < 53) by (apply Z.log2_lt_pow2; lia). lia. }
  destruct (Z.max (Z.pos (digits2_pos p) + 0 - 53) (-1074) - 0) as [|d|d] eqn:Hn.
  - exists p, 0. rewrite bra_exact by lia. repeat split; try lia; reflexivity.
  - lia.
  - pose proof (digits2_pos_iter_xO d p) as Hdig.
    exists (Pos.iter xO p d), (Z.max (Z.pos (digits2_pos p) + 0 - 53) (-1074)).
    rewrite bra_exact by lia. repeat split; try lia.
    rewrite Zpos_iter_xO.
    replace (Z.max (Z.pos (digits2_pos p) + 0 - 53) (-1074)) with (- Zpos d) by lia.
    rewrite Z.shiftl_div_pow2, Z.opp_involutive by lia.
    rewrite Z.div_mul; [reflexivity|]. apply Z.pow_nonzero; lia.
Qed.

(** Multiplying a normal number by [1.0] gives the number. *)
Lemma mul_one_exact s m e :
  Zpos (digits2_pos m) = 53 -> -1074 <= e <= 971 ->
  SF64mul (S754_finite false 4503599627370496 (-52)) (S754_finite s m e) =
  S754_finite s m e.
Proof.
  intros Hd He. unfold SF64mul, SFmul. simpl xorb.
  unfold binary_round_aux.
  assert (Hdig : Zdigits2 (Zpos (4503599627370496 * m)) = 105).
  { rewrite Pos2Z.inj_mul. change (Zpos 4503599627370496) with (2 ^ 52).
    rewrite Zdigits2_log2 by lia. rewrite Z.mul_comm, Z.log2_mul_pow2 by lia.
    change (Zpos (digits2_pos m)) with (Zdigits2 (Zpos m)) in Hd.
    rewrite Zdigits2_log2 in Hd by lia. lia. }
  assert (Hshr : shr_fexp prec emax (Zpos (4503599627370496 * m)) (-52 + e) loc_Exact =
                 ({| shr_m := Zpos m; shr_r := false; shr_s := false |}, e)).
  { unfold shr_fexp. rewrite Hdig, fexp_eq.
    replace (Z.max (105 + (-52 + e) - 53) (-1074) - (-52 + e)) with 52 by lia.
    unfold shr. replace (-52 + e + 52) with e by lia. reflexivity. }
  rewrite Hshr. simpl shr_m. simpl loc_of_shr_record. simpl round_nearest_even.
  assert (Hshr2 : shr_fexp prec emax (Zpos m) e loc_Exact =
                 ({| shr_m := Zpos m; shr_r := false; shr_s := false |}, e)).
  { unfold shr_fexp, shr. rewrite fexp_eq. simpl Zdigits2. rewrite Hd.
    replace (Z.max (53 + e - 53) (-1074) - e) with 0 by lia. reflexivity. }
  rewrite Hshr2. simpl shr_m.
  replace (e <=? emax - prec) with true; [reflexivity|].
  symmetry. apply Z.leb_le. change (emax - prec) with 971. lia.
Qed.

Lemma to_int_of_int_times_one W :
  0 <= W <= CInt.max ->
  Double.to_int (100 / 100 * Double.of_int W)%float = W.
Proof.
  intros HW. unfold Double.to_int, Double.truncate, Double.of_int.
  replace (W <? 0) with false by (symmetry; apply Z.ltb_ge; lia).
  rewrite mul_spec.
  change (Prim2SF (100 / 100)) with (S754_finite false 4503599627370496 (-52)).
  destruct (Z.eq_dec W 0) as [->|Hnz]; [reflexivity|].
  destruct (of_uint63_exact W) as (m & e & -> & Hd & He & Hval).
  { unfold CInt.max in HW. lia. }
  rewrite mul_one_exact by lia. simpl cond_Zopp. rewrite Hval.
  unfold CInt.min, CInt.max in *.
  replace (- 2 ^ 31 <=? W) with true by (symmetry; apply Z.leb_le; lia).
  replace (W <=? 2 ^ 31 - 1) with true by (symmetry; apply Z.leb_le; lia).
  reflexivity.
Qed.

Lemma to_int_zero_times W :
  0 <= W <= CInt.max ->
  Double.to_int (0 / 100 * Double.of_int W)%float = 0.
Proof.
  intros HW. unfold Double.to_int, Double.truncate, Double.of_int.
  replace (W <? 0) with false by (symmetry; apply Z.ltb_ge; lia).
  rewrite mul_spec.
  change (Prim2SF (0 / 100)) with (S754_zero false).
  destruct (Z.eq_dec W 0) as [->|Hnz]; [reflexivity|].
  destruct (of_uint63_exact W) as (m & e & -> & Hd & He & Hval).
  { unfold CInt.max in HW. lia. }
  reflexivity.
Qed.

(** ** The usage calculator *)

Lemma float_ltb_irrefl (x : float) : (x <? x)%float = false.
Proof.
  rewrite FloatAxioms.ltb_spec. unfold SFltb.
  destruct (Prim2SF x) as [s|s| |s m e]; simpl; try reflexivity.
  - destruct s; reflexivity.
  - rewrite Z.compare_refl, Pos.compare_cont_refl. destruct s; reflexivity.
Qed.

(** The clamp never yields a number below zero, whatever it is given. *)
Lemma clamp_percent_not_negative (x : float) :
  (clamp_percent x <? 0)%float = false.
Proof.
  unfold clamp_percent.
  destruct (x <? 0)%float eqn:H0; [reflexivity|].
  destruct (100 <? x)%float; [reflexivity | assumption].
Qed.

Lemma wrap64_small (z : Z) : U64.in_range z -> U64.wrap64 z = z.
Proof. intros H. apply Z.mod_small. exact H. Qed.

(** Past its guards the function is the clamped quotient formula on the
    differences modulo [2^64]. *)
Lemma calculate_cpu_usage_delta (prev_idle prev_total idle total : Z) :
  U64.in_range prev_total -> U64.in_range total ->
  prev_total <> 0 -> prev_total < total ->
  calculate_cpu_usage prev_idle prev_total idle total true =
  clamp_percent (usage_formula (U64.sub idle prev_idle) (total - prev_total)).
Proof.
  intros Hp Ht Hnz Hlt. unfold calculate_cpu_usage. simpl negb. cbv iota.
  replace (total <=? prev_total) with false by (symmetry; apply Z.leb_gt; lia).
  replace (prev_total =? 0) with false by (symmetry; apply Z.eqb_neq; lia).
  simpl orb. cbv iota.
  assert (Hd : U64.sub total prev_total = total - prev_total).
  { apply wrap64_small. unfold U64.in_range in *. lia. }
  rewrite Hd.
  replace (total - prev_total =? 0) with false by (symmetry; apply Z.eqb_neq; lia).
  reflexivity.
Qed.

(** Whatever the counters and the flag, the result is a number between
    [0.0] and [100.0]. *)
Lemma calculate_cpu_usage_range (prev_idle prev_total idle total : Z) (ok : bool) :
  (0 <=? calculate_cpu_usage prev_idle prev_total idle total ok)%float = true /\
  (calculate_cpu_usage prev_idle prev_total idle total ok <=? 100)%float = true.
Proof.
  unfold calculate_cpu_usage.
  destruct (negb ok); [split; reflexivity|].
  destruct ((total <=? prev_total) || (prev_total =? 0)); [split; reflexivity|].
  destruct (U64.sub total prev_total =? 0) eqn:Hz; [split; reflexivity|].
  apply clamp_percent_range, usage_formula_not_nan.
  - unfold U64.sub, U64.wrap64. apply Z.mod_pos_bound. reflexivity.
  - apply Z.eqb_neq in Hz.
    pose proof (Z.mod_pos_bound (total - prev_total) U64.modulus eq_refl) as H.
    unfold U64.sub, U64.wrap64 in *. change U64.modulus with (2 ^ 64) in *. lia.
Qed.

Lemma calculate_cpu_usage_not_nan (prev_idle prev_total idle total : Z) (ok : bool) :
  Double.not_nan (calculate_cpu_usage prev_idle prev_total idle total ok).
Proof.
  apply (leb_not_nan_r 0), calculate_cpu_usage_range.
Qed.

Lemma calculate_cpu_usage_not_negative
    (prev_idle prev_total idle total : Z) (ok : bool) :
  (calculate_cpu_usage prev_idle prev_total idle total ok <? 0)%float = false.
Proof.
  unfold calculate_cpu_usage.
  destruct (negb ok); [reflexivity|].
  destruct ((total <=? prev_total) || (prev_total =? 0)); [reflexivity|].
  destruct (U64.sub total prev_total =? 0); [reflexivity|].
  apply clamp_percent_not_negative.
Qed.

(** C1, as amended.  For samples with [ok] true, a previous total other
    than zero, a current total above the previous one and an idle count
    that did not go down, [calculate_cpu_usage] returns
    [100 * (1 - idle_diff / total_diff)] clamped, a number between [0.0]
    and [100.0]; for the counters (100, 200) and (150, 400) it returns
    exactly [75.0]. *)
Theorem computeUsage_delta :
  (forall prev curr : CounterSample,
     sample_in_range prev -> sample_in_range curr ->
     total_ticks prev <> 0 ->
     total_ticks prev < total_ticks curr ->
     idle_ticks prev <= idle_ticks curr ->
     computeUsage prev curr true =
       clamp_percent (usage_formula (idle_ticks curr - idle_ticks prev)
                                    (total_ticks curr - total_ticks prev)) /\
     (0 <=? computeUsage prev curr true)%float = true /\
     (computeUsage prev curr true <=? 100)%float = true) /\
  computeUsage (mkSample 100 200) (mkSample 150 400) true = 75%float.
Proof.
  split; [|reflexivity].
  intros prev curr [Hpi Hpt] [Hci Hct] Hnz Hlt Hidle.
  unfold computeUsage. split; [|apply calculate_cpu_usage_range].
  rewrite calculate_cpu_usage_delta by assumption.
  do 2 f_equal. apply wrap64_small. unfold U64.in_range in *. lia.
Qed.

Lemma computeUsage_delta_witness :
  computeUsage (mkSample 100 200) (mkSample 160 500) true =
    clamp_percent (usage_formula (160 - 100) (500 - 200)) /\
  (0 <=? computeUsage (mkSample 100 200) (mkSample 160 500) true)%float = true /\
  (computeUsage (mkSample 100 200) (mkSample 160 500) true <=? 100)%float = true.
Proof.
  apply (proj1 computeUsage_delta (mkSample 100 200) (mkSample 160 500)).
  - split; simpl; unfold U64.in_range; split; vm_compute; congruence.
  - split; simpl; unfold U64.in_range; split; vm_compute; congruence.
  - simpl. lia.
  - simpl. lia.
  - simpl. lia.
Defined.

(** C1, as stated, fails on the first valid sample: with the previous
    sample at zero the formula gives [75.0] and the function returns
    [0.0]. *)
Lemma computeUsage_zero_prev_counterexample :
  total_ticks zero_sample < total_ticks (mkSample 50 200) /\
  computeUsage zero_sample (mkSample 50 200) true = 0%float /\
  clamp_percent (usage_formula (50 - 0) (200 - 0)) = 75%float /\
  computeUsage zero_sample (mkSample 50 200) true <>
    clamp_percent (usage_formula (50 - 0) (200 - 0)).
Proof.
  split; [simpl; lia|]. split; [reflexivity|]. split; [reflexivity|].
  intros H. apply (f_equal (fun x => (x <? 1)%float)) in H.
  vm_compute in H. discriminate.
Qed.

(** When the idle counter goes down between two samples, the unsigned
    subtraction of line 166 wraps around and the usage is [0.0]; with the
    difference taken as the negative number it is, the formula would give
    [100.0]. *)
Lemma computeUsage_idle_decrease :
  computeUsage (mkSample 150 200) (mkSample 100 400) true = 0%float /\
  U64.sub 100 150 = 2 ^ 64 - 50 /\
  clamp_percent
    (100 * (1 - Double.of_int (100 - 150) / Double.of_u64 (400 - 200)))%float =
  100%float.
Proof. repeat split. Qed.

(** C2. [calculate_cpu_usage] returns [0.0] in every degenerate case: when
    [ok] is false, when the current total does not exceed the previous one,
    and on the first tick, where the previous sample is the zero sample. *)
Theorem computeUsage_degenerate (prev curr : CounterSample) (ok : bool) :
  ok = false \/ total_ticks curr <= total_ticks prev \/ prev = zero_sample ->
  computeUsage prev curr ok = 0%float.
Proof.
  unfold computeUsage, calculate_cpu_usage.
  intros [-> | [Hle | ->]].
  - reflexivity.
  - destruct ok; simpl; [|reflexivity].
    apply Z.leb_le in Hle. rewrite Hle. reflexivity.
  - destruct ok; simpl; [|reflexivity].
    rewrite orb_true_r. reflexivity.
Qed.

Lemma computeUsage_degenerate_witness :
  computeUsage (mkSample 7 300) (mkSample 9 300) true = 0%float.
Proof.
  apply computeUsage_degenerate. right. left. simpl. lia.
Defined.

(** ** The sampler calls return *)

(* The sums are compared as they stand. *)
#[local] Opaque U64.add.

(** The two ways [get_cpu_times] ends: with a sample and [ok] at 1, or
    with both pointers untouched, [ok] at 0 and one warning logged. *)
Lemma get_cpu_times_cases (stat : option (list ascii)) (idle0 total0 : Z) :
  (exists s,
      get_cpu_times stat idle0 total0 =
        Stdio.Returned (idle_ticks s, total_ticks s, true, []) /\
      valid_sample stat = Some s) \/
  (exists w,
      get_cpu_times stat idle0 total0 =
        Stdio.Returned (idle0, total0, false, [EvLog w]) /\
      valid_sample stat = None /\
      is_alert_event (EvLog w) = false).
Proof.
  unfold valid_sample, get_cpu_times.
  destruct stat as [fp|]; [|right; eexists; repeat split].
  destruct (Stdio.fgets 512 fp) as [[line rest]|]; [|right; eexists; repeat split].
  destruct (Stdio.sscanf_cpu line) as [cnt vs].
  destruct (cnt <? 4).
  - right; eexists; repeat split.
  - left. eexists (mkSample _ _). split; reflexivity.
Qed.

#[local] Transparent U64.add.

Lemma get_system_info_events loadavg up info :
  List.filter is_alert_event (get_system_info loadavg up info).2 = [].
Proof.
  unfold get_system_info.
  destruct loadavg as [vals|], up as [[u|]|]; simpl;
    try destruct (length vals <? 1)%nat; reflexivity.
Qed.

(** ** One iteration of the loop *)

(** Every iteration completes, and its effect on the variables and on the
    outside is the following. *)
Lemma tick_step (env : Session) (st : Monitor) (inp : TickInput) :
  exists st' evs,
    tick env st inp = Stdio.Returned (st', evs, is_quit_key (in_key inp)) /\
    cpu_usage st' =
      calculate_cpu_usage (prev_idle st) (prev_total st)
                          (idle st') (total st') (ok_times st') /\
    extremes st' = update (extremes st) (cpu_usage st') /\
    udp_sock st' = udp_sock st /\
    (ok_times st' = true ->
       prev_idle st' = idle st' /\ prev_total st' = total st' /\
       valid_sample (in_stat inp) = Some (mkSample (idle st') (total st'))) /\
    (ok_times st' = false ->
       prev_idle st' = prev_idle st /\ prev_total st' = prev_total st /\
       idle st' = idle st /\ total st' = total st /\
       valid_sample (in_stat inp) = None) /\
    List.filter is_alert_event evs =
      (if shouldAlert (cpu_usage st') ALERT_THRESHOLD then
         EvLog (LogAlert (alert_of inp st')) ::
         send_udp_alert (udp_sock st) (in_sent inp) (alert_of inp st')
       else []).
Proof.
  unfold tick.
  pose proof (get_system_info_events (in_loadavg inp) (in_uptime inp) (sys st)) as Hsys.
  destruct (get_system_info (in_loadavg inp) (in_uptime inp) (sys st))
    as [[sys' ok_sys'] evs_sys]. simpl in Hsys.
  destruct (get_cpu_times_cases (in_stat inp) (idle st) (total st))
    as [(s & -> & Hv) | (w & -> & Hv & Hw)]; simpl.
  - destruct s as [i t]. simpl in *.
    destruct (shouldAlert _ ALERT_THRESHOLD) eqn:Ha;
      eexists _, _; (split; [reflexivity|]); simpl;
      repeat split; try congruence; try discriminate.
    + rewrite Ha, !List.filter_app, Hsys. simpl.
      rewrite List.filter_app. simpl.
      unfold send_udp_alert. destruct SEND_ALERTS; [|reflexivity].
      destruct (udp_sock st <? 0); [reflexivity|]. simpl.
      destruct (in_sent inp <? 0); reflexivity.
    + rewrite Ha, !List.filter_app, Hsys. reflexivity.
  - eexists _, _; (split; [reflexivity|]); simpl;
      repeat split; try congruence; try discriminate.
    destruct w; try discriminate Hw; rewrite List.filter_app, Hsys; reflexivity.
Qed.

(** The state after the first iteration is a state of the loop. *)
Ltac first_tick_reachable :=
  apply (reachable_tick example_session 3 [] (initial_monitor 3) first_input
           after_first_tick first_tick_events);
  [apply reachable_start | reflexivity | vm_compute; reflexivity].

(** ** The stats tracker *)

(** For numbers, the update yields the larger of the old maximum and the
    usage, and the smaller of the old minimum and the usage. *)
Lemma update_bounds (e : RunningExtremes) (usage : float) :
  Double.not_nan (ext_max e) -> Double.not_nan (ext_min e) ->
  Double.not_nan usage ->
  ((ext_min (update e usage) <=? usage)%float = true /\
   (usage <=? ext_max (update e usage))%float = true) /\
  ((ext_max e <=? ext_max (update e usage))%float = true /\
   (ext_min (update e usage) <=? ext_min e)%float = true) /\
  (Double.not_nan (ext_max (update e usage)) /\
   Double.not_nan (ext_min (update e usage))).
Proof.
  intros Hmax Hmin Hu. unfold update. simpl.
  destruct (ext_max e <? usage)%float eqn:H1;
    destruct (usage <? ext_min e)%float eqn:H2;
    repeat split; auto with float_order.
Qed.

(** C6. The update of the extremes is idempotent: applying it twice with
    the same usage gives what applying it once gives, for every pair of
    extremes and every usage.  For numbers, the new maximum is the larger
    of the old maximum and the usage, the new minimum the smaller of the
    old minimum and the usage. *)
Theorem update_idempotent (e : RunningExtremes) (usage : float) :
  update (update e usage) usage = update e usage /\
  (Double.not_nan (ext_max e) -> Double.not_nan (ext_min e) ->
   Double.not_nan usage ->
   ((ext_max e <=? ext_max (update e usage))%float = true /\
    (usage <=? ext_max (update e usage))%float = true /\
    (ext_max (update e usage) = ext_max e \/
     ext_max (update e usage) = usage)) /\
   ((ext_min (update e usage) <=? ext_min e)%float = true /\
    (ext_min (update e usage) <=? usage)%float = true /\
    (ext_min (update e usage) = ext_min e \/
     ext_min (update e usage) = usage))).
Proof.
  split.
  - unfold update. simpl.
    destruct (ext_max e <? usage)%float eqn:Hmax;
      destruct (usage <? ext_min e)%float eqn:Hmin;
      rewrite ?float_ltb_irrefl, ?Hmax, ?Hmin; reflexivity.
  - intros Hmax Hmin Hu.
    destruct (update_bounds e usage Hmax Hmin Hu) as ([H1 H2] & [H3 H4] & _).
    repeat split; try assumption; unfold update; simpl.
    + destruct (ext_max e <? usage)%float; auto.
    + destruct (usage <? ext_min e)%float; auto.
Qed.

Lemma update_idempotent_witness :
  update (update (mkExtremes 90%float 10%float) 40%float) 40%float =
    update (mkExtremes 90%float 10%float) 40%float /\
  ((ext_max (mkExtremes 90%float 10%float) <=?
    ext_max (update (mkExtremes 90%float 10%float) 40%float))%float = true /\
   (40 <=? ext_max (update (mkExtremes 90%float 10%float) 40%float))%float
     = true /\
   (ext_max (update (mkExtremes 90%float 10%float) 40%float) =
      ext_max (mkExtremes 90%float 10%float) \/
    ext_max (update (mkExtremes 90%float 10%float) 40%float) = 40%float)) /\
  ((ext_min (update (mkExtremes 90%float 10%float) 40%float) <=?
    ext_min (mkExtremes 90%float 10%float))%float = true /\
   (ext_min (update (mkExtremes 90%float 10%float) 40%float) <=? 40)%float
     = true /\
   (ext_min (update (mkExtremes 90%float 10%float) 40%float) =
      ext_min (mkExtremes 90%float 10%float) \/
    ext_min (update (mkExtremes 90%float 10%float) 40%float) = 40%float)).
Proof.
  destruct (update_idempotent (mkExtremes 90%float 10%float) 40%float)
    as [Hidem Hbounds].
  split; [exact Hidem|].
  apply Hbounds; vm_compute; discriminate.
Defined.

Section Invariants.

Context (env : Session) (sock : Z).

(** In every state of the loop both extremes are numbers. *)
Lemma reachable_extremes_not_nan hist st :
  reachable env sock hist st ->
  Double.not_nan (max_usage st) /\ Double.not_nan (min_usage st).
Proof.
  induction 1 as [|hist st inp st' evs Hreach [IHmax IHmin] Hrun Htick].
  - split; discriminate.
  - destruct (tick_step env st inp) as (st1 & evs1 & Ht & Hu & He & _).
    rewrite Htick in Ht. injection Ht as <- <- _.
    unfold max_usage, min_usage. rewrite He.
    apply update_bounds; auto.
    rewrite Hu. apply calculate_cpu_usage_not_nan.
Qed.

(** C5. From the extremes [{0.0, 100.0}] of the start, every iteration
    leaves the usage between the minimum and the maximum, the maximum at
    least what it was and the minimum at most what it was. *)
Theorem extremes_invariant hist st inp :
  reachable env sock hist st ->
  extremes (initial_monitor sock) = mkExtremes 0%float 100%float /\
  exists st' evs quit,
    tick env st inp = Stdio.Returned (st', evs, quit) /\
    (min_usage st' <=? cpu_usage st')%float = true /\
    (cpu_usage st' <=? max_usage st')%float = true /\
    (max_usage st <=? max_usage st')%float = true /\
    (min_usage st' <=? min_usage st)%float = true.
Proof.
  intros Hreach. split; [reflexivity|].
  destruct (reachable_extremes_not_nan _ _ Hreach) as [Hmax Hmin].
  destruct (tick_step env st inp) as (st' & evs & Ht & Hu & He & _).
  exists st', evs, (is_quit_key (in_key inp)). split; [exact Ht|].
  assert (Hn : Double.not_nan (cpu_usage st'))
    by (rewrite Hu; apply calculate_cpu_usage_not_nan).
  destruct (update_bounds (extremes st) (cpu_usage st') Hmax Hmin Hn)
    as ([H1 H2] & [H3 H4] & _).
  unfold max_usage, min_usage. rewrite He. auto.
Qed.

(** After the first iteration the minimum is [0.0]. *)
Lemma reachable_min_zero hist st :
  reachable env sock hist st ->
  (hist = [] /\ st = initial_monitor sock) \/ min_usage st = 0%float.
Proof.
  induction 1 as [|hist st inp st' evs Hreach IH Hrun Htick].
  - left. split; reflexivity.
  - right.
    destruct (tick_step env st inp) as (st1 & evs1 & Ht & Hu & He & _).
    rewrite Htick in Ht. injection Ht as <- <- _.
    unfold min_usage in *. rewrite He. unfold update. simpl.
    destruct IH as [[_ ->] | IH].
    + rewrite Hu. simpl prev_total.
      replace (calculate_cpu_usage _ 0 _ _ _) with 0%float; [reflexivity|].
      unfold calculate_cpu_usage. destruct (negb _); [reflexivity|].
      rewrite orb_true_r. reflexivity.
    + rewrite IH. rewrite Hu at 1.
      rewrite calculate_cpu_usage_not_negative. reflexivity.
Qed.

(** Every iteration leaves the minimum at [0.0], and the first one
    computes the usage [0.0]. *)
Lemma tick_min_zero hist st inp st' evs quit :
  reachable env sock hist st ->
  tick env st inp = Stdio.Returned (st', evs, quit) ->
  (hist = [] -> cpu_usage st' = 0%float) /\ min_usage st' = 0%float.
Proof.
  intros Hreach Htick.
  destruct (tick_step env st inp) as (st1 & evs1 & Ht & Hu & He & _).
  rewrite Htick in Ht. injection Ht as <- <- _.
  assert (Hfirst : st = initial_monitor sock -> cpu_usage st' = 0%float).
  { intros ->. rewrite Hu. simpl prev_total.
    unfold calculate_cpu_usage. destruct (negb _); [reflexivity|].
    rewrite orb_true_r. reflexivity. }
  split.
  - intros ->. apply Hfirst.
    inversion Hreach as [|h s i s' e Hr Hk Hti Heq]; [reflexivity|].
    destruct h; discriminate.
  - unfold min_usage in *. rewrite He. unfold update. simpl.
    destruct (reachable_min_zero _ _ Hreach) as [[_ Hst] | Hmin].
    + rewrite (Hfirst Hst). subst st. reflexivity.
    + unfold min_usage in Hmin. rewrite Hmin. rewrite Hu at 1.
      rewrite calculate_cpu_usage_not_negative. reflexivity.
Qed.

(** C10. The usage of the first iteration is [0.0], and after every
    iteration of a session, the first included, the minimum is [0.0]. *)
Theorem minimum_is_zero hist st inp :
  reachable env sock hist st ->
  exists st' evs quit,
    tick env st inp = Stdio.Returned (st', evs, quit) /\
    (hist = [] -> cpu_usage st' = 0%float) /\
    min_usage st' = 0%float.
Proof.
  intros Hreach.
  destruct (tick_step env st inp) as (st' & evs & Ht & _).
  exists st', evs, (is_quit_key (in_key inp)). split; [exact Ht|].
  eapply tick_min_zero; eauto.
Qed.

(** ** The previous sample *)

Lemma last_valid_snoc (hist : list TickInput) (inp : TickInput) :
  last_valid (hist ++ [inp]) =
  default (last_valid hist) (valid_sample (in_stat inp)).
Proof. unfold last_valid. rewrite foldl_app. reflexivity. Qed.

(** In every state of the loop the previous sample is the last sample
    read successfully. *)
Lemma reachable_prev_sample hist st :
  reachable env sock hist st ->
  mkSample (prev_idle st) (prev_total st) = last_valid hist.
Proof.
  induction 1 as [|hist st inp st' evs Hreach IH Hrun Htick].
  - reflexivity.
  - destruct (tick_step env st inp)
      as (st1 & evs1 & Ht & _ & _ & _ & Hok & Hfail & _).
    rewrite Htick in Ht. injection Ht as <- <- _.
    rewrite last_valid_snoc.
    destruct (ok_times st') eqn:Hflag.
    + destruct (Hok eq_refl) as (-> & -> & ->). reflexivity.
    + destruct (Hfail eq_refl) as (-> & -> & _ & _ & ->). simpl. exact IH.
Qed.

(** C9. An iteration overwrites the previous sample with the current one
    when the current one was read successfully, and leaves it unchanged
    otherwise; so the previous sample is always the last sample read
    successfully, against which the next usage is computed. *)
Theorem prev_sample_frame hist st inp :
  reachable env sock hist st ->
  exists st' evs quit,
    tick env st inp = Stdio.Returned (st', evs, quit) /\
    (ok_times st' = true ->
       prev_idle st' = idle st' /\ prev_total st' = total st') /\
    (ok_times st' = false ->
       prev_idle st' = prev_idle st /\ prev_total st' = prev_total st) /\
    (ok_times st' = true <-> is_Some (valid_sample (in_stat inp))) /\
    mkSample (prev_idle st') (prev_total st') = last_valid (hist ++ [inp]) /\
    cpu_usage st' =
      computeUsage (last_valid hist) (mkSample (idle st') (total st'))
                   (ok_times st').
Proof.
  intros Hreach.
  pose proof (reachable_prev_sample _ _ Hreach) as Hprev.
  destruct (tick_step env st inp)
    as (st' & evs & Ht & Hu & _ & _ & Hok & Hfail & _).
  exists st', evs, (is_quit_key (in_key inp)). split; [exact Ht|].
  rewrite last_valid_snoc, <- Hprev.
  destruct (ok_times st') eqn:Hflag.
  - destruct (Hok eq_refl) as (H1 & H2 & H3). rewrite H3.
    repeat split; try discriminate; try assumption; eauto.
    simpl. congruence.
  - destruct (Hfail eq_refl) as (H1 & H2 & _ & _ & H3). rewrite H3.
    repeat split; try discriminate; try assumption.
    + intros [s Hs]. discriminate.
    + simpl. congruence.
Qed.

End Invariants.

Lemma extremes_invariant_witness :
  extremes (initial_monitor 3) = mkExtremes 0%float 100%float /\
  exists st' evs quit,
    tick example_session after_first_tick second_input =
      Stdio.Returned (st', evs, quit) /\
    (min_usage st' <=? cpu_usage st')%float = true /\
    (cpu_usage st' <=? max_usage st')%float = true /\
    (max_usage after_first_tick <=? max_usage st')%float = true /\
    (min_usage st' <=? min_usage after_first_tick)%float = true.
Proof.
  apply (extremes_invariant example_session 3 [first_input]).
  first_tick_reachable.
Defined.

Lemma minimum_is_zero_witness :
  exists st' evs quit,
    tick example_session after_first_tick second_input =
      Stdio.Returned (st', evs, quit) /\
    ([first_input] = [] -> cpu_usage st' = 0%float) /\
    min_usage st' = 0%float.
Proof.
  apply (minimum_is_zero example_session 3 [first_input]).
  first_tick_reachable.
Defined.

Lemma prev_sample_frame_witness :
  exists st' evs quit,
    tick example_session after_first_tick second_input =
      Stdio.Returned (st', evs, quit) /\
    (ok_times st' = true ->
       prev_idle st' = idle st' /\ prev_total st' = total st') /\
    (ok_times st' = false ->
       prev_idle st' = prev_idle after_first_tick /\
       prev_total st' = prev_total after_first_tick) /\
    (ok_times st' = true <-> is_Some (valid_sample (in_stat second_input))) /\
    mkSample (prev_idle st') (prev_total st') =
      last_valid ([first_input] ++ [second_input]) /\
    cpu_usage st' =
      computeUsage (last_valid [first_input]) (mkSample (idle st') (total st'))
                   (ok_times st').
Proof.
  apply (prev_sample_frame example_session 3 [first_input]).
  first_tick_reachable.
Defined.

(** ** The alert policy *)

Lemma shouldAlert_ge (usage threshold : float) :
  shouldAlert usage threshold = true <->
  (threshold <? usage)%float = true \/ (threshold =? usage)%float = true.
Proof.
  unfold shouldAlert.
  rewrite FloatAxioms.leb_spec, FloatAxioms.ltb_spec, FloatAxioms.eqb_spec.
  unfold SFleb, SFltb, SFeqb.
  destruct (SFcompare (Prim2SF threshold) (Prim2SF usage)) as [[]|];
    intuition discriminate.
Qed.

Set Warnings "-inexact-float".

(** C4. The alert decision of an iteration is the comparison of its
    usage with the threshold [80.0], whatever the earlier iterations did:
    when the usage is at least the threshold the alert is logged and, with
    a socket, sent; otherwise the iteration produces no alert event.
    A usage of [79.99] gives no alert, a usage of [80.0] gives one. *)
Theorem alert_policy env st inp :
  ALERT_THRESHOLD = 80%float /\
  (forall usage threshold,
     shouldAlert usage threshold = true <->
     (threshold <? usage)%float = true \/ (threshold =? usage)%float = true) /\
  shouldAlert 79.99%float ALERT_THRESHOLD = false /\
  shouldAlert 80%float ALERT_THRESHOLD = true /\
  exists st' evs quit,
    tick env st inp = Stdio.Returned (st', evs, quit) /\
    List.filter is_alert_event evs =
      (if shouldAlert (cpu_usage st') ALERT_THRESHOLD then
         EvLog (LogAlert (alert_of inp st')) ::
         send_udp_alert (udp_sock st) (in_sent inp) (alert_of inp st')
       else []) /\
    (shouldAlert (cpu_usage st') ALERT_THRESHOLD = true ->
       In (EvLog (LogAlert (alert_of inp st'))) evs /\
       (SEND_ALERTS = true -> 0 <= udp_sock st ->
        In (EvSendto (alert_of inp st')) evs)) /\
    (shouldAlert (cpu_usage st') ALERT_THRESHOLD = false ->
       forall ev, In ev evs -> is_alert_event ev = false).
Proof.
  split; [reflexivity|]. split; [exact shouldAlert_ge|].
  split; [reflexivity|]. split; [reflexivity|].
  destruct (tick_step env st inp)
    as (st' & evs & Ht & _ & _ & _ & _ & _ & Hf).
  exists st', evs, (is_quit_key (in_key inp)).
  split; [exact Ht|]. split; [exact Hf|]. split.
  - intros Ha. rewrite Ha in Hf. split.
    + apply (List.filter_In is_alert_event). rewrite Hf. left. reflexivity.
    + intros _ Hsock. apply (List.filter_In is_alert_event). rewrite Hf.
      right. unfold send_udp_alert. simpl.
      replace (udp_sock st <? 0) with false by (symmetry; apply Z.ltb_ge; lia).
      left. reflexivity.
  - intros Ha ev Hin. rewrite Ha in Hf.
    destruct (is_alert_event ev) eqn:Hev; [|reflexivity].
    assert (Hin' : In ev (List.filter is_alert_event evs))
      by (apply List.filter_In; auto).
    rewrite Hf in Hin'. destruct Hin'.
Qed.

Set Warnings "+inexact-float".

(** ** Reading the counter line *)

Lemma scan_digits_nonneg (s : list ascii) : forall acc,
  0 <= acc -> 0 <= (Stdio.scan_digits s acc).1.
Proof.
  induction s as [|c s IH]; intros acc Hacc; simpl; [assumption|].
  destruct (Stdio.isdigit c) eqn:Hd; [|assumption].
  apply IH. unfold Stdio.isdigit in Hd. apply andb_prop in Hd as [H1 _].
  apply Nat.leb_le in H1. unfold Stdio.digit_value. lia.
Qed.

(** A converted value fits in an [unsigned long long]. *)
Lemma scan_llu_range (s : list ascii) v rest :
  Stdio.scan_llu s = Stdio.ConvOk v rest -> U64.in_range v.
Proof.
  unfold Stdio.scan_llu.
  destruct (Stdio.skip_space s) as [|c s']; [discriminate|].
  set (signed := Ascii.eqb c "-" || Ascii.eqb c "+").
  set (digits := if signed then s' else c :: s').
  destruct digits as [|d ds] eqn:Hdigits; [discriminate|].
  destruct (Stdio.isdigit d); [|discriminate].
  pose proof (scan_digits_nonneg (d :: ds) 0 (Z.le_refl 0)) as Hv.
  destruct (Stdio.scan_digits (d :: ds) 0) as [v0 rest0]. simpl in Hv.
  intros H. injection H as <- _.
  unfold U64.in_range, U64.max.
  destruct (v0 >? U64.modulus - 1) eqn:Hbig.
  - change U64.modulus with (2 ^ 64). lia.
  - destruct (Ascii.eqb c "-").
    + apply Z.mod_pos_bound. reflexivity.
    + rewrite Z.gtb_ltb in Hbig. apply Z.ltb_ge in Hbig. lia.
Qed.

Lemma scan_fields_range (n : nat) : forall s vs stop,
  Stdio.scan_fields n s = (vs, stop) ->
  (length vs <= n)%nat /\ Forall U64.in_range vs.
Proof.
  induction n as [|n IH]; intros s vs stop; simpl.
  - intros H. injection H as <- _. split; [simpl; lia | constructor].
  - destruct (Stdio.scan_llu (Stdio.skip_space s)) as [v rest| |] eqn:Hconv;
      try (intros H; injection H as <- _; split; [simpl; lia | constructor]).
    destruct (Stdio.scan_fields n rest) as [vs' stop'] eqn:Hrest.
    intros H. injection H as <- _.
    destruct (IH _ _ _ Hrest) as [Hlen Hall].
    split; [simpl; lia|]. constructor; [|assumption].
    eapply scan_llu_range, Hconv.
Qed.

(** What [sscanf] returns: the number of values converted, at most
    eight, or [EOF] with none converted. *)
Lemma sscanf_cpu_result (line : list ascii) cnt vs :
  Stdio.sscanf_cpu line = (cnt, vs) ->
  (cnt = Stdio.EOF /\ vs = [] \/ cnt = Z.of_nat (length vs)) /\
  (length vs <= 8)%nat /\ Forall U64.in_range vs.
Proof.
  unfold Stdio.sscanf_cpu.
  destruct (Stdio.match_literal _ _) as [rest| |].
  - destruct (Stdio.scan_fields 8 rest) as [vs' stop] eqn:Hscan.
    destruct (scan_fields_range _ _ _ _ Hscan) as [Hlen Hall].
    destruct vs' as [|v vs']; [destruct stop|];
      intros H; injection H as <- <-; auto.
  - intros H; injection H as <- <-. split; [auto|]. split; [simpl; lia | constructor].
  - intros H; injection H as <- <-. split; [auto|]. split; [simpl; lia | constructor].
Qed.

Lemma field_range (vs : list Z) (i : nat) :
  Forall U64.in_range vs -> U64.in_range (field vs i).
Proof.
  intros Hall. unfold field. revert i.
  induction Hall as [|v vs Hv Hall IH]; intros [|i]; simpl; auto;
    unfold U64.in_range; change U64.modulus with (2 ^ 64); lia.
Qed.

(** The chain of additions of line 152 is the sum modulo [2^64]. *)
Lemma u64_sum8 (a b c d e f g h : Z) :
  U64.add (U64.add (U64.add (U64.add (U64.add (U64.add (U64.add a b) c) d) e)
                            f) g) h =
  U64.wrap64 (a + b + c + d + e + f + g + h).
Proof.
  unfold U64.add, U64.wrap64.
  repeat (rewrite Zplus_mod_idemp_l, <- ?Z.add_assoc).
  reflexivity.
Qed.

(** C3. [get_cpu_times] always returns.  It leaves [ok] at 0 exactly
    when [/proc/stat] cannot be opened, cannot be read, or its first line
    yields fewer than four converted fields, and then it leaves the two
    counters untouched.  Otherwise between four and eight fields were
    converted, a field that was not converted counts as 0, the idle count
    is [idle + iowait] and the total is the sum of the eight fields, both
    as [unsigned long long]. *)
Theorem get_cpu_times_spec (stat : option (list ascii)) (idle0 total0 : Z) :
  exists idle' total' ok evs,
    get_cpu_times stat idle0 total0 =
      Stdio.Returned (idle', total', ok, evs) /\
    (ok = false <->
       stat = None \/
       (exists fp, stat = Some fp /\ Stdio.fgets 512 fp = None) \/
       (exists line, counter_line stat = Some line /\
                     (Stdio.sscanf_cpu line).1 < 4)) /\
    (ok = false -> idle' = idle0 /\ total' = total0) /\
    (ok = true ->
     exists line,
       counter_line stat = Some line /\
       let vs := (Stdio.sscanf_cpu line).2 in
       (4 <= length vs <= 8)%nat /\
       Forall U64.in_range vs /\
       idle' = U64.wrap64 (field vs 3 + field vs 4) /\
       total' = U64.wrap64 (field vs 0 + field vs 1 + field vs 2 + field vs 3 +
                            field vs 4 + field vs 5 + field vs 6 + field vs 7) /\
       (field vs 3 + field vs 4 < U64.modulus ->
        idle' = field vs 3 + field vs 4) /\
       (field vs 0 + field vs 1 + field vs 2 + field vs 3 +
        field vs 4 + field vs 5 + field vs 6 + field vs 7 < U64.modulus ->
        total' = field vs 0 + field vs 1 + field vs 2 + field vs 3 +
                 field vs 4 + field vs 5 + field vs 6 + field vs 7)).
Proof.
  unfold get_cpu_times, counter_line.
  destruct stat as [fp|].
  2:{ eexists _, _, _, _. split; [reflexivity|].
      repeat split; auto; discriminate. }
  destruct (Stdio.fgets 512 fp) as [[line rest]|] eqn:Hgets.
  2:{ eexists _, _, _, _. split; [reflexivity|].
      repeat split; eauto; discriminate. }
  destruct (Stdio.sscanf_cpu line) as [cnt vs] eqn:Hscan.
  destruct (sscanf_cpu_result _ _ _ Hscan) as (Hcnt & Hlen & Hall).
  destruct (cnt <? 4) eqn:Hlt.
  - apply Z.ltb_lt in Hlt. eexists _, _, _, _. split; [reflexivity|].
    repeat split; auto; try discriminate.
    intros _. right. right. exists line. rewrite Hscan. auto.
  - apply Z.ltb_ge in Hlt. eexists _, _, _, _. split; [reflexivity|].
    split; [|split; [discriminate|]].
    + split; [discriminate|].
      intros [H | [(fp' & H & Hnone) | (line' & H & Hfew)]]; try discriminate.
      * injection H as <-. rewrite Hgets in Hnone. discriminate.
      * injection H as <-. rewrite Hscan in Hfew. simpl in Hfew. lia.
    + intros _. exists line. split; [reflexivity|]. rewrite Hscan. simpl.
      assert (Hn : cnt = Z.of_nat (length vs)).
      { destruct Hcnt as [[-> _] | ->]; [|reflexivity].
        unfold Stdio.EOF in Hlt. lia. }
      rewrite u64_sum8.
      pose proof (field_range vs 0 Hall). pose proof (field_range vs 1 Hall).
      pose proof (field_range vs 2 Hall). pose proof (field_range vs 3 Hall).
      pose proof (field_range vs 4 Hall). pose proof (field_range vs 5 Hall).
      pose proof (field_range vs 6 Hall). pose proof (field_range vs 7 Hall).
      repeat split; try assumption; try lia; try reflexivity.
      * intros Hsmall. apply wrap64_small. unfold U64.in_range in *. lia.
      * intros Hsmall. apply wrap64_small.
        unfold U64.in_range in *. lia.
Qed.

(** ** Lines printed by the kernel *)

Lemma scan_digits_stop rest acc :
  stops_digits rest -> Stdio.scan_digits rest acc = (acc, rest).
Proof.
  destruct rest as [|c rest]; simpl; [reflexivity|]. intros ->. reflexivity.
Qed.

Lemma scan_digits_uint (d : Decimal.uint) : forall rest acc,
  stops_digits rest ->
  Stdio.scan_digits
    (list_ascii_of_string (DecimalString.NilEmpty.string_of_uint d) ++ rest) acc =
  (uint_value d acc, rest).
Proof.
  induction d; intros rest acc Hrest; simpl;
    try (apply scan_digits_stop; assumption);
    rewrite IHd by assumption; reflexivity.
Qed.

Lemma uint_value_pos (d : Decimal.uint) : forall acc : positive,
  uint_value d (Zpos acc) = Zpos (Pos.of_uint_acc d acc).
Proof.
  induction d; intros acc; simpl; try reflexivity; rewrite <- IHd; f_equal; lia.
Qed.

Lemma uint_value_of_uint (d : Decimal.uint) :
  uint_value d 0 = Z.of_N (Pos.of_uint d).
Proof.
  induction d; cbn; try reflexivity; try assumption;
    apply uint_value_pos.
Qed.

Lemma to_uint_nonnil (n : N) : N.to_uint n <> Decimal.Nil.
Proof.
  destruct n; simpl; [discriminate|]. apply DecimalPos.Unsigned.to_uint_nonnil.
Qed.

(** The notation of a counter begins with a digit. *)
Lemma decimal_head (n : Z) :
  exists c cs, decimal n = c :: cs /\ Stdio.isdigit c = true /\
               Stdio.isspace c = false /\
               Ascii.eqb c "-" = false /\ Ascii.eqb c "+" = false.
Proof.
  unfold decimal, DecimalString.NilZero.string_of_uint.
  pose proof (to_uint_nonnil (Z.to_N n)) as Hnn.
  destruct (N.to_uint (Z.to_N n)); try congruence; simpl;
    eexists _, _; repeat split.
Qed.

(** Reading back what was printed. *)
Lemma scan_digits_decimal (n : Z) (rest : list ascii) :
  0 <= n -> stops_digits rest ->
  Stdio.scan_digits (decimal n ++ rest) 0 = (n, rest).
Proof.
  intros Hn Hrest. unfold decimal, DecimalString.NilZero.string_of_uint.
  pose proof (to_uint_nonnil (Z.to_N n)) as Hnn.
  pose proof (DecimalN.Unsigned.of_to (Z.to_N n)) as Hrt.
  unfold N.of_uint in Hrt.
  assert (Hval : uint_value (N.to_uint (Z.to_N n)) 0 = n).
  { rewrite uint_value_of_uint, Hrt. lia. }
  destruct (N.to_uint (Z.to_N n)) eqn:Hd; try congruence;
    rewrite <- Hval; apply (scan_digits_uint _ rest 0 Hrest).
Qed.

Lemma scan_llu_decimal (n : Z) (rest : list ascii) :
  U64.in_range n -> stops_digits rest ->
  Stdio.scan_llu (" "%char :: decimal n ++ rest) = Stdio.ConvOk n rest.
Proof.
  intros Hn Hrest. unfold Stdio.scan_llu.
  change (Stdio.skip_space (" "%char :: decimal n ++ rest))
    with (Stdio.skip_space (decimal n ++ rest)).
  pose proof (scan_digits_decimal n rest (proj1 Hn) Hrest) as Hscan.
  destruct (decimal_head n) as (c & cs & Hdec & Hdig & Hsp & Hminus & Hplus).
  rewrite Hdec in *. simpl app in *. simpl Stdio.skip_space. rewrite Hsp.
  rewrite Hminus, Hplus. simpl orb. cbv iota. rewrite Hdig, Hscan.
  unfold U64.in_range, U64.max in *.
  replace (n >? U64.modulus - 1) with false
    by (symmetry; rewrite Z.gtb_ltb; apply Z.ltb_ge; lia).
  reflexivity.
Qed.

Lemma string_of_uint_digits (d : Decimal.uint) :
  Forall (fun c => Stdio.isdigit c = true)
         (list_ascii_of_string (DecimalString.NilEmpty.string_of_uint d)).
Proof.
  induction d; simpl; constructor; try reflexivity; assumption.
Qed.

Lemma decimal_digits (n : Z) :
  Forall (fun c => Stdio.isdigit c = true) (decimal n).
Proof.
  unfold decimal, DecimalString.NilZero.string_of_uint.
  destruct (N.to_uint (Z.to_N n)) eqn:Hd;
    try (rewrite <- Hd; apply string_of_uint_digits).
  repeat constructor.
Qed.

Lemma kernel_fields_stops (fields : list Z) : stops_digits (kernel_fields fields).
Proof. destruct fields; reflexivity. Qed.

Lemma skip_space_decimal (n : Z) (rest : list ascii) :
  Stdio.skip_space (decimal n ++ rest) = decimal n ++ rest.
Proof.
  destruct (decimal_head n) as (c & cs & -> & _ & Hsp & _).
  simpl. rewrite Hsp. reflexivity.
Qed.

Lemma scan_fields_kernel (k : nat) : forall fields,
  Forall U64.in_range fields -> (length fields <= k)%nat ->
  Stdio.scan_fields k (kernel_fields fields) =
  (fields, if (length fields <? k)%nat then Stdio.StopInput else Stdio.StopDone).
Proof.
  induction k as [|k IH]; intros fields Hall Hlen.
  - destruct fields; [reflexivity | simpl in Hlen; lia].
  - destruct fields as [|n fields]; [reflexivity|].
    inversion Hall as [|? ? Hn Hall']; subst.
    unfold kernel_fields. cbn [map concat Stdio.scan_fields].
    rewrite <- !List.app_assoc. fold (kernel_fields fields).
    change (Stdio.skip_space ((" "%char :: decimal n) ++ kernel_fields fields))
      with (Stdio.skip_space (decimal n ++ kernel_fields fields)).
    rewrite skip_space_decimal.
    assert (Hconv : Stdio.scan_llu (decimal n ++ kernel_fields fields) =
                    Stdio.ConvOk n (kernel_fields fields)).
    { exact (scan_llu_decimal n (kernel_fields fields) Hn
               (kernel_fields_stops fields)). }
    rewrite Hconv, IH by (simpl in Hlen; auto; lia).
    simpl length. reflexivity.
Qed.

Lemma c_string_no_nul (s : list ascii) :
  Forall (fun c => Ascii.eqb c Stdio.nul = false) s -> Stdio.c_string s = s.
Proof.
  induction 1 as [|c s Hc Hs IH]; simpl; [reflexivity|].
  rewrite Hc, IH. reflexivity.
Qed.

Lemma isdigit_plain (c : ascii) :
  Stdio.isdigit c = true ->
  Ascii.eqb c Stdio.nul = false /\ Ascii.eqb c Stdio.newline = false.
Proof.
  unfold Stdio.isdigit. intros H. apply andb_prop in H as [H1 H2].
  apply Nat.leb_le in H1, H2.
  split; apply Ascii.eqb_neq; intros ->; vm_compute in H1; lia.
Qed.

Lemma kernel_fields_plain (fields : list Z) :
  Forall (fun c => Ascii.eqb c Stdio.nul = false) (kernel_fields fields).
Proof.
  unfold kernel_fields. apply Forall_app. split; [|repeat constructor].
  induction fields as [|n fields IH]; simpl; [constructor|].
  constructor; [reflexivity|]. apply Forall_app. split; [|exact IH].
  eapply Forall_impl; [apply decimal_digits|].
  intros c Hc. apply isdigit_plain, Hc.
Qed.

(** [sscanf] reads back the fields of a line printed by the kernel. *)
Lemma sscanf_kernel_line (fields : list Z) :
  Forall U64.in_range fields -> (length fields <= 8)%nat -> fields <> [] ->
  Stdio.sscanf_cpu (kernel_line fields) = (Z.of_nat (length fields), fields).
Proof.
  intros Hall Hlen Hne. unfold Stdio.sscanf_cpu.
  assert (Hline : kernel_line fields =
                  list_ascii_of_string "cpu " ++ kernel_fields fields)
    by reflexivity.
  rewrite Hline, c_string_no_nul.
  2:{ apply Forall_app. split; [repeat constructor | apply kernel_fields_plain]. }
  change (Stdio.match_literal (list_ascii_of_string "cpu")
            (list_ascii_of_string "cpu " ++ kernel_fields fields))
    with (Stdio.LitOk (" "%char :: kernel_fields fields)).
  cbv iota beta.
  assert (Hskip : Stdio.scan_fields 8 (" "%char :: kernel_fields fields) =
                  Stdio.scan_fields 8 (kernel_fields fields)) by reflexivity.
  rewrite Hskip, scan_fields_kernel by assumption.
  destruct fields; [congruence | reflexivity].
Qed.

Lemma fgets_chars_newline (l more : list ascii) : forall room,
  Forall (fun c => Ascii.eqb c Stdio.newline = false) l ->
  (length l < room)%nat ->
  Stdio.fgets_chars room (l ++ Stdio.newline :: more) =
  (l ++ [Stdio.newline], more).
Proof.
  induction l as [|c l IH]; intros room Hall Hlen.
  - destruct room; [simpl in Hlen; lia|]. reflexivity.
  - destruct room; [simpl in Hlen; lia|].
    inversion Hall as [|? ? Hc Hl]; subst. simpl. rewrite Hc.
    rewrite IH by (simpl in Hlen; auto; lia). reflexivity.
Qed.

Lemma fgets_line (size : nat) (l more : list ascii) :
  l <> [] ->
  Forall (fun c => Ascii.eqb c Stdio.newline = false) l ->
  (length l < size - 1)%nat ->
  Stdio.fgets size (l ++ Stdio.newline :: more) =
  Some (l ++ [Stdio.newline], more).
Proof.
  intros Hne Hall Hlen. unfold Stdio.fgets.
  destruct l as [|c l]; [congruence|].
  change ((c :: l) ++ Stdio.newline :: more)
    with (c :: (l ++ Stdio.newline :: more)) at 1.
  cbv iota. f_equal. apply fgets_chars_newline; assumption.
Qed.

Lemma kernel_line_no_newline (fields : list Z) :
  Forall (fun c => Ascii.eqb c Stdio.newline = false)
         (list_ascii_of_string "cpu " ++
          concat (map (fun n => " "%char :: decimal n) fields)).
Proof.
  apply Forall_app. split; [repeat constructor|].
  induction fields as [|n fields IH]; simpl; [constructor|].
  constructor; [reflexivity|]. apply Forall_app. split; [|exact IH].
  eapply Forall_impl; [apply decimal_digits|].
  intros c Hc. apply isdigit_plain, Hc.
Qed.

(** On a first line printed by the kernel with four to eight counters,
    [get_cpu_times] succeeds with the sums of those counters. *)
Lemma get_cpu_times_kernel_line (fields : list Z) (more : list ascii)
    (idle0 total0 : Z) :
  Forall U64.in_range fields -> (4 <= length fields <= 8)%nat ->
  (length (kernel_line fields) <= 511)%nat ->
  get_cpu_times (Some (kernel_line fields ++ more)) idle0 total0 =
  Stdio.Returned
    (U64.wrap64 (field fields 3 + field fields 4),
     U64.wrap64 (field fields 0 + field fields 1 + field fields 2 +
                 field fields 3 + field fields 4 + field fields 5 +
                 field fields 6 + field fields 7),
     true, []).
Proof.
  intros Hall Hlen Hfit. unfold get_cpu_times.
  assert (Hgets : Stdio.fgets 512 (kernel_line fields ++ more) =
                  Some (kernel_line fields, more)).
  { assert (Hline : kernel_line fields ++ more =
                    (list_ascii_of_string "cpu " ++
                     concat (map (fun n => " "%char :: decimal n) fields)) ++
                    Stdio.newline :: more).
    { unfold kernel_line, kernel_fields. rewrite <- !List.app_assoc.
      reflexivity. }
    assert (Hline' : kernel_line fields =
                    (list_ascii_of_string "cpu " ++
                     concat (map (fun n => " "%char :: decimal n) fields)) ++
                    [Stdio.newline]).
    { unfold kernel_line, kernel_fields. rewrite <- !List.app_assoc.
      reflexivity. }
    rewrite Hline' in Hfit. rewrite Hline, Hline'.
    pose proof (kernel_line_no_newline fields) as Hnl.
    set (body := list_ascii_of_string "cpu " ++ _) in *.
    assert (Hne : body <> []) by (subst body; discriminate).
    clearbody body.
    rewrite List.length_app in Hfit. simpl in Hfit.
    apply fgets_line; [exact Hne | exact Hnl | lia]. }
  rewrite Hgets, sscanf_kernel_line; try assumption; try lia.
  2:{ destruct fields; [simpl in Hlen; lia | discriminate]. }
  replace (Z.of_nat (length fields) <? 4) with false
    by (symmetry; apply Z.ltb_ge; lia).
  rewrite u64_sum8. reflexivity.
Qed.

(** ** Counting the cores *)

Lemma fgets_chars_concat (room : nat) : forall fp line rest,
  Stdio.fgets_chars room fp = (line, rest) -> line ++ rest = fp.
Proof.
  induction room as [|room IH]; intros fp line rest; simpl.
  - intros H. injection H as <- <-. reflexivity.
  - destruct fp as [|c fp]; [intros H; injection H as <- <-; reflexivity|].
    destruct (Ascii.eqb c Stdio.newline).
    + intros H. injection H as <- <-. reflexivity.
    + destruct (Stdio.fgets_chars room fp) as [l r] eqn:Hrec.
      intros H. injection H as <- <-. simpl. f_equal. eapply IH, Hrec.
Qed.

(** A successful [fgets] with room for at least one character stores at
    least one. *)
Lemma fgets_progress (size : nat) (fp line rest : list ascii) :
  (2 <= size)%nat ->
  Stdio.fgets size fp = Some (line, rest) ->
  line ++ rest = fp /\ (length rest < length fp)%nat.
Proof.
  intros Hsize. unfold Stdio.fgets.
  destruct fp as [|c fp]; [discriminate|].
  intros H. injection H as H.
  pose proof (fgets_chars_concat _ _ _ _ H) as Hcat. split; [exact Hcat|].
  destruct (size - 1)%nat as [|room] eqn:Hroom; [lia|].
  simpl in H. destruct (Ascii.eqb c Stdio.newline).
  - injection H as <- <-. simpl. lia.
  - destruct (Stdio.fgets_chars room fp) as [l r] eqn:Hrec.
    injection H as <- <-.
    apply fgets_chars_concat in Hrec. subst fp.
    simpl. rewrite List.length_app. lia.
Qed.

(** With [length fp] iterations the loop reads the whole text. *)
Lemma records_complete (size : nat) : (2 <= size)%nat ->
  forall fuel fp, (length fp <= fuel)%nat -> concat (records fuel size fp) = fp.
Proof.
  intros Hsize. induction fuel as [|fuel IH]; intros fp Hlen.
  - destruct fp; [reflexivity | simpl in Hlen; lia].
  - simpl. destruct (Stdio.fgets size fp) as [[line rest]|] eqn:Hgets.
    + destruct (fgets_progress _ _ _ _ Hsize Hgets) as [Hcat Hlt].
      simpl. rewrite IH by lia. exact Hcat.
    + destruct fp; [reflexivity | discriminate].
Qed.

(** The result of the loop does not depend on the iterations allowed,
    once they are as many as the characters. *)
Lemma count_processors_fuel : forall fuel1 fuel2 fp cores,
  (length fp <= fuel1)%nat -> (length fp <= fuel2)%nat ->
  count_processors fuel1 fp cores = count_processors fuel2 fp cores.
Proof.
  induction fuel1 as [|fuel1 IH]; intros fuel2 fp cores H1 H2.
  - destruct fp; [|simpl in H1; lia]. destruct fuel2; reflexivity.
  - destruct fuel2 as [|fuel2].
    + destruct fp; [reflexivity | simpl in H2; lia].
    + cbn [count_processors].
      destruct (Stdio.fgets 256 fp) as [[line rest]|] eqn:Hgets; [|reflexivity].
      destruct (fgets_progress 256 fp line rest) as [_ Hlt]; [lia | exact Hgets |].
      apply IH; lia.
Qed.

Lemma wrap_int_small (z : Z) : CInt.in_range z -> CInt.wrap_int z = z.
Proof.
  unfold CInt.in_range, CInt.wrap_int, CInt.min, CInt.max. intros H.
  rewrite Z.mod_small; lia.
Qed.

Lemma processor_count_cons (l : list ascii) (ls : list (list ascii)) :
  processor_count (l :: ls) =
  (if is_processor l then 1 else 0) + processor_count ls.
Proof.
  unfold processor_count. simpl. destruct (is_processor l); simpl; lia.
Qed.

Lemma processor_count_nonneg (ls : list (list ascii)) : 0 <= processor_count ls.
Proof. unfold processor_count. lia. Qed.

(** As long as the counter does not overflow, the loop adds to [cores]
    the number of buffers that begin with the marker. *)
Lemma count_processors_records (fuel : nat) : forall fp cores,
  0 <= cores ->
  cores + processor_count (records fuel 256 fp) <= CInt.max ->
  count_processors fuel fp cores =
  cores + processor_count (records fuel 256 fp).
Proof.
  induction fuel as [|fuel IH]; intros fp cores Hc Hmax;
    cbn [count_processors records] in *.
  - unfold processor_count. simpl. lia.
  - destruct (Stdio.fgets 256 fp) as [[line rest]|].
    + rewrite processor_count_cons in *.
      pose proof (processor_count_nonneg (records fuel 256 rest)).
      fold (is_processor line). destruct (is_processor line).
      * rewrite wrap_int_small
          by (unfold CInt.in_range, CInt.min, CInt.max in *; lia).
        rewrite IH by lia. lia.
      * rewrite IH by lia. lia.
    + unfold processor_count. simpl. lia.
Qed.

Lemma split_lines_nonempty (c : ascii) (fp : list ascii) :
  split_lines (c :: fp) <> [].
Proof.
  simpl. destruct (Ascii.eqb c Stdio.newline); [discriminate|].
  destruct (split_lines fp); discriminate.
Qed.

(** [fgets] delivers the first line when the line fits. *)
Lemma fgets_chars_line (room : nat) : forall fp l ls,
  split_lines fp = l :: ls -> (length l <= room)%nat ->
  exists rest, Stdio.fgets_chars room fp = (l, rest) /\ split_lines rest = ls.
Proof.
  induction room as [|room IH]; intros fp l ls Hsplit Hlen.
  - destruct l; [|simpl in Hlen; lia].
    destruct fp as [|c fp]; [discriminate|]. simpl in Hsplit.
    destruct (Ascii.eqb c Stdio.newline); [discriminate|].
    destruct (split_lines fp); discriminate.
  - destruct fp as [|c fp]; [discriminate|]. simpl in *.
    destruct (Ascii.eqb c Stdio.newline).
    + injection Hsplit as <- <-. eauto.
    + destruct (split_lines fp) as [|l' ls'] eqn:Hfp.
      * injection Hsplit as <- <-.
        destruct fp as [|c' fp']; [|destruct (split_lines_nonempty _ _ Hfp)].
        exists []. destruct room; simpl; auto.
      * injection Hsplit as <- <-. simpl in Hlen.
        destruct (IH fp l' ls' Hfp) as (rest & -> & Hrest); [lia|].
        eauto.
Qed.

(** When every line fits in the buffer, the buffers are the lines. *)
Lemma records_lines (size : nat) : forall fuel fp,
  (length fp <= fuel)%nat -> (2 <= size)%nat ->
  Forall (fun l => (length l <= size - 1)%nat) (split_lines fp) ->
  records fuel size fp = split_lines fp.
Proof.
  induction fuel as [|fuel IH]; intros fp Hfuel Hsize Hall.
  - destruct fp; [reflexivity | simpl in Hfuel; lia].
  - simpl. destruct fp as [|c fp]; [reflexivity|].
    destruct (split_lines (c :: fp)) as [|l ls] eqn:Hsplit;
      [destruct (split_lines_nonempty _ _ Hsplit)|].
    inversion Hall as [|? ? Hl Hls]; subst.
    destruct (fgets_chars_line (size - 1) (c :: fp) l ls Hsplit Hl)
      as (rest & Hgets & Hrest).
    unfold Stdio.fgets. rewrite Hgets.
    destruct (fgets_progress size (c :: fp) l rest Hsize) as [_ Hlt].
    { unfold Stdio.fgets. rewrite Hgets. reflexivity. }
    rewrite IH; [congruence | simpl in *; lia | assumption |].
    rewrite Hrest. assumption.
Qed.

Lemma fgets_chars_length (room : nat) : forall fp line rest,
  Stdio.fgets_chars room fp = (line, rest) -> (length line <= room)%nat.
Proof.
  induction room as [|room IH]; intros fp line rest; simpl.
  - intros H. injection H as <- _. simpl. lia.
  - destruct fp as [|c fp]; [intros H; injection H as <- _; simpl; lia|].
    destruct (Ascii.eqb c Stdio.newline).
    + intros H. injection H as <- _. simpl. lia.
    + destruct (Stdio.fgets_chars room fp) as [l r] eqn:Hrec.
      intros H. injection H as <- _. simpl.
      pose proof (IH _ _ _ Hrec). lia.
Qed.

Lemma records_length (size : nat) : forall fuel fp,
  Forall (fun r => (length r <= size - 1)%nat) (records fuel size fp).
Proof.
  induction fuel as [|fuel IH]; intros fp; simpl; [constructor|].
  destruct (Stdio.fgets size fp) as [[line rest]|] eqn:Hgets; [|constructor].
  constructor; [|apply IH].
  unfold Stdio.fgets in Hgets. destruct fp; [discriminate|].
  injection Hgets as Hgets. eapply fgets_chars_length, Hgets.
Qed.

(** C8, where the code keeps it.  [get_cpu_cores] always returns, and
    what it returns is at least 1.  It returns 1 when [/proc/cpuinfo]
    cannot be opened.  On a text in which no line is longer than 255
    characters the buffers that [fgets] delivers are the lines, so that
    the count is the number of lines that begin with the marker, and 1
    when there is none.  A longer line is delivered in pieces, and the
    marker is looked for at the start of every piece: there the count is
    not the count of lines. *)
Theorem get_cpu_cores_spec (cpuinfo : option (list ascii)) :
  exists n,
    get_cpu_cores cpuinfo = Stdio.Returned n /\
    1 <= n /\
    (cpuinfo = None -> n = 1) /\
    forall fp, cpuinfo = Some fp ->
      let buffers := records (length fp) 256 fp in
      concat buffers = fp /\
      Forall (fun r => (length r <= 255)%nat) buffers /\
      (Forall (fun l => (length l <= 255)%nat) (split_lines fp) ->
       buffers = split_lines fp) /\
      (processor_count buffers = 0 -> n = 1) /\
      (0 < processor_count buffers <= CInt.max -> n = processor_count buffers).
Proof.
  unfold get_cpu_cores. destruct cpuinfo as [fp|].
  2:{ exists 1. split; [reflexivity|]. split; [lia|]. split; [reflexivity|].
      intros fp H. discriminate. }
  eexists. split; [reflexivity|]. split; [|split; [discriminate|]].
  - destruct (count_processors (length fp) fp 0 >? 0) eqn:Hpos; lia.
  - intros fp' H. injection H as <-. cbv zeta.
    split; [apply records_complete; lia|].
    split; [apply (records_length 256)|].
    split; [intros Hall; apply records_lines; auto; lia|].
    split.
    + intros Hzero.
      rewrite count_processors_records
        by (rewrite ?Hzero; unfold CInt.max; lia).
      rewrite Hzero. reflexivity.
    + intros [Hpos Hmax].
      rewrite count_processors_records by lia.
      replace (0 + _ >? 0) with true by (symmetry; apply Z.gtb_lt; lia).
      lia.
Qed.

(** C8 fails on a line longer than the buffer of line 117: [long_line]
    is one line, it does not begin with the marker, and the function
    returns 2 where the count of lines that begin with the marker is 0
    and the result should be 1. *)
Lemma get_cpu_cores_long_line_counterexample :
  split_lines long_line = [long_line] /\
  processor_count (split_lines long_line) = 0 /\
  get_cpu_cores (Some long_line) = Stdio.Returned 2 /\
  get_cpu_cores (Some long_line) <>
    Stdio.Returned (if processor_count (split_lines long_line) >? 0
                    then processor_count (split_lines long_line) else 1).
Proof.
  split; [vm_compute; reflexivity|].
  split; [vm_compute; reflexivity|].
  split; [vm_compute; reflexivity|].
  vm_compute. discriminate.
Qed.

(** ** The usage bar *)

Lemma usage_fill_clamp (width : Z) (usage : float) :
  0 <= width ->
  usage_fill width usage =
  Z.min width
    (Z.max 0 (Double.to_int (usage / 100 * Double.of_int width)%float)).
Proof.
  intros Hw. unfold usage_fill.
  set (fill := Double.to_int _).
  destruct (fill <? 0) eqn:Hneg.
  - apply Z.ltb_lt in Hneg.
    replace (0 >? width) with false
      by (symmetry; rewrite Z.gtb_ltb; apply Z.ltb_ge; lia).
    lia.
  - apply Z.ltb_ge in Hneg.
    destruct (fill >? width) eqn:Hbig.
    + apply Z.gtb_lt in Hbig. lia.
    + rewrite Z.gtb_ltb in Hbig. apply Z.ltb_ge in Hbig. lia.
Qed.

(** One [mvprintw] of a character inside the row. *)
Lemma mvprintw_char_at (pre post : list ascii) (old c : ascii) (x : Z) :
  0 <= x -> length pre = Z.to_nat x ->
  mvprintw_char (pre ++ old :: post) x c = pre ++ c :: post.
Proof.
  intros Hx Hlen. unfold mvprintw_char.
  replace (x <? 0) with false by (symmetry; apply Z.ltb_ge; lia).
  rewrite insert_app_r_alt by lia.
  rewrite Hlen, Nat.sub_diag. reflexivity.
Qed.

(** A loop of [mvprintw] calls over successive columns. *)
Lemma mvprintw_loop (c : ascii) : forall (n : nat) (a : Z) (pre mid post : list ascii),
  0 <= a -> length pre = Z.to_nat (a + 1) -> length mid = n ->
  foldl (fun r i => mvprintw_char r (i + 1) c) (pre ++ mid ++ post)
        (seqZ a (Z.of_nat n)) =
  pre ++ replicate n c ++ post.
Proof.
  induction n as [|n IH]; intros a pre mid post Ha Hpre Hmid.
  - destruct mid; [reflexivity | discriminate].
  - destruct mid as [|old mid]; [discriminate|].
    rewrite seqZ_cons by lia. simpl foldl.
    rewrite (mvprintw_char_at pre (mid ++ post) old c (a + 1)) by lia.
    replace (Z.pred (Z.of_nat (S n))) with (Z.of_nat n) by lia.
    replace (pre ++ c :: mid ++ post) with ((pre ++ [c]) ++ mid ++ post)
      by (rewrite <- List.app_assoc; reflexivity).
    rewrite (IH (Z.succ a)).
    + rewrite <- List.app_assoc. reflexivity.
    + lia.
    + rewrite List.length_app. simpl. lia.
    + simpl in Hmid. lia.
Qed.

(** The row that lines 304-307 draw on a terminal wide enough. *)
Lemma draw_bar_row (cols w n : nat) :
  (n <= w)%nat -> (w + 2 <= cols)%nat ->
  draw_bar cols (Z.of_nat w) (Z.of_nat n) =
  "["%char :: replicate n "#"%char ++ replicate (w - n) "-"%char ++
  "]"%char :: replicate (cols - w - 2) " "%char.
Proof.
  intros Hn Hw. unfold draw_bar.
  replace cols with (1 + (n + ((w - n) + (1 + (cols - w - 2)))))%nat at 1 by lia.
  rewrite !replicate_add.
  set (blank := replicate (cols - w - 2) " "%char).
  set (todo := replicate (w - n) " "%char ++ replicate 1 " "%char ++ blank).
  change (replicate 1 " "%char ++ replicate n " "%char ++ todo)
    with ([] ++ " "%char :: replicate n " "%char ++ todo).
  rewrite (mvprintw_char_at [] _ " " "[" 0) by (simpl; lia).
  change ([] ++ "["%char :: replicate n " "%char ++ todo)
    with (["["%char] ++ replicate n " "%char ++ todo).
  rewrite (mvprintw_loop "#" n 0 ["["%char]); try lia;
    [|reflexivity | apply length_replicate].
  replace (Z.of_nat w - Z.of_nat n) with (Z.of_nat (w - n)) by lia.
  subst todo. rewrite List.app_assoc.
  rewrite (mvprintw_loop "-" (w - n) (Z.of_nat n)); try lia;
    [| rewrite List.length_app, length_replicate; simpl; lia
     | apply length_replicate].
  rewrite List.app_assoc.
  change (replicate 1 " "%char ++ blank) with (" "%char :: blank).
  rewrite (mvprintw_char_at _ _ " " "]" (Z.of_nat w + 1)); try lia.
  - rewrite <- !List.app_assoc. reflexivity.
  - rewrite !List.length_app, !length_replicate. simpl. lia.
Qed.

(** The screen an iteration shows carries the usage of the iteration and
    the bar drawn for it. *)
Lemma tick_screen (env : Session) (st : Monitor) (inp : TickInput) :
  exists st' evs scr,
    tick env st inp = Stdio.Returned (st', evs, is_quit_key (in_key inp)) /\
    In (EvRefresh scr) evs /\
    scr_usage scr = cpu_usage st' /\
    scr_bar scr =
      draw_bar (term_cols env) usage_bar_width
               (usage_fill usage_bar_width (cpu_usage st')).
Proof.
  unfold tick.
  destruct (get_system_info (in_loadavg inp) (in_uptime inp) (sys st))
    as [[sys' ok_sys'] evs_sys].
  destruct (get_cpu_times_cases (in_stat inp) (idle st) (total st))
    as [(s & -> & Hv) | (w & -> & Hv & Hw)];
    cbn [mbind outcome_bind];
    destruct (shouldAlert _ ALERT_THRESHOLD);
    eexists _, _, _; (split; [reflexivity|]);
    (split; [rewrite !List.in_app_iff; simpl; eauto 10 | split; reflexivity]).
Qed.

(** C7. The fill count is the integer part of [usage / 100 * W], kept
    between 0 and [W]; the row drawn is an opening bracket, that many
    hashes, dashes up to the width [W], and a closing bracket.  A usage of
    0 gives fill 0, a usage of 100 gives fill [W], and a usage of 50 at
    width 40 gives fill 20.  Every iteration shows the bar of its usage at
    width 40. *)
Theorem usage_bar_rendering :
  (forall (cols : nat) (W : Z) (usage : float),
     0 <= W -> (Z.to_nat W + 2 <= cols)%nat ->
     let N := usage_fill W usage in
     N = Z.min W (Z.max 0 (Double.to_int (usage / 100 * Double.of_int W)%float)) /\
     0 <= N <= W /\
     draw_bar cols W N =
       "["%char :: replicate (Z.to_nat N) "#"%char ++
       replicate (Z.to_nat (W - N)) "-"%char ++
       "]"%char :: replicate (cols - Z.to_nat W - 2) " "%char) /\
  (forall W : Z,
     0 <= W <= CInt.max -> usage_fill W 0 = 0 /\ usage_fill W 100 = W) /\
  usage_fill 40 50 = 20 /\
  (forall env st inp,
     exists st' evs quit scr,
       tick env st inp = Stdio.Returned (st', evs, quit) /\
       In (EvRefresh scr) evs /\
       scr_bar scr =
         draw_bar (term_cols env) 40 (usage_fill 40 (cpu_usage st'))).
Proof.
  split; [|split; [|split; [reflexivity|]]].
  - intros cols W usage HW Hcols N.
    assert (HN : N = Z.min W (Z.max 0
               (Double.to_int (usage / 100 * Double.of_int W)%float)))
      by (apply usage_fill_clamp; assumption).
    split; [exact HN|]. split; [lia|].
    rewrite <- (Z2Nat.id W) at 1 by lia.
    rewrite <- (Z2Nat.id N) at 1 by lia.
    rewrite draw_bar_row by lia.
    replace (Z.to_nat W - Z.to_nat N)%nat with (Z.to_nat (W - N)) by lia.
    reflexivity.
  - intros W HW. unfold usage_fill.
    rewrite to_int_zero_times, to_int_of_int_times_one by assumption.
    split.
    + change (0 <? 0) with false. cbv iota.
      destruct (0 >? W) eqn:H; [apply Z.gtb_lt in H; lia | reflexivity].
    + destruct (W <? 0) eqn:Hneg; [apply Z.ltb_lt in Hneg; lia|].
      destruct (W >? W) eqn:H; reflexivity.
  - intros env st inp.
    destruct (tick_screen env st inp) as (st' & evs & scr & Ht & Hin & _ & Hbar).
    exists st', evs, (is_quit_key (in_key inp)), scr. auto.
Qed.

Lemma usage_bar_rendering_witness :
  usage_fill 40 57.5 =
    Z.min 40 (Z.max 0 (Double.to_int (57.5 / 100 * Double.of_int 40)%float)) /\
  0 <= usage_fill 40 57.5 <= 40 /\
  draw_bar 80 40 (usage_fill 40 57.5) =
    "["%char :: replicate (Z.to_nat (usage_fill 40 57.5)) "#"%char ++
    replicate (Z.to_nat (40 - usage_fill 40 57.5)) "-"%char ++
    "]"%char :: replicate (80 - Z.to_nat 40 - 2) " "%char.
Proof.
  apply (proj1 usage_bar_rendering 80%nat 40 57.5%float).
  - lia.
  - simpl. lia.
Defined.

(** ** Examples *)

(** The usages 10, 90 and 40 leave the extremes at 90 and 10. *)
Example update_sequence :
  foldl update initial_extremes [10%float; 90%float; 40%float] =
  mkExtremes 90%float 10%float.
Proof. reflexivity. Qed.

Example second_tick_usage :
  exists st' evs,
    tick example_session after_first_tick second_input =
      Stdio.Returned (st', evs, false) /\
    cpu_usage st' = 87.5%float /\
    extremes st' = mkExtremes 87.5%float 0%float /\
    mkSample (prev_idle st') (prev_total st') = mkSample 430 776 /\
    In (EvSendto (alert_of second_input st')) evs.
Proof.
  eexists _, _. split; [vm_compute; reflexivity|].
  repeat split. vm_compute. auto 10.
Qed.

(** ** The loop *)

(** The loop over any inputs returns, and a property that every
    iteration establishes holds when it ends, unless no iteration ran. *)
Lemma run_loop_establishes (env : Session) (sock : Z) (Q : Monitor -> Prop) :
  (forall hist st inp st' evs quit,
     reachable env sock hist st ->
     tick env st inp = Stdio.Returned (st', evs, quit) -> Q st') ->
  forall inputs hist st,
    reachable env sock hist st ->
    exists st' evs,
      run_loop env st inputs = Stdio.Returned (st', evs) /\
      (st' = st \/ Q st').
Proof.
  intros HQ. induction inputs as [|inp inputs IH]; intros hist st Hreach; simpl.
  - eexists _, _. split; [reflexivity|]. left. reflexivity.
  - destruct (keep_running st) eqn:Hrun.
    2:{ eexists _, _. split; [reflexivity|]. left. reflexivity. }
    destruct (tick_step env st inp) as (st1 & evs1 & Ht & _).
    pose proof (HQ _ _ _ _ _ _ Hreach Ht) as HQ1.
    rewrite Ht. cbn [mbind outcome_bind].
    destruct (is_quit_key (in_key inp)) eqn:Hquit.
    + eexists _, _. split; [reflexivity|]. right. exact HQ1.
    + destruct (IH (hist ++ [inp]) st1) as (st' & evs' & Hloop & Hend).
      { eapply reachable_tick; eauto. }
      rewrite Hloop. cbn [mbind outcome_bind].
      eexists _, _. split; [reflexivity|].
      right. destruct Hend as [-> | HQ']; assumption.
Qed.

(** A session whose loop runs at least once ends with the minimum at
    [0.0]. *)
Lemma run_loop_min_zero (env : Session) (sock : Z) (inp : TickInput)
    (inputs : list TickInput) :
  exists st' evs,
    run_loop env (initial_monitor sock) (inp :: inputs) =
      Stdio.Returned (st', evs) /\
    min_usage st' = 0%float.
Proof.
  pose proof (run_loop_establishes env sock (fun st => min_usage st = 0%float))
    as Hloop.
  assert (HQ : forall hist st inp0 st' evs quit,
             reachable env sock hist st ->
             tick env st inp0 = Stdio.Returned (st', evs, quit) ->
             min_usage st' = 0%float)
    by (intros; eapply tick_min_zero; eauto).
  specialize (Hloop HQ).
  simpl.
  destruct (tick_step env (initial_monitor sock) inp) as (st1 & evs1 & Ht & _).
  pose proof (HQ _ _ _ _ _ _ (reachable_start env sock) Ht) as H1.
  rewrite Ht. cbn [mbind outcome_bind].
  destruct (is_quit_key (in_key inp)) eqn:Hquit.
  - eexists _, _. split; [reflexivity | exact H1].
  - destruct (Hloop inputs [inp] st1) as (st' & evs' & Hrun & Hend).
    { eapply (reachable_tick env sock []); eauto using reachable_start. }
    rewrite Hrun. cbn [mbind outcome_bind].
    eexists _, _. split; [reflexivity|].
    destruct Hend as [-> | H]; assumption.
Qed.

(** ** The first version *)

(** What the guards of [get_cpu_cores] changed: the first version could
    end the process, and could return 0. *)
Lemma legacy_get_cpu_cores_fails :
  Legacy.get_cpu_cores None = Stdio.Exited 1 /\
  Legacy.get_cpu_cores (Some []) = Stdio.Returned 0.
Proof. split; reflexivity. Qed.

(** ** Exact values of the usage *)

(** A finite number divided by itself is [1.0]. *)
Lemma SFdiv_self s m e :
  SFdiv prec emax (S754_finite s m e) (S754_finite s m e) =
  S754_finite false 4503599627370496 (-52).
Proof.
  unfold SFdiv, SFdiv_core_binary.
  replace (Z.min (SpecFloat.fexp prec emax
                    (Zdigits2 (Zpos m) + e - (Zdigits2 (Zpos m) + e))) (e - e))
    with (-53) by (rewrite !Z.sub_diag; reflexivity).
  replace (e - e - -53) with 53 by lia.
  assert (Hdiv : Z.div_eucl (Z.shiftl (Zpos m) 53) (Zpos m) = (2 ^ 53, 0)).
  { pose proof (Z_div_mod (Z.shiftl (Zpos m) 53) (Zpos m) eq_refl) as H.
    destruct (Z.div_eucl (Z.shiftl (Zpos m) 53) (Zpos m)) as [q r].
    rewrite Z.shiftl_mul_pow2 in H by lia. destruct H as [H1 H2].
    assert (r = 0).
    { assert (Hr : r = Zpos m * (2 ^ 53 - q)) by lia.
      destruct (Z.eq_dec (2 ^ 53 - q) 0) as [Hz|Hz]; [rewrite Hz in Hr; lia|].
      assert (Zpos m <= Z.abs r).
      { rewrite Hr, Z.abs_mul. assert (1 <= Z.abs (2 ^ 53 - q)) by lia. nia. }
      lia. }
    subst r. f_equal. nia. }
  rewrite Hdiv.
  assert (Hloc : new_location (Zpos m) 0 = loc_Exact)
    by (unfold new_location; destruct (Z.even (Zpos m)); reflexivity).
  rewrite Hloc. destruct s; reflexivity.
Qed.

Lemma usage_formula_all_idle d :
  0 < d < 2 ^ 64 -> usage_formula d d = 0%float.
Proof.
  intros Hd. apply Prim2SF_inj. unfold usage_formula.
  rewrite mul_spec, sub_spec, div_spec.
  destruct (of_u64_finite d Hd) as (m & e & ->).
  unfold SF64div. rewrite SFdiv_self. reflexivity.
Qed.

Lemma usage_formula_no_idle t :
  0 < t < 2 ^ 64 -> usage_formula 0 t = 100%float.
Proof.
  intros Ht. apply Prim2SF_inj. unfold usage_formula.
  rewrite mul_spec, sub_spec, div_spec, of_u64_zero.
  destruct (of_u64_finite t Ht) as (m & e & ->). reflexivity.
Qed.

(** X1. An interval in which the idle counter did not move is reported as
    exactly [100.0]. *)
Theorem usage_fully_busy (prev_idle prev_total total : Z) :
  U64.in_range prev_total -> U64.in_range total ->
  prev_total <> 0 -> prev_total < total ->
  calculate_cpu_usage prev_idle prev_total prev_idle total true = 100%float.
Proof.
  intros Hp Ht Hnz Hlt.
  rewrite calculate_cpu_usage_delta by assumption.
  unfold U64.sub. rewrite Z.sub_diag. change (U64.wrap64 0) with 0.
  rewrite usage_formula_no_idle; [reflexivity|].
  unfold U64.in_range in *. change U64.modulus with (2 ^ 64) in *. lia.
Qed.

Lemma usage_fully_busy_witness :
  calculate_cpu_usage 405 576 405 776 true = 100%float.
Proof.
  apply usage_fully_busy; unfold U64.in_range; try (split; vm_compute; congruence); lia.
Defined.

(** X2. An interval in which the idle counter advanced as much as the
    total is reported as exactly [0.0]. *)
Theorem usage_fully_idle (prev_idle prev_total idle total : Z) :
  U64.in_range prev_total -> U64.in_range total ->
  prev_total <> 0 -> prev_total < total ->
  idle - prev_idle = total - prev_total ->
  calculate_cpu_usage prev_idle prev_total idle total true = 0%float.
Proof.
  intros Hp Ht Hnz Hlt Hsame.
  rewrite calculate_cpu_usage_delta by assumption.
  unfold U64.sub. rewrite Hsame.
  unfold U64.in_range in *. change U64.modulus with (2 ^ 64) in *.
  rewrite wrap64_small
    by (unfold U64.in_range; change U64.modulus with (2 ^ 64); lia).
  rewrite usage_formula_all_idle by lia. reflexivity.
Qed.

Lemma usage_fully_idle_witness :
  calculate_cpu_usage 405 576 605 776 true = 0%float.
Proof.
  apply usage_fully_idle; unfold U64.in_range; try (split; vm_compute; congruence); lia.
Defined.

(** ** Lines with any number of counters *)

Lemma kernel_fields_cons (n : Z) (fields : list Z) :
  kernel_fields (n :: fields) = " "%char :: decimal n ++ kernel_fields fields.
Proof.
  unfold kernel_fields. cbn [map concat]. rewrite <- !List.app_assoc.
  reflexivity.
Qed.

(** [k] conversions on a line of the kernel read its first [k] counters. *)
Lemma scan_fields_kernel_take (k : nat) : forall fields,
  Forall U64.in_range fields ->
  Stdio.scan_fields k (kernel_fields fields) =
  (take k fields,
   if (length fields <? k)%nat then Stdio.StopInput else Stdio.StopDone).
Proof.
  induction k as [|k IH]; intros fields Hall.
  - rewrite take_0. reflexivity.
  - destruct fields as [|n fields]; [reflexivity|].
    inversion Hall as [|? ? Hn Hall']; subst.
    rewrite kernel_fields_cons. cbn [Stdio.scan_fields].
    change (Stdio.skip_space (" "%char :: decimal n ++ kernel_fields fields))
      with (Stdio.skip_space (decimal n ++ kernel_fields fields)).
    rewrite skip_space_decimal.
    assert (Hconv : Stdio.scan_llu (decimal n ++ kernel_fields fields) =
                    Stdio.ConvOk n (kernel_fields fields)).
    { exact (scan_llu_decimal n (kernel_fields fields) Hn
               (kernel_fields_stops fields)). }
    rewrite Hconv, IH by assumption. reflexivity.
Qed.

Lemma sscanf_kernel_line_take (fields : list Z) :
  Forall U64.in_range fields ->
  Stdio.sscanf_cpu (kernel_line fields) =
  match fields with
  | [] => (Stdio.EOF, [])
  | _ :: _ => (Z.of_nat (length (take 8 fields)), take 8 fields)
  end.
Proof.
  intros Hall. unfold Stdio.sscanf_cpu.
  assert (Hline : kernel_line fields =
                  list_ascii_of_string "cpu " ++ kernel_fields fields)
    by reflexivity.
  rewrite Hline, c_string_no_nul.
  2:{ apply Forall_app. split; [repeat constructor | apply kernel_fields_plain]. }
  change (Stdio.match_literal (list_ascii_of_string "cpu")
            (list_ascii_of_string "cpu " ++ kernel_fields fields))
    with (Stdio.LitOk (" "%char :: kernel_fields fields)).
  cbv iota beta.
  assert (Hskip : Stdio.scan_fields 8 (" "%char :: kernel_fields fields) =
                  Stdio.scan_fields 8 (kernel_fields fields)) by reflexivity.
  rewrite Hskip, scan_fields_kernel_take by assumption.
  destruct fields; reflexivity.
Qed.

Lemma fgets_kernel_line (fields : list Z) (more : list ascii) :
  (length (kernel_line fields) <= 511)%nat ->
  Stdio.fgets 512 (kernel_line fields ++ more) = Some (kernel_line fields, more).
Proof.
  intros Hfit.
  assert (Hline : kernel_line fields ++ more =
                  (list_ascii_of_string "cpu " ++
                   concat (map (fun n => " "%char :: decimal n) fields)) ++
                  Stdio.newline :: more).
  { unfold kernel_line, kernel_fields. rewrite <- !List.app_assoc.
    reflexivity. }
  assert (Hline' : kernel_line fields =
                  (list_ascii_of_string "cpu " ++
                   concat (map (fun n => " "%char :: decimal n) fields)) ++
                  [Stdio.newline]).
  { unfold kernel_line, kernel_fields. rewrite <- !List.app_assoc.
    reflexivity. }
  rewrite Hline' in Hfit. rewrite Hline, Hline'.
  pose proof (kernel_line_no_newline fields) as Hnl.
  set (body := list_ascii_of_string "cpu " ++ _) in *.
  assert (Hne : body <> []) by (subst body; discriminate).
  clearbody body.
  rewrite List.length_app in Hfit. simpl in Hfit.
  apply fgets_line; [exact Hne | exact Hnl | lia].
Qed.

Lemma field_take (fields : list Z) (i : nat) :
  (i < 8)%nat -> field (take 8 fields) i = field fields i.
Proof.
  intros Hi. unfold field. rewrite !nth_lookup, lookup_take_lt by exact Hi.
  reflexivity.
Qed.

(** X3. What [get_cpu_times] makes of a first line as the kernel prints it,
    with any number of counters, followed by the rest of the file: with
    fewer than four counters the read fails with the format warning and
    the values behind the pointers stay; with four or more it succeeds,
    the first eight counters are used and further ones are ignored. *)
Theorem get_cpu_times_reads_kernel_line (fields : list Z) (more : list ascii)
    (idle0 total0 : Z) :
  Forall U64.in_range fields ->
  (length (kernel_line fields) <= 511)%nat ->
  get_cpu_times (Some (kernel_line fields ++ more)) idle0 total0 =
  if (length fields <? 4)%nat then
    Stdio.Returned (idle0, total0, false, [EvLog LogStatFormat])
  else
    Stdio.Returned
      (U64.wrap64 (field fields 3 + field fields 4),
       U64.wrap64 (field fields 0 + field fields 1 + field fields 2 +
                   field fields 3 + field fields 4 + field fields 5 +
                   field fields 6 + field fields 7),
       true, []).
Proof.
  intros Hall Hfit. unfold get_cpu_times.
  rewrite fgets_kernel_line, sscanf_kernel_line_take by assumption.
  destruct fields as [|f0 fields]; [reflexivity|].
  rewrite length_take. set (fs := f0 :: fields) in *.
  destruct (length fs <? 4)%nat eqn:Hshort.
  - apply Nat.ltb_lt in Hshort.
    replace (Z.of_nat (8 `min` length fs) <? 4) with true
      by (symmetry; apply Z.ltb_lt; lia).
    reflexivity.
  - apply Nat.ltb_ge in Hshort.
    replace (Z.of_nat (8 `min` length fs) <? 4) with false
      by (symmetry; apply Z.ltb_ge; lia).
    rewrite u64_sum8, !field_take by lia. reflexivity.
Qed.

(** A line of a current kernel, with ten counters. *)
Lemma get_cpu_times_reads_kernel_line_witness :
  get_cpu_times
    (Some (kernel_line [100; 20; 30; 400; 5; 6; 7; 8; 9; 10] ++
           list_ascii_of_string "cpu0 1 2 3 4"))
    11 12 =
  if (length [100; 20; 30; 400; 5; 6; 7; 8; 9; 10] <? 4)%nat then
    Stdio.Returned (11, 12, false, [EvLog LogStatFormat])
  else
    Stdio.Returned
      (U64.wrap64 (field [100; 20; 30; 400; 5; 6; 7; 8; 9; 10] 3 +
                   field [100; 20; 30; 400; 5; 6; 7; 8; 9; 10] 4),
       U64.wrap64 (field [100; 20; 30; 400; 5; 6; 7; 8; 9; 10] 0 +
                   field [100; 20; 30; 400; 5; 6; 7; 8; 9; 10] 1 +
                   field [100; 20; 30; 400; 5; 6; 7; 8; 9; 10] 2 +
                   field [100; 20; 30; 400; 5; 6; 7; 8; 9; 10] 3 +
                   field [100; 20; 30; 400; 5; 6; 7; 8; 9; 10] 4 +
                   field [100; 20; 30; 400; 5; 6; 7; 8; 9; 10] 5 +
                   field [100; 20; 30; 400; 5; 6; 7; 8; 9; 10] 6 +
                   field [100; 20; 30; 400; 5; 6; 7; 8; 9; 10] 7),
       true, []).
Proof.
  apply (get_cpu_times_reads_kernel_line
           [100; 20; 30; 400; 5; 6; 7; 8; 9; 10]
           (list_ascii_of_string "cpu0 1 2 3 4") 11 12).
  - repeat constructor; vm_compute; congruence.
  - vm_compute. lia.
Defined.

(** ** The events of an iteration *)

Lemma get_system_info_warnings loadavg up info :
  Forall (fun ev => is_warning ev = true) (get_system_info loadavg up info).2 /\
  (length (get_system_info loadavg up info).2 <= 2)%nat.
Proof.
  unfold get_system_info.
  destruct loadavg as [vals|], up as [[u|]|]; simpl;
    try destruct (length vals <? 1)%nat; simpl;
    split; repeat constructor.
Qed.

#[local] Opaque U64.add.

(** The two ways [get_cpu_times] ends, with the warning it logs. *)
Lemma get_cpu_times_warns (stat : option (list ascii)) (idle0 total0 : Z) :
  (exists s,
      get_cpu_times stat idle0 total0 =
        Stdio.Returned (idle_ticks s, total_ticks s, true, [])) \/
  (exists w,
      get_cpu_times stat idle0 total0 =
        Stdio.Returned (idle0, total0, false, [EvLog w]) /\
      is_warning (EvLog w) = true).
Proof.
  unfold get_cpu_times.
  destruct stat as [fp|]; [|right; eexists; split; reflexivity].
  destruct (Stdio.fgets 512 fp) as [[line rest]|];
    [|right; eexists; split; reflexivity].
  destruct (Stdio.sscanf_cpu line) as [cnt vs].
  destruct (cnt <? 4).
  - right; eexists; split; reflexivity.
  - left. eexists (mkSample _ _). reflexivity.
Qed.

#[local] Transparent U64.add.

(** One iteration, event by event. *)
Lemma tick_shape (env : Session) (st : Monitor) (inp : TickInput) :
  exists st' warns,
    tick env st inp =
      Stdio.Returned
        (st',
         warns ++ [cycle_line_of st'] ++ alert_events_of st inp st' ++
         [EvRefresh (screen_of env st st')],
         is_quit_key (in_key inp)) /\
    Forall (fun ev => is_warning ev = true) warns /\
    (length warns <= 3)%nat /\
    keep_running st' = keep_running st && negb (ends_loop inp) /\
    cycle st' = CInt.wrap_int (cycle st + 1) /\
    udp_sock st' = udp_sock st /\
    (sys st', ok_sys st') =
      (get_system_info (in_loadavg inp) (in_uptime inp) (sys st)).1.
Proof.
  unfold tick, cycle_line_of, screen_of, alert_events_of, alert_of, ends_loop,
    max_usage, min_usage.
  pose proof (get_system_info_warnings (in_loadavg inp) (in_uptime inp) (sys st))
    as [Hwarn Hlen].
  destruct (get_system_info (in_loadavg inp) (in_uptime inp) (sys st))
    as [[sys' ok_sys'] evs_sys]. simpl in Hwarn, Hlen.
  destruct (get_cpu_times_warns (in_stat inp) (idle st) (total st))
    as [(s & ->) | (w & -> & Hw)];
    cbn [mbind outcome_bind];
    destruct (shouldAlert _ ALERT_THRESHOLD) eqn:Ha.
  all: match goal with
       | |- exists st' warns, Stdio.Returned (?A, ?pre ++ ?mid ++ _, _) = _ /\ _ =>
           exists A, (pre ++ mid)
       end;
    cbn [cpu_usage extremes sys ok_sys cycle keep_running udp_sock
         ext_max ext_min app fst];
    rewrite Ha;
    (split; [reflexivity|]);
    (split; [repeat constructor; assumption|]);
    (split; [simpl; lia|]);
    (split; [rewrite negb_orb, andb_assoc; reflexivity|]);
    repeat split.
Qed.

(** ** Runs of the loop *)

Lemma run_loop_stopped (env : Session) (st : Monitor) (inputs : list TickInput) :
  keep_running st = false -> run_loop env st inputs = Stdio.Returned (st, []).
Proof. intros H. destruct inputs; simpl; [|rewrite H]; reflexivity. Qed.

(** X4. Once an iteration has seen the quit key or a signal, no further
    iteration runs: the inputs after it are not used. *)
Theorem run_loop_ignores_rest (env : Session) (inp : TickInput)
    (pre post : list TickInput) :
  ends_loop inp = true ->
  forall st,
    run_loop env st (pre ++ inp :: post) = run_loop env st (pre ++ [inp]).
Proof.
  intros Hend. induction pre as [|i pre IH]; intros st; simpl.
  - destruct (keep_running st) eqn:Hrun; [|reflexivity].
    destruct (tick_shape env st inp) as (st' & warns & Ht & _ & _ & Hk & _).
    rewrite Ht. cbn [mbind outcome_bind].
    destruct (is_quit_key (in_key inp)); [reflexivity|].
    rewrite Hend, andb_false_r in Hk.
    rewrite run_loop_stopped by exact Hk. reflexivity.
  - destruct (keep_running st); [|reflexivity].
    destruct (tick env st i) as [[[st' evs] quit]|]; cbn [mbind outcome_bind];
      [|reflexivity].
    destruct quit; [reflexivity|]. rewrite IH. reflexivity.
Qed.

Lemma run_loop_ignores_rest_witness :
  run_loop example_session (initial_monitor 3)
    ([first_input] ++ quit_input :: [second_input; second_input]) =
  run_loop example_session (initial_monitor 3)
    ([first_input] ++ [quit_input]).
Proof.
  apply (run_loop_ignores_rest example_session quit_input [first_input]).
  reflexivity.
Defined.

Lemma screens_app (l1 l2 : list event) :
  screens (l1 ++ l2) = screens l1 ++ screens l2.
Proof. apply omap_app. Qed.

Lemma warnings_no_screen (warns : list event) :
  Forall (fun ev => is_warning ev = true) warns ->
  screens warns = [] /\ List.filter is_cycle_line warns = [].
Proof.
  induction 1 as [|ev warns Hev _ (IH1 & IH2)]; [split; reflexivity|].
  destruct ev as [[]| |]; try discriminate Hev; simpl; auto.
Qed.

Lemma alert_events_no_screen (st : Monitor) (inp : TickInput) (st' : Monitor) :
  screens (alert_events_of st inp st') = [] /\
  List.filter is_cycle_line (alert_events_of st inp st') = [].
Proof.
  unfold alert_events_of, send_udp_alert.
  destruct (shouldAlert _ _); [|split; reflexivity].
  simpl. destruct (udp_sock st <? 0); [split; reflexivity|].
  destruct (in_sent inp <? 0); split; reflexivity.
Qed.

(** What one iteration shows and logs. *)
Lemma tick_counts (env : Session) (st : Monitor) (inp : TickInput) :
  exists st' evs,
    tick env st inp = Stdio.Returned (st', evs, is_quit_key (in_key inp)) /\
    screens evs = [screen_of env st st'] /\
    List.filter is_cycle_line evs = [cycle_line_of st'] /\
    keep_running st' = keep_running st && negb (ends_loop inp) /\
    cycle st' = CInt.wrap_int (cycle st + 1).
Proof.
  destruct (tick_shape env st inp)
    as (st' & warns & Ht & Hw & _ & Hk & Hc & _).
  eexists _, _. split; [exact Ht|].
  destruct (warnings_no_screen _ Hw) as (W1 & W2).
  destruct (alert_events_no_screen st inp st') as (A1 & A2).
  rewrite !screens_app, !List.filter_app, W1, W2, A1, A2.
  repeat split; assumption.
Qed.

Lemma wrap_int_add (a b : Z) :
  CInt.wrap_int (CInt.wrap_int a + b) = CInt.wrap_int (a + b).
Proof.
  unfold CInt.wrap_int.
  replace (((a + 2 ^ 31) mod 2 ^ 32 - 2 ^ 31) + b + 2 ^ 31)
    with ((a + 2 ^ 31) mod 2 ^ 32 + b) by lia.
  rewrite Zplus_mod_idemp_l. f_equal. f_equal. lia.
Qed.

(** A run of [n] iterations that see neither the quit key nor a signal,
    short enough for the counter not to overflow: the loop is still
    running, the counter has advanced by [n], and there were [n] screens,
    numbered from the counter at the start, and [n] cycle lines. *)
Lemma run_loop_counts (env : Session) (inputs : list TickInput) :
  Forall (fun inp => ends_loop inp = false) inputs ->
  forall st,
    keep_running st = true ->
    0 <= cycle st -> cycle st + Z.of_nat (length inputs) <= CInt.max ->
    exists st' evs,
      run_loop env st inputs = Stdio.Returned (st', evs) /\
      keep_running st' = true /\
      cycle st' = cycle st + Z.of_nat (length inputs) /\
      map scr_cycle (screens evs) =
        seqZ (cycle st) (Z.of_nat (length inputs)) /\
      length (List.filter is_cycle_line evs) = length inputs.
Proof.
  induction 1 as [|inp inputs Hinp _ IH]; intros st Hrun H0 Hmax.
  - exists st, []. simpl. rewrite Z.add_0_r. repeat split; assumption.
  - cbn [run_loop]. rewrite Hrun.
    destruct (tick_counts env st inp) as (st1 & evs1 & Ht & Hs & Hc & Hk & Hn).
    rewrite Ht. cbn [mbind outcome_bind].
    unfold ends_loop in Hinp. apply orb_false_elim in Hinp as [Hq Hsig].
    rewrite Hq.
    rewrite wrap_int_small in Hn
      by (unfold CInt.in_range, CInt.min, CInt.max in *; simpl length in Hmax; lia).
    destruct (IH st1) as (st' & evs' & Hloop & Hk' & Hn' & Hs' & Hc').
    { rewrite Hk, Hrun. unfold ends_loop. rewrite Hq, Hsig. reflexivity. }
    { lia. }
    { simpl length in Hmax. lia. }
    rewrite Hloop. cbn [mbind outcome_bind].
    exists st', (evs1 ++ evs'). split; [reflexivity|].
    split; [exact Hk'|]. split; [simpl length; lia|].
    rewrite screens_app, List.filter_app, map_app, List.length_app, Hs, Hc, Hs', Hc'.
    split; [|reflexivity].
    rewrite (seqZ_cons (cycle st)) by (simpl length; lia).
    simpl. f_equal. f_equal; [lia | simpl length; lia].
Qed.

(** X5. Counting from the start of a session: after [n] iterations that see
    neither the quit key nor a signal the counter is [n], the screens
    shown carry the numbers [0] to [n - 1] in order, and the log holds
    [n] cycle lines. *)
Theorem cycle_counter (env : Session) (sock : Z) (inputs : list TickInput) :
  Forall (fun inp => ends_loop inp = false) inputs ->
  Z.of_nat (length inputs) <= CInt.max ->
  exists st' evs,
    run_loop env (initial_monitor sock) inputs = Stdio.Returned (st', evs) /\
    keep_running st' = true /\
    cycle st' = Z.of_nat (length inputs) /\
    map scr_cycle (screens evs) = seqZ 0 (Z.of_nat (length inputs)) /\
    length (List.filter is_cycle_line evs) = length inputs.
Proof.
  intros Hall Hmax.
  destruct (run_loop_counts env inputs Hall (initial_monitor sock))
    as (st' & evs & H); try reflexivity; [simpl; lia|].
  exists st', evs. exact H.
Qed.

Lemma cycle_counter_witness :
  exists st' evs,
    run_loop example_session (initial_monitor 3) [first_input; second_input] =
      Stdio.Returned (st', evs) /\
    keep_running st' = true /\
    cycle st' = 2 /\
    map scr_cycle (screens evs) = seqZ 0 2 /\
    length (List.filter is_cycle_line evs) = 2%nat.
Proof.
  apply (cycle_counter example_session 3 [first_input; second_input]).
  - repeat constructor.
  - vm_compute. discriminate.
Defined.

(** ** Alerts and datagrams *)

Lemma datagrams_app (l1 l2 : list event) :
  datagrams (l1 ++ l2) = datagrams l1 ++ datagrams l2.
Proof. apply omap_app. Qed.

Lemma alerts_logged_app (l1 l2 : list event) :
  alerts_logged (l1 ++ l2) = alerts_logged l1 ++ alerts_logged l2.
Proof. apply omap_app. Qed.

Lemma warnings_no_alert (warns : list event) :
  Forall (fun ev => is_warning ev = true) warns ->
  datagrams warns = [] /\ alerts_logged warns = [] /\
  List.filter is_udp_log warns = [].
Proof.
  induction 1 as [|ev warns Hev _ (IH1 & IH2 & IH3)]; [repeat split|].
  destruct ev as [[]| |]; try discriminate Hev; simpl; auto.
Qed.

(** The datagrams and the alert lines of one iteration. *)
Lemma tick_datagrams (env : Session) (st : Monitor) (inp : TickInput) :
  exists st' evs,
    tick env st inp = Stdio.Returned (st', evs, is_quit_key (in_key inp)) /\
    udp_sock st' = udp_sock st /\
    datagrams evs = (if udp_sock st <? 0 then [] else alerts_logged evs) /\
    length (List.filter is_udp_log evs) = length (datagrams evs).
Proof.
  destruct (tick_shape env st inp)
    as (st' & warns & Ht & Hw & _ & _ & _ & Hsock & _).
  eexists _, _. split; [exact Ht|]. split; [exact Hsock|].
  destruct (warnings_no_alert _ Hw) as (W1 & W2 & W3).
  rewrite !datagrams_app, !alerts_logged_app, !List.filter_app, W1, W2, W3.
  unfold alert_events_of, send_udp_alert.
  destruct (shouldAlert _ _); simpl;
    [|destruct (udp_sock st <? 0); split; reflexivity].
  destruct (udp_sock st <? 0); [split; reflexivity|].
  destruct (in_sent inp <? 0); split; reflexivity.
Qed.

Lemma run_loop_datagrams (env : Session) (inputs : list TickInput) :
  forall st,
    exists st' evs,
      run_loop env st inputs = Stdio.Returned (st', evs) /\
      datagrams evs = (if udp_sock st <? 0 then [] else alerts_logged evs) /\
      length (List.filter is_udp_log evs) = length (datagrams evs).
Proof.
  induction inputs as [|inp inputs IH]; intros st; cbn [run_loop].
  - exists st, []. repeat split. destruct (udp_sock st <? 0); reflexivity.
  - destruct (keep_running st).
    2:{ exists st, []. repeat split. destruct (udp_sock st <? 0); reflexivity. }
    destruct (tick_datagrams env st inp) as (st1 & evs1 & Ht & Hs & Hd & Hl).
    rewrite Ht. cbn [mbind outcome_bind].
    destruct (is_quit_key (in_key inp)).
    + exists st1, evs1. auto.
    + destruct (IH st1) as (st' & evs' & Hloop & Hd' & Hl').
      rewrite Hloop. cbn [mbind outcome_bind].
      exists st', (evs1 ++ evs'). split; [reflexivity|].
      rewrite Hs in Hd'.
      rewrite datagrams_app, alerts_logged_app, List.filter_app,
        !List.length_app, Hl, Hl'.
      split; [|reflexivity]. rewrite Hd, Hd'.
      destruct (udp_sock st <? 0); reflexivity.
Qed.


(** ** What the monitor shows *)

Lemma update_picks (e : RunningExtremes) (usage : float) :
  (ext_max (update e usage) = usage \/ ext_max (update e usage) = ext_max e) /\
  (ext_min (update e usage) = usage \/ ext_min (update e usage) = ext_min e).
Proof.
  unfold update. simpl.
  destruct (ext_max e <? usage)%float, (usage <? ext_min e)%float; auto.
Qed.

(** X7. Whatever the files under [/proc] held during a session, the usage,
    the maximum and the minimum in the variables of the loop are numbers
    between [0.0] and [100.0]. *)
Theorem reachable_percentages (env : Session) (sock : Z)
    (hist : list TickInput) (st : Monitor) :
  reachable env sock hist st ->
  is_percent (cpu_usage st) /\ is_percent (max_usage st) /\
  is_percent (min_usage st).
Proof.
  induction 1 as [|hist st inp st' evs Hreach (IHu & IHmax & IHmin) Hrun Htick].
  - repeat split.
  - destruct (tick_step env st inp) as (st1 & evs1 & Ht & Hu & He & _).
    rewrite Htick in Ht. injection Ht as <- <- _.
    assert (Hp : is_percent (cpu_usage st'))
      by (rewrite Hu; apply calculate_cpu_usage_range).
    split; [exact Hp|].
    unfold max_usage, min_usage in *. rewrite He.
    destruct (update_picks (extremes st) (cpu_usage st')) as [[-> | ->] [-> | ->]];
      auto.
Qed.

Lemma reachable_percentages_witness :
  is_percent (cpu_usage after_first_tick) /\
  is_percent (max_usage after_first_tick) /\
  is_percent (min_usage after_first_tick).
Proof.
  apply (reachable_percentages example_session 3 [first_input]).
  first_tick_reachable.
Defined.

(** X8. An alert is raised only by a successful read whose total is above
    the total of an earlier successful read, that one not zero: never by
    the first sample of a session, and never by a read that failed. *)
Theorem alert_needs_two_samples (env : Session) (sock : Z)
    (hist : list TickInput) (st : Monitor) (inp : TickInput)
    (st' : Monitor) (evs : list event) (quit : bool) :
  reachable env sock hist st ->
  tick env st inp = Stdio.Returned (st', evs, quit) ->
  List.filter is_alert_event evs <> [] ->
  exists s,
    valid_sample (in_stat inp) = Some s /\
    total_ticks (last_valid hist) <> 0 /\
    total_ticks (last_valid hist) < total_ticks s.
Proof.
  intros Hreach Htick Halert.
  pose proof (reachable_prev_sample env sock _ _ Hreach) as Hprev.
  destruct (tick_step env st inp)
    as (st1 & evs1 & Ht & Hu & _ & _ & Hok & Hfail & Hev).
  rewrite Htick in Ht. injection Ht as <- <- _.
  rewrite Hev in Halert.
  destruct (shouldAlert (cpu_usage st') ALERT_THRESHOLD) eqn:Ha;
    [clear Halert | contradiction].
  rewrite <- Hprev. simpl total_ticks.
  rewrite Hu in Ha. unfold calculate_cpu_usage in Ha.
  destruct (ok_times st') eqn:Hflag; [|discriminate Ha].
  simpl negb in Ha. cbv iota in Ha.
  destruct (Hok eq_refl) as (_ & _ & Hs).
  exists (mkSample (idle st') (total st')). split; [exact Hs|]. simpl.
  destruct (total st' <=? prev_total st) eqn:Hle; [discriminate Ha|].
  destruct (prev_total st =? 0) eqn:Hz; [discriminate Ha|].
  apply Z.leb_gt in Hle. apply Z.eqb_neq in Hz. split; assumption.
Qed.

Lemma alert_needs_two_samples_witness :
  exists s,
    valid_sample (in_stat second_input) = Some s /\
    total_ticks (last_valid [first_input]) <> 0 /\
    total_ticks (last_valid [first_input]) < total_ticks s.
Proof.
  apply (alert_needs_two_samples example_session 3 [first_input]
           after_first_tick second_input
           (match tick example_session after_first_tick second_input with
            | Stdio.Returned (st', _, _) => st'
            | Stdio.Exited _ => after_first_tick
            end)
           (match tick example_session after_first_tick second_input with
            | Stdio.Returned (_, evs, _) => evs
            | Stdio.Exited _ => []
            end) false).
  - first_tick_reachable.
  - vm_compute. reflexivity.
  - vm_compute. discriminate.
Defined.

(** ** Load averages and uptime *)

Lemma latest_snoc (read : TickInput -> option float) (hist : list TickInput)
    (inp : TickInput) :
  latest read (hist ++ [inp]) = default (latest read hist) (read inp).
Proof. unfold latest. rewrite foldl_app. reflexivity. Qed.

(** What [get_system_info] leaves behind the four pointers: for each, the
    number converted, or the number that was there. *)
Lemma get_system_info_values loadavg up info :
  let info' := (get_system_info loadavg up info).1.1 in
  loadavg1 info' = default (loadavg1 info) (vals ← loadavg; vals !! 0%nat) /\
  loadavg5 info' = default (loadavg5 info) (vals ← loadavg; vals !! 1%nat) /\
  loadavg15 info' = default (loadavg15 info) (vals ← loadavg; vals !! 2%nat) /\
  uptime info' = default (uptime info) (u ← up; u).
Proof.
  unfold get_system_info.
  destruct loadavg as [vals|], up as [[u|]|]; simpl;
    rewrite ?nth_lookup; repeat split.
Qed.

(** X9. In every state of the loop each of the four system figures is the
    most recent one that could be read during the session, and [0.0]
    while none could: a failed read leaves the figure of the iteration
    before on the screen and in the log. *)
Theorem system_info_latest (env : Session) (sock : Z)
    (hist : list TickInput) (st : Monitor) :
  reachable env sock hist st ->
  loadavg1 (sys st) = latest (read_load 0) hist /\
  loadavg5 (sys st) = latest (read_load 1) hist /\
  loadavg15 (sys st) = latest (read_load 2) hist /\
  uptime (sys st) = latest read_uptime hist.
Proof.
  induction 1 as [|hist st inp st' evs Hreach (IH1 & IH2 & IH3 & IH4) Hrun Htick].
  - repeat split.
  - destruct (tick_shape env st inp)
      as (st1 & warns & Ht & _ & _ & _ & _ & _ & Hsys).
    rewrite Htick in Ht. injection Ht as <- _.
    pose proof (get_system_info_values (in_loadavg inp) (in_uptime inp) (sys st))
      as (H1 & H2 & H3 & H4).
    apply (f_equal fst) in Hsys. simpl in Hsys. rewrite <- Hsys in *.
    rewrite !latest_snoc, <- IH1, <- IH2, <- IH3, <- IH4.
    unfold read_load, read_uptime. auto.
Qed.

Lemma system_info_latest_witness :
  loadavg1 (sys after_first_tick) = latest (read_load 0) [first_input] /\
  loadavg5 (sys after_first_tick) = latest (read_load 1) [first_input] /\
  loadavg15 (sys after_first_tick) = latest (read_load 2) [first_input] /\
  uptime (sys after_first_tick) = latest read_uptime [first_input].
Proof.
  apply (system_info_latest example_session 3 [first_input]).
  first_tick_reachable.
Defined.

(** X10. Each iteration logs the warnings of its failed reads, at most three,
    then one cycle line; then, when the usage has reached the threshold
    and only then, the alert line, the datagram and the line on its fate;
    and it refreshes the screen once, at the end.  The cycle line and the
    screen carry the same usage, maximum, minimum, loads and uptime. *)
Theorem iteration_trace (env : Session) (st : Monitor) (inp : TickInput) :
  exists st' warns,
    tick env st inp =
      Stdio.Returned
        (st',
         warns ++ cycle_line_of st' :: alert_events_of st inp st' ++
         [EvRefresh (screen_of env st st')],
         is_quit_key (in_key inp)) /\
    Forall (fun ev => is_warning ev = true) warns /\
    (length warns <= 3)%nat.
Proof.
  destruct (tick_shape env st inp) as (st' & warns & Ht & Hw & Hl & _).
  exists st', warns. auto.
Qed.

(** ** The first version of the calculator *)

(** X11. With the total unchanged between two reads the first version divides
    by zero: its result is not a number when the idle count is unchanged
    too, and minus infinity otherwise.  The guards of line 162 make it
    [0.0]. *)
Theorem legacy_stalled_total (prev_idle idle total : Z) :
  Prim2SF (Legacy.calculate_cpu_usage prev_idle total idle total) =
    (if U64.sub idle prev_idle =? 0 then S754_nan else S754_infinity true) /\
  calculate_cpu_usage prev_idle total idle total true = 0%float.
Proof.
  split.
  - unfold Legacy.calculate_cpu_usage, usage_formula.
    replace (U64.sub total total) with 0
      by (unfold U64.sub; rewrite Z.sub_diag; reflexivity).
    destruct (U64.sub idle prev_idle =? 0) eqn:Hz.
    + apply Z.eqb_eq in Hz. rewrite Hz. reflexivity.
    + apply Z.eqb_neq in Hz.
      destruct (of_u64_finite (U64.sub idle prev_idle)) as (m & e & Hf).
      { pose proof (Z.mod_pos_bound (idle - prev_idle) U64.modulus eq_refl) as H.
        unfold U64.sub, U64.wrap64 in *. change U64.modulus with (2 ^ 64) in *.
        lia. }
      rewrite mul_spec, sub_spec, div_spec, Hf. reflexivity.
  - unfold calculate_cpu_usage. rewrite Z.leb_refl. reflexivity.
Qed.

(** ** The bar on any terminal *)

Lemma mvprintw_char_take (cols : nat) (row : list ascii) (x : Z) (c : ascii) :
  mvprintw_char (take cols row) x c = take cols (mvprintw_char row x c).
Proof.
  unfold mvprintw_char. destruct (x <? 0); [reflexivity|].
  destruct (decide (Z.to_nat x < cols)%nat) as [Hlt|Hge].
  - rewrite take_insert_lt by exact Hlt. reflexivity.
  - rewrite take_insert_ge by lia.
    apply list_insert_ge. rewrite length_take. lia.
Qed.

Lemma mvprintw_loop_take (cols : nat) (c : ascii) (xs : list Z) :
  forall row,
    foldl (fun r i => mvprintw_char r (i + 1) c) (take cols row) xs =
    take cols (foldl (fun r i => mvprintw_char r (i + 1) c) row xs).
Proof.
  induction xs as [|x xs IH]; intros row; simpl; [reflexivity|].
  rewrite mvprintw_char_take. apply IH.
Qed.

Lemma draw_bar_take (cols w n : nat) :
  (n <= w)%nat ->
  draw_bar cols (Z.of_nat w) (Z.of_nat n) = take cols (bar_text w n cols).
Proof.
  intros Hn.
  assert (Hwide : draw_bar (cols + w + 2) (Z.of_nat w) (Z.of_nat n) =
                  bar_text w n cols).
  { rewrite draw_bar_row by lia. unfold bar_text.
    replace (cols + w + 2 - w - 2)%nat with cols by lia. reflexivity. }
  rewrite <- Hwide. unfold draw_bar.
  rewrite <- !mvprintw_char_take, <- !mvprintw_loop_take, <- mvprintw_char_take.
  rewrite take_replicate.
  replace (cols `min` (cols + w + 2))%nat with cols by lia. reflexivity.
Qed.

(** X12. On a terminal of any width, and for any usage, the row of the bar
    holds the characters of the bar that fit, from the left: what lies
    beyond the last column is not drawn, and nothing is written
    elsewhere. *)
Theorem draw_bar_any_width (cols : nat) (usage : float) :
  draw_bar cols usage_bar_width (usage_fill usage_bar_width usage) =
  take cols
       (bar_text 40 (Z.to_nat (usage_fill usage_bar_width usage)) cols).
Proof.
  pose proof (usage_fill_clamp usage_bar_width usage) as Hfill.
  assert (Hrange : 0 <= usage_fill usage_bar_width usage <= 40).
  { unfold usage_bar_width in *. rewrite Hfill by lia. lia. }
  rewrite <- (Z2Nat.id (usage_fill usage_bar_width usage)) at 1 by lia.
  change usage_bar_width with (Z.of_nat 40) at 1.
  apply draw_bar_take. lia.
Qed.

Example draw_bar_narrow :
  draw_bar 10 40 3 = list_ascii_of_string "[###------".
Proof. reflexivity. Qed.

(** ** The program *)

(** The loop over any inputs returns, with the descriptor it started
    with; the loop has ended when an input carried the quit key or a
    signal. *)
Lemma run_loop_ends (env : Session) (inputs : list TickInput) :
  forall st,
    exists st' evs,
      run_loop env st inputs = Stdio.Returned (st', evs) /\
      udp_sock st' = udp_sock st /\
      (keep_running st = false \/
       Exists (fun inp => ends_loop inp = true) inputs ->
       keep_running st' = false).
Proof.
  induction inputs as [|inp inputs IH]; intros st; cbn [run_loop].
  - exists st, []. repeat split. intros [H|H]; [exact H | inversion H].
  - destruct (keep_running st) eqn:Hrun.
    2:{ exists st, []. repeat split. intros _. exact Hrun. }
    destruct (tick_shape env st inp)
      as (st1 & warns & Ht & _ & _ & Hk & _ & Hs & _).
    rewrite Ht. cbn [mbind outcome_bind].
    destruct (is_quit_key (in_key inp)) eqn:Hq.
    + eexists _, _. split; [reflexivity|]. split; [exact Hs|].
      intros _. rewrite Hk. unfold ends_loop. rewrite Hq.
      apply andb_false_r.
    + destruct (IH st1) as (st' & evs' & Hloop & Hs' & Hend).
      rewrite Hloop. cbn [mbind outcome_bind].
      eexists _, _. split; [reflexivity|]. split; [congruence|].
      intros [H|H]; [discriminate|]. apply Hend.
      inversion H as [? ? Hnow|? ? Hlater]; subst; [left | right; exact Hlater].
      rewrite Hk, Hnow. apply andb_false_r.
Qed.

(** X13. Once the quit key or a signal has come, [main] returns 0, whatever
    the files under [/proc] held and whether or not the socket could be
    made.  The first line logged is the start of the monitor and the last
    one its shutdown, and a descriptor that [socket] returned has been
    closed once. *)
Theorem main_returns_zero (i : MainInput) :
  in_early_signal i = true \/
  Exists (fun inp => ends_loop inp = true) (in_ticks i) ->
  exists r,
    main i = Stdio.Returned r /\
    exit_status r = Some 0 /\
    head (run_events r) = Some (EvLog LogStarting) /\
    last (run_events r) = Some (EvLog LogShutdown) /\
    closes r = if in_socket i <? 0 then 0%nat else 1%nat.
Proof.
  intros Hend. unfold main.
  destruct (setup_socket (in_socket i) (in_pton i)) as [[sock warns] closed] eqn:Hsetup.
  assert (Hcores : exists cores, get_cpu_cores (in_cpuinfo i) = Stdio.Returned cores).
  { unfold get_cpu_cores. destruct (in_cpuinfo i); eauto. }
  destruct Hcores as [cores ->]. cbn [mbind outcome_bind].
  set (st0 := if in_early_signal i then _ else _).
  destruct (run_loop_ends (mkSession cores (in_cols i)) (in_ticks i) st0)
    as (st & evs & -> & Hsock & Hstop).
  cbn [mbind outcome_bind].
  rewrite Hstop.
  2:{ destruct Hend as [He|He]; [left | right; exact He].
      subst st0. rewrite He. reflexivity. }
  eexists. split; [reflexivity|]. simpl exit_status. simpl run_events. simpl closes.
  split; [reflexivity|]. split; [reflexivity|].
  split.
  { rewrite app_comm_cons, last_snoc. reflexivity. }
  assert (Hst0 : udp_sock st0 = sock)
    by (subst st0; destruct (in_early_signal i); reflexivity).
  rewrite Hsock, Hst0. unfold setup_socket in Hsetup. simpl in Hsetup.
  destruct (in_socket i <? 0) eqn:Hs.
  - injection Hsetup as <- _ <-. reflexivity.
  - destruct (in_pton i <=? 0).
    + injection Hsetup as <- _ <-. reflexivity.
    + injection Hsetup as <- _ <-. apply Z.ltb_ge in Hs.
      replace (0 <=? in_socket i) with true by (symmetry; apply Z.leb_le; lia).
      reflexivity.
Qed.

Lemma main_returns_zero_witness :
  exists r,
    main (mkMainInput 3 1 None 80 false [first_input; second_input; quit_input]) =
      Stdio.Returned r /\
    exit_status r = Some 0 /\
    head (run_events r) = Some (EvLog LogStarting) /\
    last (run_events r) = Some (EvLog LogShutdown) /\
    closes r =
      if in_socket
           (mkMainInput 3 1 None 80 false
                        [first_input; second_input; quit_input]) <? 0
      then 0%nat else 1%nat.
Proof.
  apply main_returns_zero. right. simpl.
  apply Exists_cons_tl, Exists_cons_tl, Exists_cons_hd. reflexivity.
Defined.

(** X14. When [socket] fails, or the address of the server is refused, a run
    passes no datagram to [sendto] and logs nothing on one, whatever the
    usage; the alerts still go to the log. *)
Theorem main_without_socket (i : MainInput) :
  in_socket i < 0 \/ in_pton i <= 0 ->
  exists r,
    main i = Stdio.Returned r /\
    datagrams (run_events r) = [] /\
    List.filter is_udp_log (run_events r) = [].
Proof.
  intros Hfail. unfold main.
  assert (Hsetup : exists warns closed,
             setup_socket (in_socket i) (in_pton i) = (-1, warns, closed)).
  { unfold setup_socket. simpl.
    destruct (in_socket i <? 0) eqn:Hs; [eauto|].
    destruct (in_pton i <=? 0) eqn:Hp; [eauto|].
    apply Z.ltb_ge in Hs. apply Z.leb_gt in Hp. lia. }
  destruct Hsetup as (warns & closed & ->).
  assert (Hcores : exists cores, get_cpu_cores (in_cpuinfo i) = Stdio.Returned cores).
  { unfold get_cpu_cores. destruct (in_cpuinfo i); eauto. }
  destruct Hcores as [cores ->]. cbn [mbind outcome_bind].
  set (st0 := if in_early_signal i then _ else _).
  assert (Hst0 : udp_sock st0 = -1)
    by (subst st0; destruct (in_early_signal i); reflexivity).
  destruct (run_loop_datagrams (mkSession cores (in_cols i)) (in_ticks i) st0)
    as (st & evs & -> & Hd & Hl).
  cbn [mbind outcome_bind]. rewrite Hst0 in Hd. simpl in Hd.
  rewrite Hd in Hl. simpl in Hl.
  assert (Hnil : List.filter is_udp_log evs = [])
    by (destruct (List.filter is_udp_log evs); [reflexivity | discriminate]).
  destruct (keep_running st); eexists; (split; [reflexivity|]); simpl run_events.
  - split; [exact Hd | exact Hnil].
  - change (EvLog LogStarting :: evs ++ [EvLog LogShutdown])
      with ([EvLog LogStarting] ++ evs ++ [EvLog LogShutdown]).
    rewrite !datagrams_app, !List.filter_app, Hd, Hnil. split; reflexivity.
Qed.

Lemma main_without_socket_witness :
  exists r,
    main (mkMainInput (-1) 1 None 80 false
                      [first_input; second_input; quit_input]) =
      Stdio.Returned r /\
    datagrams (run_events r) = [] /\
    List.filter is_udp_log (run_events r) = [].
Proof.
  apply main_without_socket. left. simpl. lia.
Defined.

(** ** Widths of printed numbers *)

Lemma uint_value_digit_cons (k : Z) (d : Decimal.uint) (acc : Z) :
  0 <= k <= 9 -> uint_value (digit_cons k d) acc = uint_value d (10 * acc + k).
Proof.
  intros Hk.
  assert (Hcases : k = 0 \/ k = 1 \/ k = 2 \/ k = 3 \/ k = 4 \/ k = 5 \/
                   k = 6 \/ k = 7 \/ k = 8 \/ k = 9) by lia.
  repeat (destruct Hcases as [-> | Hcases]; [reflexivity|]).
  subst. reflexivity.
Qed.

Lemma nb_digits_digit_cons (k : Z) (d : Decimal.uint) :
  Decimal.nb_digits (digit_cons k d) = S (Decimal.nb_digits d).
Proof. destruct k as [|p|p]; try reflexivity. do 4 (destruct p; try reflexivity). Qed.

Lemma fixed_digits_value (width : nat) : forall n acc,
  0 <= n < 10 ^ Z.of_nat width ->
  uint_value (fixed_digits width n) acc = acc * 10 ^ Z.of_nat width + n.
Proof.
  induction width as [|width IH]; intros n acc Hn.
  - simpl in *. lia.
  - cbn [fixed_digits].
    rewrite Nat2Z.inj_succ, Z.pow_succ_r in * by lia.
    set (p := 10 ^ Z.of_nat width) in *.
    assert (Hp : 0 < p) by (subst p; apply Z.pow_pos_nonneg; lia).
    pose proof (Z.div_mod n p ltac:(lia)) as Hdm.
    pose proof (Z.mod_pos_bound n p Hp) as Hm.
    assert (Hq : 0 <= n / p <= 9).
    { split; [apply Z.div_pos; lia|].
      assert (n / p < 10) by (apply Z.div_lt_upper_bound; lia). lia. }
    rewrite uint_value_digit_cons, IH by assumption. nia.
Qed.

Lemma nb_digits_fixed (width : nat) (n : Z) :
  Decimal.nb_digits (fixed_digits width n) = width.
Proof.
  revert n. induction width as [|width IH]; intros n; [reflexivity|].
  cbn [fixed_digits]. rewrite nb_digits_digit_cons, IH. reflexivity.
Qed.

Lemma string_of_uint_length (d : Decimal.uint) :
  length (list_ascii_of_string (DecimalString.NilEmpty.string_of_uint d)) =
  Decimal.nb_digits d.
Proof. induction d; simpl; congruence. Qed.

(** A number below [10 ^ width] is printed with at most [width] digits. *)
Lemma decimal_length (width : nat) (n : Z) :
  (0 < width)%nat -> 0 <= n < 10 ^ Z.of_nat width ->
  (length (decimal n) <= width)%nat.
Proof.
  intros Hw Hn.
  assert (Hto : N.to_uint (Z.to_N n) = Decimal.unorm (fixed_digits width n)).
  { rewrite <- DecimalN.Unsigned.to_of. f_equal. unfold N.of_uint.
    pose proof (fixed_digits_value width n 0 Hn) as Hv.
    rewrite uint_value_of_uint in Hv. lia. }
  assert (Hnn : fixed_digits width n <> Decimal.Nil).
  { apply DecimalFacts.nb_digits_n0. rewrite nb_digits_fixed. lia. }
  pose proof (DecimalFacts.nb_digits_unorm _ Hnn) as Hle.
  rewrite nb_digits_fixed, <- Hto in Hle.
  unfold decimal, DecimalString.NilZero.string_of_uint.
  pose proof (to_uint_nonnil (Z.to_N n)) as Hnil.
  destruct (N.to_uint (Z.to_N n)) eqn:Hd; try congruence;
    rewrite string_of_uint_length; exact Hle.
Qed.

Lemma zero_padded_length (width : nat) (n : Z) :
  (0 < width)%nat -> 0 <= n < 10 ^ Z.of_nat width ->
  length (Printf.zero_padded width n) = width.
Proof.
  intros Hw Hn. pose proof (decimal_length width n Hw Hn) as Hle.
  unfold Printf.zero_padded.
  replace (n <? 0) with false by (symmetry; apply Z.ltb_ge; lia).
  rewrite Z.abs_eq by lia.
  rewrite List.length_app, length_replicate. lia.
Qed.




(** ** The log file *)

Lemma rotated_name_fresh (t : tm) : rotated_name t <> LOG_FILE.
Proof.
  unfold rotated_name, Printf.snprintf. cbn. discriminate.
Qed.

Lemma fopen_append_lookup (fs : gmap string (list ascii)) :
  fopen_append fs !! LOG_FILE = Some (default [] (fs !! LOG_FILE)).
Proof.
  unfold fopen_append. destruct (fs !! LOG_FILE) eqn:H; simpl.
  - exact H.
  - apply lookup_insert_eq.
Qed.

Lemma fopen_append_present (fs : gmap string (list ascii)) :
  is_Some (fs !! LOG_FILE) -> fopen_append fs = fs.
Proof. unfold fopen_append. intros [content ->]. reflexivity. Qed.

(** After [open_log] the stream is open exactly when it was, or the file
    could be opened; the content of the log is as before. *)
Lemma open_log_spec (ok : bool) (s : LogState) :
  log_consistent s ->
  logf (open_log ok s) = logf s || ok /\
  log_content (open_log ok s) = log_content s /\
  log_consistent (open_log ok s).
Proof.
  intros Hc. unfold open_log, log_content, log_consistent in *.
  destruct (logf s) eqn:Hl; [auto|].
  destruct ok; simpl; [|repeat split; discriminate].
  rewrite fopen_append_lookup. repeat split. intros _. eauto.
Qed.

Lemma fprintf_present (text old : list ascii) (fs : gmap string (list ascii)) :
  fs !! LOG_FILE = Some old ->
  alter (fun content => content ++ text) LOG_FILE fs =
  <[LOG_FILE := old ++ text]> fs.
Proof.
  intros Hold. apply map_eq. intros name.
  destruct (decide (name = LOG_FILE)) as [->|Hne].
  - rewrite lookup_alter_eq, lookup_insert_eq, Hold. reflexivity.
  - rewrite lookup_alter_ne, lookup_insert_ne by congruence. reflexivity.
Qed.

Lemma insert_fopen_append (text : list ascii) (fs : gmap string (list ascii)) :
  <[LOG_FILE := text]> (fopen_append fs) = <[LOG_FILE := text]> fs.
Proof.
  unfold fopen_append. destruct (fs !! LOG_FILE); [reflexivity|].
  apply insert_insert_eq.
Qed.

(** The stream open after [open_log], with the file in the directory. *)
Lemma open_log_opened (c : LogCall) (s : LogState) :
  log_consistent s -> logf s || call_fopen c = true ->
  exists fs,
    open_log (call_fopen c) s = mkLog true fs (stderr_lines s) /\
    fs !! LOG_FILE = Some (log_content s) /\
    (forall text, <[LOG_FILE := text]> fs = <[LOG_FILE := text]> (files s)) /\
    (forall name, name <> LOG_FILE -> fs !! name = files s !! name).
Proof.
  intros Hc Hopen. unfold open_log, log_content.
  destruct (logf s) eqn:Hl.
  - destruct (Hc Hl) as [old Hold]. exists (files s).
    destruct s as [l fs e]; simpl in *. subst l. rewrite Hold. auto.
  - simpl in Hopen. rewrite Hopen. eexists. split; [reflexivity|].
    split; [apply fopen_append_lookup|].
    split; [intros; apply insert_fopen_append|].
    intros name Hne. unfold fopen_append.
    destruct (files s !! LOG_FILE); [reflexivity|].
    apply lookup_insert_ne. congruence.
Qed.

Lemma write_log_below_limit (c : LogCall) (msg : list ascii) (s : LogState) :
  log_consistent s ->
  logf s || call_fopen c = true ->
  Z.of_nat (length (log_content s)) < LOG_MAX_BYTES ->
  write_log c msg s =
  mkLog true
        (<[LOG_FILE := log_content s ++ log_entry (call_stamp c) msg]> (files s))
        (stderr_lines s).
Proof.
  intros Hc Hopen Hsize. unfold write_log.
  destruct (open_log_opened c s Hc Hopen) as (fs & -> & Hold & Hins & _).
  unfold rotate_log_if_needed. simpl. rewrite Hold.
  replace (Z.of_nat (length (log_content s)) <? LOG_MAX_BYTES) with true
    by (symmetry; apply Z.ltb_lt; exact Hsize).
  unfold fprintf_logf. simpl.
  rewrite (fprintf_present _ _ _ Hold), Hins. reflexivity.
Qed.

(** X15. [write_log] while the log is below the limit: one line is added at
    the end of the file, and nothing else changes. *)
Theorem write_log_appends (c : LogCall) (msg : list ascii) (s : LogState) :
  log_consistent s ->
  logf s || call_fopen c = true ->
  Z.of_nat (length (log_content s)) < LOG_MAX_BYTES ->
  write_log c msg s =
  mkLog true
        (<[LOG_FILE := log_content s ++ log_entry (call_stamp c) msg]> (files s))
        (stderr_lines s).
Proof. exact (write_log_below_limit c msg s). Qed.

Lemma write_log_at_limit (c : LogCall) (msg : list ascii) (s : LogState) :
  log_consistent s ->
  logf s || call_fopen c = true ->
  LOG_MAX_BYTES <= Z.of_nat (length (log_content s)) ->
  call_rename c = true -> call_reopen c = true ->
  write_log c msg s =
  mkLog true
        (<[LOG_FILE := rotation_note (call_note_stamp c)
                                     (rotated_name (call_time c)) ++
                       log_entry (call_stamp c) msg]>
           (<[rotated_name (call_time c) := log_content s]> (files s)))
        (stderr_lines s).
Proof.
  intros Hc Hopen Hsize Hren Hre. unfold write_log.
  destruct (open_log_opened c s Hc Hopen) as (fs & -> & Hold & Hins & Hother).
  unfold rotate_log_if_needed. simpl. rewrite Hold.
  replace (Z.of_nat (length (log_content s)) <? LOG_MAX_BYTES) with false
    by (symmetry; apply Z.ltb_ge; exact Hsize).
  rewrite Hren, Hre. unfold open_log. simpl.
  unfold fprintf_logf. simpl. f_equal.
  pose proof (rotated_name_fresh (call_time c)) as Hfresh.
  apply map_eq. intros name.
  destruct (decide (name = LOG_FILE)) as [->|Hne].
  - rewrite lookup_alter_eq, lookup_insert_eq, lookup_alter_eq.
    rewrite fopen_append_lookup, lookup_insert_ne, lookup_delete_eq
      by exact Hfresh.
    reflexivity.
  - rewrite !lookup_alter_ne, lookup_insert_ne by congruence.
    unfold fopen_append.
    rewrite lookup_insert_ne, lookup_delete_eq by exact Hfresh.
    rewrite lookup_insert_ne by congruence.
    destruct (decide (name = rotated_name (call_time c))) as [->|Hne'].
    + rewrite !lookup_insert_eq. reflexivity.
    + rewrite !lookup_insert_ne, lookup_delete_ne by congruence.
      apply Hother, Hne.
Qed.

(** X16. [write_log] when the log has reached the limit and the calls of the
    rotation succeed: the old content is, unchanged, the file of the
    rotated name, and the log is a new file that holds the note on the
    rotation and the line. *)
Theorem write_log_rotates (c : LogCall) (msg : list ascii) (s : LogState) :
  log_consistent s ->
  logf s || call_fopen c = true ->
  LOG_MAX_BYTES <= Z.of_nat (length (log_content s)) ->
  call_rename c = true -> call_reopen c = true ->
  write_log c msg s =
  mkLog true
        (<[LOG_FILE := rotation_note (call_note_stamp c)
                                     (rotated_name (call_time c)) ++
                       log_entry (call_stamp c) msg]>
           (<[rotated_name (call_time c) := log_content s]> (files s)))
        (stderr_lines s).
Proof. exact (write_log_at_limit c msg s). Qed.

Lemma write_log_not_renamed (c : LogCall) (msg : list ascii) (s : LogState) :
  log_consistent s ->
  logf s || call_fopen c = true ->
  LOG_MAX_BYTES <= Z.of_nat (length (log_content s)) ->
  call_rename c = false -> call_reopen c = true ->
  write_log c msg s =
  mkLog true
        (<[LOG_FILE := log_content s ++
                       rotation_note (call_note_stamp c)
                                     (rotated_name (call_time c)) ++
                       log_entry (call_stamp c) msg]> (files s))
        (stderr_lines s ++ [WarnLogRotate]).
Proof.
  intros Hc Hopen Hsize Hren Hre. unfold write_log.
  destruct (open_log_opened c s Hc Hopen) as (fs & -> & Hold & Hins & Hother).
  unfold rotate_log_if_needed. simpl. rewrite Hold.
  replace (Z.of_nat (length (log_content s)) <? LOG_MAX_BYTES) with false
    by (symmetry; apply Z.ltb_ge; exact Hsize).
  rewrite Hren, Hre. unfold open_log. simpl.
  unfold fprintf_logf. simpl. f_equal.
  rewrite (fopen_append_present fs) by eauto.
  rewrite (fprintf_present _ _ _ Hold).
  rewrite (fprintf_present _ (log_content s ++ rotation_note _ _))
    by apply lookup_insert_eq.
  rewrite insert_insert_eq, Hins, <- List.app_assoc. reflexivity.
Qed.

(** X17. [write_log] when the log has reached the limit and [rename] fails:
    nothing is moved, the warning of line 91 goes to the standard error
    stream, and the note on the rotation and the line are added to the
    file that stays in place, beyond the limit. *)
Theorem write_log_rename_fails (c : LogCall) (msg : list ascii) (s : LogState) :
  log_consistent s ->
  logf s || call_fopen c = true ->
  LOG_MAX_BYTES <= Z.of_nat (length (log_content s)) ->
  call_rename c = false -> call_reopen c = true ->
  write_log c msg s =
  mkLog true
        (<[LOG_FILE := log_content s ++
                       rotation_note (call_note_stamp c)
                                     (rotated_name (call_time c)) ++
                       log_entry (call_stamp c) msg]> (files s))
        (stderr_lines s ++ [WarnLogRotate]).
Proof. exact (write_log_not_renamed c msg s). Qed.

(** X18. The files that [write_log] leaves alone: every file but the log and
    the file of the rotated name. *)
Theorem write_log_frame (c : LogCall) (msg : list ascii) (s : LogState)
    (name : string) :
  name <> LOG_FILE -> name <> rotated_name (call_time c) ->
  files (write_log c msg s) !! name = files s !! name.
Proof.
  intros Hlog Hrot.
  assert (Hopen : forall ok s0,
             files (open_log ok s0) !! name = files s0 !! name).
  { intros ok s0. unfold open_log, fopen_append.
    destruct (logf s0), ok; simpl; try reflexivity.
    destruct (files s0 !! LOG_FILE); [reflexivity|].
    apply lookup_insert_ne. congruence. }
  assert (Hprint : forall text s0,
             files (fprintf_logf text s0) !! name = files s0 !! name).
  { intros text s0. unfold fprintf_logf. simpl.
    apply lookup_alter_ne. congruence. }
  assert (Hrotate : forall s0,
             files (rotate_log_if_needed c s0) !! name = files s0 !! name).
  { intros s0. unfold rotate_log_if_needed.
    destruct (logf s0); simpl; [|reflexivity].
    destruct (files s0 !! LOG_FILE) as [content|]; [|reflexivity].
    destruct (Z.of_nat (length content) <? LOG_MAX_BYTES); [reflexivity|].
    match goal with
    | |- files (if logf ?s1 then _ else _) !! _ = _ =>
        assert (Hs1 : files s1 !! name = files s0 !! name);
        [|destruct (logf s1); [rewrite Hprint|]; exact Hs1]
    end.
    rewrite Hopen. destruct (call_rename c); simpl; [|reflexivity].
    rewrite lookup_insert_ne, lookup_delete_ne by congruence. reflexivity. }
  unfold write_log.
  match goal with
  | |- files (if negb (logf ?s1) then _ else _) !! _ = _ =>
      destruct (logf s1); cbn [negb]; cbv iota;
        rewrite ?Hprint, Hrotate, Hopen; reflexivity
  end.
Qed.

Lemma write_log_frame_witness :
  files (write_log
           (mkCall true true true (mkTm 124 0 1 0 0 0)
                   (mkClock (mkTm 124 0 1 0 0 0) 0)
                   (mkClock (mkTm 124 0 1 0 0 0) 0))
           (list_ascii_of_string "Starting CPU monitor")
           (mkLog false {["notes.txt"%string := list_ascii_of_string "keep"]} []))
    !! "notes.txt"%string =
  files (mkLog false {["notes.txt"%string := list_ascii_of_string "keep"]} [])
    !! "notes.txt"%string.
Proof.
  apply write_log_frame.
  - discriminate.
  - vm_compute. discriminate.
Defined.

Lemma write_log_consistent (c : LogCall) (msg : list ascii) (s : LogState) :
  log_consistent s -> log_consistent (write_log c msg s).
Proof.
  intros Hc. unfold write_log.
  destruct (open_log_spec (call_fopen c) s Hc) as (_ & _ & Hc1).
  set (s1 := open_log (call_fopen c) s) in *. clearbody s1.
  assert (Hprint : forall text s0,
             log_consistent s0 -> log_consistent (fprintf_logf text s0)).
  { intros text s0 H0 Hl. destruct (H0 Hl) as [old Hold].
    unfold fprintf_logf. simpl. rewrite lookup_alter_eq, Hold. eauto. }
  assert (Hc2 : log_consistent (rotate_log_if_needed c s1)).
  { unfold rotate_log_if_needed.
    destruct (logf s1) eqn:Hl1; simpl; [|exact Hc1].
    destruct (files s1 !! LOG_FILE) as [content|]; [|exact Hc1].
    destruct (Z.of_nat (length content) <? LOG_MAX_BYTES); [exact Hc1|].
    match goal with
    | |- log_consistent (if logf ?s2 then _ else _) =>
        assert (H2 : log_consistent s2);
        [|destruct (logf s2) eqn:Hl2;
          [apply Hprint, H2 | exact H2]]
    end.
    apply open_log_spec. destruct (call_rename c); intros Hl; discriminate. }
  destruct (logf (rotate_log_if_needed c s1)); cbn [negb]; cbv iota;
    [apply Hprint|]; exact Hc2.
Qed.

(** X19. [write_log] loses nothing of what the log held: after the call the
    old content is the beginning of the log, or it is the file of the
    rotated name. *)
Theorem write_log_keeps_text (c : LogCall) (msg : list ascii) (s : LogState) :
  log_consistent s ->
  (exists rest,
      log_content (write_log c msg s) = log_content s ++ rest) \/
  files (write_log c msg s) !! rotated_name (call_time c) =
    Some (log_content s).
Proof.
  intros Hc.
  destruct (logf s || call_fopen c) eqn:Hopen.
  2:{ left. exists []. apply orb_false_elim in Hopen as [Hl Hf].
      unfold write_log, open_log, rotate_log_if_needed.
      rewrite Hl, Hf. simpl. rewrite List.app_nil_r. reflexivity. }
  destruct (Z.of_nat (length (log_content s)) <? LOG_MAX_BYTES) eqn:Hsize.
  { left. eexists. rewrite write_log_below_limit by (auto; apply Z.ltb_lt, Hsize).
    unfold log_content at 1. simpl. rewrite lookup_insert_eq. reflexivity. }
  apply Z.ltb_ge in Hsize.
  pose proof (rotated_name_fresh (call_time c)) as Hfresh.
  destruct (call_rename c) eqn:Hren, (call_reopen c) eqn:Hre.
  - right. rewrite write_log_at_limit by auto. simpl.
    rewrite lookup_insert_ne, lookup_insert_eq by congruence. reflexivity.
  - right. unfold write_log.
    destruct (open_log_opened c s Hc Hopen) as (fs & -> & Hold & _).
    unfold rotate_log_if_needed. simpl. rewrite Hold.
    replace (Z.of_nat (length (log_content s)) <? LOG_MAX_BYTES) with false
      by (symmetry; apply Z.ltb_ge; exact Hsize).
    rewrite Hren, Hre. simpl. apply lookup_insert_eq.
  - left. eexists. rewrite write_log_not_renamed by auto.
    unfold log_content at 1. simpl. rewrite lookup_insert_eq. reflexivity.
  - left. exists []. unfold write_log.
    destruct (open_log_opened c s Hc Hopen) as (fs & -> & Hold & _).
    unfold rotate_log_if_needed. simpl. rewrite Hold.
    replace (Z.of_nat (length (log_content s)) <? LOG_MAX_BYTES) with false
      by (symmetry; apply Z.ltb_ge; exact Hsize).
    rewrite Hren, Hre. simpl. unfold log_content at 1. simpl.
    rewrite Hold, List.app_nil_r. reflexivity.
Qed.

(** X20. Closing the log between two calls changes nothing when the file can
    be opened again: [write_log] opens it and goes on at its end. *)
Theorem write_log_after_close (c : LogCall) (msg : list ascii) (s : LogState) :
  log_consistent s -> call_fopen c = true ->
  write_log c msg (close_log s) = write_log c msg s.
Proof.
  intros Hc Hf. unfold close_log.
  destruct (logf s) eqn:Hl; [|reflexivity].
  unfold write_log. f_equal.
  assert (Hopen : open_log (call_fopen c) (mkLog false (files s) (stderr_lines s)) =
                  open_log (call_fopen c) s).
  { unfold open_log. simpl. rewrite Hl, Hf.
    rewrite fopen_append_present by (apply Hc, Hl).
    destruct s; simpl in *. subst. reflexivity. }
  rewrite Hopen. reflexivity.
Qed.

Lemma write_logs_snoc (calls : list (LogCall * list ascii)) (c : LogCall)
    (msg : list ascii) (s : LogState) :
  write_logs (calls ++ [(c, msg)]) s = write_log c msg (write_logs calls s).
Proof. unfold write_logs. rewrite foldl_app. reflexivity. Qed.

Lemma write_logs_consistent (calls : list (LogCall * list ascii)) :
  forall s, log_consistent s -> log_consistent (write_logs calls s).
Proof.
  induction calls as [|[c msg] calls IH]; intros s Hc; [exact Hc|].
  apply IH, write_log_consistent, Hc.
Qed.

Lemma timestamp_now_short (now : Clock) : (length (timestamp_now now) <= 63)%nat.
Proof. unfold timestamp_now, Printf.snprintf. rewrite length_take. lia. Qed.

Lemma length_list_ascii_of_string (l : list ascii) :
  length (list_ascii_of_string (string_of_list_ascii l)) = length l.
Proof. rewrite list_ascii_of_string_of_list_ascii. reflexivity. Qed.

Lemma rotation_note_short (stamp : Clock) (t : tm) :
  Z.of_nat (length (rotation_note stamp (rotated_name t))) < LOG_MAX_BYTES.
Proof.
  unfold rotation_note, rotated_name, Printf.snprintf.
  rewrite !List.length_app, length_list_ascii_of_string, length_take.
  pose proof (timestamp_now_short stamp). simpl length.
  unfold LOG_MAX_BYTES. lia.
Qed.

(** X21. However many lines a session writes, while the calls of the rotation
    succeed the log never holds more than the limit before a line is
    added: after every call it is that line after fewer than
    [LOG_MAX_BYTES] characters. *)
Theorem log_size_bounded (calls : list (LogCall * list ascii)) (c : LogCall)
    (msg : list ascii) (s : LogState) :
  log_consistent s -> call_succeeds c ->
  exists before,
    log_content (write_logs (calls ++ [(c, msg)]) s) =
      before ++ log_entry (call_stamp c) msg /\
    Z.of_nat (length before) < LOG_MAX_BYTES.
Proof.
  intros Hc (Hf & Hren & Hre). rewrite write_logs_snoc.
  pose proof (write_logs_consistent calls s Hc) as Hc'.
  set (s' := write_logs calls s) in *. clearbody s'.
  assert (Hopen : logf s' || call_fopen c = true)
    by (rewrite Hf; apply orb_true_r).
  destruct (Z.of_nat (length (log_content s')) <? LOG_MAX_BYTES) eqn:Hsize.
  - apply Z.ltb_lt in Hsize. exists (log_content s').
    rewrite write_log_below_limit by assumption.
    unfold log_content at 1. simpl. rewrite lookup_insert_eq. auto.
  - apply Z.ltb_ge in Hsize. eexists.
    rewrite write_log_at_limit by assumption.
    unfold log_content at 1. simpl. rewrite lookup_insert_eq.
    split; [reflexivity | apply rotation_note_short].
Qed.

Lemma full_log_length :
  LOG_MAX_BYTES <= Z.of_nat (length (log_content full_state)).
Proof.
  unfold log_content, full_state, files. rewrite lookup_insert_eq.
  unfold default, from_option, id, full_log. rewrite length_replicate.
  unfold LOG_MAX_BYTES. lia.
Qed.

Lemma full_state_consistent : log_consistent full_state.
Proof. intros _. exists full_log. apply lookup_insert_eq. Qed.

Lemma write_log_appends_witness :
  write_log example_call starting_message empty_log =
  mkLog true
        (<[LOG_FILE := log_content empty_log ++
                       log_entry (call_stamp example_call) starting_message]>
           (files empty_log))
        (stderr_lines empty_log).
Proof.
  apply write_log_appends.
  - intros H. discriminate H.
  - reflexivity.
  - reflexivity.
Defined.

Lemma write_log_rotates_witness :
  write_log example_call starting_message full_state =
  mkLog true
        (<[LOG_FILE := rotation_note (call_note_stamp example_call)
                                     (rotated_name (call_time example_call)) ++
                       log_entry (call_stamp example_call) starting_message]>
           (<[rotated_name (call_time example_call) := log_content full_state]>
              (files full_state)))
        (stderr_lines full_state).
Proof.
  apply write_log_rotates.
  - exact full_state_consistent.
  - reflexivity.
  - exact full_log_length.
  - reflexivity.
  - reflexivity.
Defined.

Lemma write_log_rename_fails_witness :
  write_log (mkCall true false true new_year (mkClock new_year 0)
                    (mkClock new_year 500000))
            starting_message full_state =
  mkLog true
        (<[LOG_FILE := log_content full_state ++
                       rotation_note (mkClock new_year 0)
                                     (rotated_name new_year) ++
                       log_entry (mkClock new_year 500000) starting_message]>
           (files full_state))
        (stderr_lines full_state ++ [WarnLogRotate]).
Proof.
  apply (write_log_rename_fails
           (mkCall true false true new_year (mkClock new_year 0)
                   (mkClock new_year 500000))).
  - exact full_state_consistent.
  - reflexivity.
  - exact full_log_length.
  - reflexivity.
  - reflexivity.
Defined.

Lemma write_log_keeps_text_witness :
  (exists rest,
      log_content (write_log example_call starting_message full_state) =
      log_content full_state ++ rest) \/
  files (write_log example_call starting_message full_state)
    !! rotated_name (call_time example_call) =
    Some (log_content full_state).
Proof.
  apply write_log_keeps_text. exact full_state_consistent.
Defined.

Lemma write_log_after_close_witness :
  write_log example_call starting_message (close_log full_state) =
  write_log example_call starting_message full_state.
Proof.
  apply write_log_after_close.
  - exact full_state_consistent.
  - reflexivity.
Defined.

Lemma log_size_bounded_witness :
  exists before,
    log_content
      (write_logs ([(example_call, starting_message)] ++ [(example_call, starting_message)])
                  full_state) =
      before ++ log_entry (call_stamp example_call) starting_message /\
    Z.of_nat (length before) < LOG_MAX_BYTES.
Proof.
  apply log_size_bounded.
  - exact full_state_consistent.
  - repeat split.
Defined.

(** ** Time stamps *)

Lemma zero_padded_2 (n : Z) :
  0 <= n < 100 -> length (Printf.zero_padded 2 n) = 2%nat.
Proof. intros Hn. apply zero_padded_length; [lia | exact Hn]. Qed.

Lemma zero_padded_3 (n : Z) :
  0 <= n < 1000 -> length (Printf.zero_padded 3 n) = 3%nat.
Proof. intros Hn. apply zero_padded_length; [lia | exact Hn]. Qed.

Lemma zero_padded_4 (n : Z) :
  0 <= n < 10000 -> length (Printf.zero_padded 4 n) = 4%nat.
Proof. intros Hn. apply zero_padded_length; [lia | exact Hn]. Qed.

(** X22. For calendar values the time stamp has 23 characters, whatever the
    date: it fits in the buffer of line 214 and nothing of it is cut. *)
Theorem timestamp_now_width (now : Clock) :
  calendar (clock_tm now) -> 0 <= tv_usec now < 1000000 ->
  length (timestamp_now now) = 23%nat /\
  timestamp_now now =
    Printf.zero_padded 4 (tm_year (clock_tm now) + 1900) ++
    "-"%char :: Printf.zero_padded 2 (tm_mon (clock_tm now) + 1) ++
    "-"%char :: Printf.zero_padded 2 (tm_mday (clock_tm now)) ++
    " "%char :: Printf.zero_padded 2 (tm_hour (clock_tm now)) ++
    ":"%char :: Printf.zero_padded 2 (tm_min (clock_tm now)) ++
    ":"%char :: Printf.zero_padded 2 (tm_sec (clock_tm now)) ++
    "."%char :: Printf.zero_padded 3 (tv_usec now / 1000).
Proof.
  intros (Hy & Hmo & Hd & Hh & Hmi & Hs) Hu. unfold timestamp_now.
  rewrite !wrap_int_small
    by (unfold CInt.in_range, CInt.min, CInt.max; lia).
  rewrite Z.quot_div_nonneg by lia.
  assert (Hms : 0 <= tv_usec now / 1000 < 1000).
  { split; [apply Z.div_pos; lia | apply Z.div_lt_upper_bound; lia]. }
  set (text := Printf.zero_padded 4 _ ++ _).
  assert (Hlen : length text = 23%nat).
  { subst text.
    repeat (rewrite List.length_app || rewrite length_cons).
    rewrite zero_padded_4, !zero_padded_2, zero_padded_3 by lia.
    reflexivity. }
  unfold Printf.snprintf. rewrite take_ge by lia. auto.
Qed.

Lemma timestamp_now_width_witness :
  length (timestamp_now (mkClock new_year 500000)) = 23%nat /\
  timestamp_now (mkClock new_year 500000) =
    Printf.zero_padded 4 (tm_year (clock_tm (mkClock new_year 500000)) + 1900) ++
    "-"%char ::
    Printf.zero_padded 2 (tm_mon (clock_tm (mkClock new_year 500000)) + 1) ++
    "-"%char ::
    Printf.zero_padded 2 (tm_mday (clock_tm (mkClock new_year 500000))) ++
    " "%char ::
    Printf.zero_padded 2 (tm_hour (clock_tm (mkClock new_year 500000))) ++
    ":"%char ::
    Printf.zero_padded 2 (tm_min (clock_tm (mkClock new_year 500000))) ++
    ":"%char ::
    Printf.zero_padded 2 (tm_sec (clock_tm (mkClock new_year 500000))) ++
    "."%char :: Printf.zero_padded 3 (tv_usec (mkClock new_year 500000) / 1000).
Proof.
  apply timestamp_now_width.
  - unfold calendar. simpl. lia.
  - simpl. lia.
Defined.

Example timestamp_new_year :
  timestamp_now (mkClock new_year 500000) =
  list_ascii_of_string "2024-01-01 00:00:00.500".
Proof. reflexivity. Qed.

(** X23. While the log file cannot be opened the monitor goes on without it:
    a run of calls of [write_log] changes no file, leaves the stream
    closed, and writes the warning of line 52 once for each call. *)
Theorem write_logs_unopened (calls : list (LogCall * list ascii)) :
  forall s,
    logf s = false ->
    Forall (fun call => call_fopen call.1 = false) calls ->
    write_logs calls s =
    mkLog false (files s)
          (stderr_lines s ++ replicate (length calls) WarnLogOpen).
Proof.
  induction calls as [|[c msg] calls IH]; intros s Hl Hall.
  - simpl. rewrite List.app_nil_r. destruct s; simpl in *. subst. reflexivity.
  - inversion Hall as [|? ? Hc Hall']; subst. simpl in Hc.
    change (write_logs ((c, msg) :: calls) s)
      with (write_logs calls (write_log c msg s)).
    assert (Hstep : write_log c msg s =
                    mkLog false (files s) (stderr_lines s ++ [WarnLogOpen])).
    { unfold write_log, open_log, rotate_log_if_needed.
      rewrite Hl, Hc. reflexivity. }
    rewrite Hstep, IH by (auto; reflexivity).
    simpl. rewrite <- List.app_assoc. reflexivity.
Qed.

Lemma write_logs_unopened_witness :
  write_logs
    [(mkCall false true true new_year (mkClock new_year 0) (mkClock new_year 0),
      starting_message);
     (mkCall false true true new_year (mkClock new_year 0) (mkClock new_year 0),
      starting_message)]
    empty_log =
  mkLog false (files empty_log)
        (stderr_lines empty_log ++
         replicate
           (length
              [(mkCall false true true new_year (mkClock new_year 0)
                       (mkClock new_year 0), starting_message);
               (mkCall false true true new_year (mkClock new_year 0)
                       (mkClock new_year 0), starting_message)])
           WarnLogOpen).
Proof.
  apply write_logs_unopened.
  - reflexivity.
  - repeat constructor.
Defined.

(** ** Runs of calls *)

Lemma log_entry_nonempty (stamp : Clock) (msg : list ascii) :
  (0 < length (log_entry stamp msg))%nat.
Proof.
  unfold log_entry. rewrite List.length_app. simpl. lia.
Qed.

(** X24. While the log stays within the limit and can be opened, it grows by
    the lines of the calls, in the order of the calls, and no other file
    appears or changes. *)
Theorem write_logs_in_order (calls : list (LogCall * list ascii)) :
  forall s,
    log_consistent s ->
    Forall (fun call => call_fopen call.1 = true) calls ->
    calls <> [] ->
    Z.of_nat (length (log_content s ++ log_entries calls)) <= LOG_MAX_BYTES ->
    write_logs calls s =
    mkLog true (<[LOG_FILE := log_content s ++ log_entries calls]> (files s))
          (stderr_lines s).
Proof.
  induction calls as [|[c msg] calls IH]; intros s Hc Hall Hne Hsize;
    [congruence|].
  inversion Hall as [|? ? Hf Hall']; subst. simpl in Hf.
  change (write_logs ((c, msg) :: calls) s)
    with (write_logs calls (write_log c msg s)).
  change (log_entries ((c, msg) :: calls))
    with (log_entry (call_stamp c) msg ++ log_entries calls) in *.
  pose proof (log_entry_nonempty (call_stamp c) msg) as Hpos.
  rewrite !List.length_app in Hsize.
  assert (Hstep : write_log c msg s =
            mkLog true
              (<[LOG_FILE := log_content s ++ log_entry (call_stamp c) msg]>
                 (files s))
              (stderr_lines s)).
  { apply write_log_below_limit; [exact Hc | rewrite Hf; apply orb_true_r | lia]. }
  rewrite Hstep.
  destruct calls as [|call calls].
  { simpl. rewrite List.app_nil_r. reflexivity. }
  rewrite IH; try assumption; try discriminate.
  - unfold log_content. simpl. rewrite lookup_insert_eq. simpl.
    rewrite insert_insert_eq, <- List.app_assoc. reflexivity.
  - intros _. simpl. rewrite lookup_insert_eq. eauto.
  - unfold log_content at 1. simpl files. rewrite lookup_insert_eq.
    simpl default. rewrite !List.length_app. lia.
Qed.

Lemma write_logs_in_order_witness :
  write_logs [(example_call, starting_message); (example_call, starting_message)]
             empty_log =
  mkLog true
        (<[LOG_FILE := log_content empty_log ++
                       log_entries [(example_call, starting_message);
                                    (example_call, starting_message)]]>
           (files empty_log))
        (stderr_lines empty_log).
Proof.
  apply write_logs_in_order.
  - intros H. discriminate H.
  - repeat constructor.
  - discriminate.
  - vm_compute. discriminate.
Defined.

(** ** Names of rotated files *)




